(** * Motor current-control core (Firmware/MotorControl/motor.cpp)

    A shallow embedding of the arm/disarm state machine, the PWM commit
    protocol, the timer-update interrupt handler and the two measurement
    control laws, together with the properties stated about them.

    Conventions
    - [float] is IEEE-754 binary32 (the C++ [float]), computed with the
      Standard Library's [SpecFloat] at precision 24 and exponent bound 128;
    - [uint32_t] and [uint16_t] values are [Z] with the wrap-around written out;
    - the timer registers are a record; every volatile access is also recorded
      in a chronological trace, next to the calls made to collaborators that
      live in other translation units;
    - member functions are computations in a small state monad over [World]
      (the motor object, the timer it drives, the control-law object the motor
      points to and the globals it reads). *)

From Stdlib Require Import ZArith List Bool Lia.
From Stdlib Require Import Floats.SpecFloat.
Import ListNotations.
Local Open Scope Z_scope.

(* ------------------------------------------------------------------ *)
(** ** binary32 arithmetic *)

Definition float : Type := spec_float.

Module F32.
Definition prec : Z := 24.
Definition emax : Z := 128.

Definition add : float -> float -> float := SFadd prec emax.
Definition sub : float -> float -> float := SFsub prec emax.
Definition mul : float -> float -> float := SFmul prec emax.
Definition div : float -> float -> float := SFdiv prec emax.
Definition neg : float -> float := SFopp.
Definition abs : float -> float := SFabs.
Definition ltb : float -> float -> bool := SFltb.
Definition leb : float -> float -> bool := SFleb.
Definition gtb (x y : float) : bool := SFltb y x.
Definition geb (x y : float) : bool := SFleb y x.

Definition NAN : float := S754_nan.
Definition zero : float := S754_zero false.

(** [std::isnan] *)
Definition isnan (x : float) : bool :=
  match x with S754_nan => true | _ => false end.

(** [std::isfinite] *)
Definition isfinite (x : float) : bool :=
  match x with S754_nan | S754_infinity _ => false | _ => true end.

(** [(float)i] for an integer [i]: round to nearest, ties to even. *)
Definition of_Z (i : Z) : float := binary_normalize prec emax i 0 false.

(** A decimal literal [n / d] with [n] and [d] exactly representable, such
    as [3.3f = 33 / 10]: the correctly rounded quotient. *)
Definition lit (n d : Z) : float := div (of_Z n) (of_Z d).

(** Conversion to an integer type: truncation toward zero.  Out-of-range
    and NaN conversions are undefined in C++; the model yields the
    truncated value, and 0 for NaN and the infinities. *)
Definition trunc (x : float) : Z :=
  match x with
  | S754_finite s m e =>
      let a := if 0 <=? e then Z.shiftl (Zpos m) e else Z.shiftr (Zpos m) (- e) in
      if s then - a else a
  | _ => 0
  end.

(** [std::min(a, b)]: [(b < a) ? b : a]. *)
Definition min (a b : float) : float := if ltb b a then b else a.

(** The macro [SQ(x)]. *)
Definition SQ (x : float) : float := mul x x.
End F32.

Infix "+!" := F32.add (at level 50, left associativity).
Infix "-!" := F32.sub (at level 50, left associativity).
Infix "*!" := F32.mul (at level 40, left associativity).
Infix "/!" := F32.div (at level 40, left associativity).

Definition wrap32 (z : Z) : Z := z mod 2 ^ 32.
Definition wrap16 (z : Z) : Z := z mod 2 ^ 16.

(** [(int)u] for a [uint32_t] [u] on a 32-bit two's complement target. *)
Definition int_of_uint32 (u : Z) : Z :=
  if u <? 2 ^ 31 then u else u - 2 ^ 32.

(* ------------------------------------------------------------------ *)
(** ** Error kinds and the sticky error bitmask *)

(** [ODriveIntf::MotorIntf::Error].  The enumeration is declared in the
    generated interface header; the kinds named in motor.cpp are listed,
    [ERROR_OTHER] stands for the kinds only other translation units use. *)
Inductive Error :=
| ERROR_NONE
| ERROR_PHASE_RESISTANCE_OUT_OF_RANGE
| ERROR_PHASE_INDUCTANCE_OUT_OF_RANGE
| ERROR_DRV_FAULT
| ERROR_CONTROL_DEADLINE_MISSED
| ERROR_CURRENT_SENSE_SATURATION
| ERROR_CURRENT_LIMIT_VIOLATION
| ERROR_TIMER_UPDATE_MISSED
| ERROR_CONTROLLER_FAILED
| ERROR_I_BUS_OUT_OF_RANGE
| ERROR_BRAKE_RESISTOR_DISARMED
| ERROR_UNKNOWN_VBUS_VOLTAGE
| ERROR_CONTROLLER_INITIALIZING
| ERROR_I_LEAK_OUT_OF_RANGE
| ERROR_OTHER (k : nat).

(** Modelled from the spec: the numeric values of the enumeration are not
    in motor.cpp; the spec calls [error_] a bitmask of error kinds, so every
    kind owns one bit and [ERROR_NONE] is the empty mask. *)
Definition Error_bit (e : Error) : Z :=
  match e with
  | ERROR_NONE => 0
  | ERROR_PHASE_RESISTANCE_OUT_OF_RANGE => 2 ^ 0
  | ERROR_PHASE_INDUCTANCE_OUT_OF_RANGE => 2 ^ 1
  | ERROR_DRV_FAULT => 2 ^ 2
  | ERROR_CONTROL_DEADLINE_MISSED => 2 ^ 3
  | ERROR_CURRENT_SENSE_SATURATION => 2 ^ 4
  | ERROR_CURRENT_LIMIT_VIOLATION => 2 ^ 5
  | ERROR_TIMER_UPDATE_MISSED => 2 ^ 6
  | ERROR_CONTROLLER_FAILED => 2 ^ 7
  | ERROR_I_BUS_OUT_OF_RANGE => 2 ^ 8
  | ERROR_BRAKE_RESISTOR_DISARMED => 2 ^ 9
  | ERROR_UNKNOWN_VBUS_VOLTAGE => 2 ^ 10
  | ERROR_CONTROLLER_INITIALIZING => 2 ^ 11
  | ERROR_I_LEAK_OUT_OF_RANGE => 2 ^ 12
  | ERROR_OTHER k => 2 ^ (13 + Z.of_nat k)
  end.

(** [a == b] and [a != b] on the enumeration compare the underlying values. *)
Definition Error_eqb (a b : Error) : bool := Error_bit a =? Error_bit b.

(* ------------------------------------------------------------------ *)
(** ** Data model *)

Record Iph_ABC_t := { phA : float; phB : float; phC : float }.

(** [PhaseControlLaw<3>::Result]: [std::variant<std::array<float, 3>, Error>]. *)
Inductive Result :=
| Timings (tA tB tC : float)      (* index() == 0 *)
| Failed (e : Error).             (* index() == 1 *)

(** [std::variant<std::tuple<float, float>, Error>] *)
Inductive AlphaBetaResult :=
| AlphaBeta (mod_alpha mod_beta : float)
| ABFailed (e : Error).

(** The fields of [Motor::Config_t] that motor.cpp's sensing, commit and
    measurement paths read or write. *)
Record Config_t := {
  phase_resistance : float;
  phase_inductance : float;
  current_lim_margin : float;
  dc_calib_tau : float;
  I_leak_max : float;
  I_bus_hard_min : float;
  I_bus_hard_max : float
}.

(** The registers of [TIM_TypeDef] that motor.cpp touches. *)
Inductive TimReg := R_CR1 | R_SR | R_BDTR | R_CCR1 | R_CCR2 | R_CCR3.

Record TIM_TypeDef := {
  CR1 : Z; SR : Z; BDTR : Z; CCR1 : Z; CCR2 : Z; CCR3 : Z
}.

Definition TIM_CR1_DIR : Z := 0x10.
Definition TIM_FLAG_UPDATE : Z := 0x1.
Definition TIM_BDTR_AOE : Z := 0x4000.
Definition TIM_BDTR_MOE : Z := 0x8000.

Definition reg_get (r : TimReg) (t : TIM_TypeDef) : Z :=
  match r with
  | R_CR1 => CR1 t | R_SR => SR t | R_BDTR => BDTR t
  | R_CCR1 => CCR1 t | R_CCR2 => CCR2 t | R_CCR3 => CCR3 t
  end.

Definition reg_set (r : TimReg) (v : Z) (t : TIM_TypeDef) : TIM_TypeDef :=
  match r with
  | R_CR1 => {| CR1 := v; SR := SR t; BDTR := BDTR t; CCR1 := CCR1 t; CCR2 := CCR2 t; CCR3 := CCR3 t |}
  | R_SR => {| CR1 := CR1 t; SR := v; BDTR := BDTR t; CCR1 := CCR1 t; CCR2 := CCR2 t; CCR3 := CCR3 t |}
  | R_BDTR => {| CR1 := CR1 t; SR := SR t; BDTR := v; CCR1 := CCR1 t; CCR2 := CCR2 t; CCR3 := CCR3 t |}
  | R_CCR1 => {| CR1 := CR1 t; SR := SR t; BDTR := BDTR t; CCR1 := v; CCR2 := CCR2 t; CCR3 := CCR3 t |}
  | R_CCR2 => {| CR1 := CR1 t; SR := SR t; BDTR := BDTR t; CCR1 := CCR1 t; CCR2 := v; CCR3 := CCR3 t |}
  | R_CCR3 => {| CR1 := CR1 t; SR := SR t; BDTR := BDTR t; CCR1 := CCR1 t; CCR2 := CCR2 t; CCR3 := v |}
  end.

(** [x & ~mask] on a 32-bit register. *)
Definition clear_bits (x mask : Z) : Z := Z.land x (Z.lxor 0xffffffff mask).

Inductive TimingLog_t :=
| TIMING_LOG_UPDATE_START | TIMING_LOG_CURRENT_MEAS
| TIMING_LOG_DC_CAL | TIMING_LOG_CTRL_DONE.

Inductive AxisState := AXIS_STATE_UNDEFINED | AXIS_STATE_REQUESTED (n : nat).

Definition AxisState_is_undefined (s : AxisState) : bool :=
  match s with AXIS_STATE_UNDEFINED => true | _ => false end.

(** Constants of the board support headers that motor.cpp uses but does not
    define. *)
Class Board := {
  TIM_1_8_CLOCK_HZ : Z;
  TIM_1_8_PERIOD_CLOCKS : Z;
  TIM_1_8_RCR : Z;
  CURRENT_SENSE_MIN_VOLT : float;
  CURRENT_SENSE_MAX_VOLT : float;
  current_meas_period : float
}.

(* ------------------------------------------------------------------ *)
(** ** The measurement control laws *)

(** The interface the two measurement laws implement: the alpha/beta side of
    [AlphaBetaFrameController].  [get_alpha_beta_output] may read the global
    [vbus_voltage], which is passed in. *)
Class AlphaBetaFrameController (T : Type) := {
  reset : T -> T;
  on_measurement : Board -> float -> float -> float -> Z -> T -> Error * T;
  get_alpha_beta_output : float -> Z -> T -> AlphaBetaResult * T
}.

Module ResistanceMeasurementCotnrolLaw.
Record t := {
  max_voltage_ : float;
  test_current_ : float;
  test_voltage_ : float;
  test_mod_ : float
}.

Definition kI : float := F32.of_Z 10.

(** The default member initialisers. *)
Definition init : t :=
  {| max_voltage_ := F32.zero; test_current_ := F32.zero;
     test_voltage_ := F32.zero; test_mod_ := F32.NAN |}.

Definition set_test_voltage_ (v : float) (s : t) : t :=
  {| max_voltage_ := max_voltage_ s; test_current_ := test_current_ s;
     test_voltage_ := v; test_mod_ := test_mod_ s |}.

Definition set_test_mod_ (v : float) (s : t) : t :=
  {| max_voltage_ := max_voltage_ s; test_current_ := test_current_ s;
     test_voltage_ := test_voltage_ s; test_mod_ := v |}.

Definition reset (s : t) : t :=
  set_test_mod_ F32.NAN (set_test_voltage_ F32.zero s).

Definition on_measurement (b : Board) (vbus_voltage Ialpha Ibeta : float)
    (input_timestamp : Z) (s : t) : Error * t :=
  let s := set_test_voltage_
             (test_voltage_ s +!
              (kI *! @current_meas_period b) *! (test_current_ s -! Ialpha)) s in
  if F32.gtb (F32.abs (test_voltage_ s)) (max_voltage_ s) then
    (ERROR_PHASE_RESISTANCE_OUT_OF_RANGE, set_test_voltage_ F32.NAN s)
  else if F32.isnan vbus_voltage then
    (ERROR_UNKNOWN_VBUS_VOLTAGE, s)
  else
    let vfactor := F32.of_Z 1 /! ((F32.of_Z 2 /! F32.of_Z 3) *! vbus_voltage) in
    (ERROR_NONE, set_test_mod_ (test_voltage_ s *! vfactor) s).

Definition get_alpha_beta_output (output_timestamp : Z) (s : t)
    : AlphaBetaResult * t :=
  if F32.isnan (test_mod_ s) then (ABFailed ERROR_CONTROLLER_INITIALIZING, s)
  else (AlphaBeta (test_mod_ s) F32.zero, s).

Definition get_resistance (s : t) : float :=
  test_voltage_ s /! test_current_ s.
End ResistanceMeasurementCotnrolLaw.

Module InductanceMeasurementCotnrolLaw.
Record t := {
  test_voltage_ : float;
  attached_ : bool;
  sign_ : float;
  start_timestamp_ : Z;
  last_Ialpha_ : float;
  last_input_timestamp_ : Z;
  deltaI_ : float
}.

Definition init : t :=
  {| test_voltage_ := F32.zero; attached_ := false; sign_ := F32.zero;
     start_timestamp_ := 0; last_Ialpha_ := F32.NAN;
     last_input_timestamp_ := 0; deltaI_ := F32.zero |}.

Definition set_test_voltage_ (v : float) (s : t) : t :=
  {| test_voltage_ := v; attached_ := attached_ s; sign_ := sign_ s;
     start_timestamp_ := start_timestamp_ s; last_Ialpha_ := last_Ialpha_ s;
     last_input_timestamp_ := last_input_timestamp_ s; deltaI_ := deltaI_ s |}.

Definition set_attached_ (v : bool) (s : t) : t :=
  {| test_voltage_ := test_voltage_ s; attached_ := v; sign_ := sign_ s;
     start_timestamp_ := start_timestamp_ s; last_Ialpha_ := last_Ialpha_ s;
     last_input_timestamp_ := last_input_timestamp_ s; deltaI_ := deltaI_ s |}.

Definition set_start_timestamp_ (v : Z) (s : t) : t :=
  {| test_voltage_ := test_voltage_ s; attached_ := attached_ s; sign_ := sign_ s;
     start_timestamp_ := v; last_Ialpha_ := last_Ialpha_ s;
     last_input_timestamp_ := last_input_timestamp_ s; deltaI_ := deltaI_ s |}.

Definition set_last_Ialpha_ (v : float) (s : t) : t :=
  {| test_voltage_ := test_voltage_ s; attached_ := attached_ s; sign_ := sign_ s;
     start_timestamp_ := start_timestamp_ s; last_Ialpha_ := v;
     last_input_timestamp_ := last_input_timestamp_ s; deltaI_ := deltaI_ s |}.

Definition set_last_input_timestamp_ (v : Z) (s : t) : t :=
  {| test_voltage_ := test_voltage_ s; attached_ := attached_ s; sign_ := sign_ s;
     start_timestamp_ := start_timestamp_ s; last_Ialpha_ := last_Ialpha_ s;
     last_input_timestamp_ := v; deltaI_ := deltaI_ s |}.

Definition set_deltaI_ (v : float) (s : t) : t :=
  {| test_voltage_ := test_voltage_ s; attached_ := attached_ s; sign_ := sign_ s;
     start_timestamp_ := start_timestamp_ s; last_Ialpha_ := last_Ialpha_ s;
     last_input_timestamp_ := last_input_timestamp_ s; deltaI_ := v |}.

Definition reset (s : t) : t := set_attached_ false s.

Definition on_measurement (b : Board) (vbus_voltage Ialpha Ibeta : float)
    (input_timestamp : Z) (s : t) : Error * t :=
  if F32.isnan Ialpha || F32.isnan vbus_voltage then
    (ERROR_UNKNOWN_VBUS_VOLTAGE, s)
  else
    let s :=
      if attached_ s then
        let sign := if F32.geb (test_voltage_ s) F32.zero
                    then F32.of_Z 1 else F32.of_Z (-1) in
        set_deltaI_ (deltaI_ s +! F32.neg sign *! (Ialpha -! last_Ialpha_ s)) s
      else
        set_attached_ true (set_start_timestamp_ input_timestamp s) in
    let s := set_last_Ialpha_ Ialpha s in
    let s := set_last_input_timestamp_ input_timestamp s in
    (ERROR_NONE, s).

Definition get_alpha_beta_output (vbus_voltage : float) (output_timestamp : Z)
    (s : t) : AlphaBetaResult * t :=
  let s := set_test_voltage_ (test_voltage_ s *! F32.of_Z (-1)) s in
  let vfactor := F32.of_Z 1 /! ((F32.of_Z 2 /! F32.of_Z 3) *! vbus_voltage) in
  (AlphaBeta (test_voltage_ s *! vfactor) F32.zero, s).

Definition get_inductance (b : Board) (s : t) : float :=
  let dt := F32.of_Z (wrap32 (last_input_timestamp_ s - start_timestamp_ s))
            /! F32.of_Z (@TIM_1_8_CLOCK_HZ b) in
  F32.abs (test_voltage_ s) /! (deltaI_ s /! dt).
End InductanceMeasurementCotnrolLaw.

Module RLaw := ResistanceMeasurementCotnrolLaw.
Module LLaw := InductanceMeasurementCotnrolLaw.

#[export] Instance RLaw_controller : AlphaBetaFrameController RLaw.t := {|
  reset := RLaw.reset;
  on_measurement := RLaw.on_measurement;
  get_alpha_beta_output := fun _ => RLaw.get_alpha_beta_output
|}.

#[export] Instance LLaw_controller : AlphaBetaFrameController LLaw.t := {|
  reset := LLaw.reset;
  on_measurement := LLaw.on_measurement;
  get_alpha_beta_output := LLaw.get_alpha_beta_output
|}.

(** Collaborators declared in other translation units: the phase-frame side
    of [AlphaBetaFrameController] (the transform in front of
    [on_measurement] and the modulation behind [get_alpha_beta_output]) and
    the production control law an axis may install. *)
Class External := {
  clarke : Iph_ABC_t -> float * float;
  svm : float -> float -> Result;
  ExternalLaw : Type;
  ext_reset : ExternalLaw -> ExternalLaw;
  ext_on_measurement : float -> Iph_ABC_t -> Z -> ExternalLaw -> Error * ExternalLaw;
  ext_get_output : Z -> ExternalLaw -> Result * ExternalLaw
}.

(* ------------------------------------------------------------------ *)
(** ** The motor object and the world it runs in *)

Definition set_phase_resistance (v : float) (c : Config_t) : Config_t :=
  {| phase_resistance := v; phase_inductance := phase_inductance c;
     current_lim_margin := current_lim_margin c; dc_calib_tau := dc_calib_tau c;
     I_leak_max := I_leak_max c; I_bus_hard_min := I_bus_hard_min c;
     I_bus_hard_max := I_bus_hard_max c |}.

Definition set_phase_inductance (v : float) (c : Config_t) : Config_t :=
  {| phase_resistance := phase_resistance c; phase_inductance := v;
     current_lim_margin := current_lim_margin c; dc_calib_tau := dc_calib_tau c;
     I_leak_max := I_leak_max c; I_bus_hard_min := I_bus_hard_min c;
     I_bus_hard_max := I_bus_hard_max c |}.

(** [control_law_] is a non-owning pointer.  The motor references at most one
    control-law object at a time, so the model keeps one storage cell for the
    object of the caller ([law] in [World]) and the pointer is either null
    ([None]) or the address of that cell. *)
Inductive LawRef := law_cell.

Record Motor := {
  is_armed_ : bool;
  control_law_ : option LawRef;
  error_ : Z;
  config_ : Config_t;
  DC_calib_ : Iph_ABC_t;
  dc_calib_running_since_ : float;
  current_meas_ : Iph_ABC_t;
  I_leak_ : float;
  I_bus_ : float;
  effective_current_lim_ : float;
  max_dc_calib_ : float;
  phase_current_rev_gain_ : float;
  shunt_conductance_ : float;
  current_sensor_mask_ : Z;
  counting_down_ : bool;
  last_update_timestamp_ : Z
}.

Definition set_is_armed_ (v : bool) (m : Motor) : Motor :=
  {| is_armed_ := v; control_law_ := control_law_ m; error_ := error_ m;
     config_ := config_ m; DC_calib_ := DC_calib_ m;
     dc_calib_running_since_ := dc_calib_running_since_ m;
     current_meas_ := current_meas_ m; I_leak_ := I_leak_ m; I_bus_ := I_bus_ m;
     effective_current_lim_ := effective_current_lim_ m;
     max_dc_calib_ := max_dc_calib_ m;
     phase_current_rev_gain_ := phase_current_rev_gain_ m;
     shunt_conductance_ := shunt_conductance_ m;
     current_sensor_mask_ := current_sensor_mask_ m;
     counting_down_ := counting_down_ m;
     last_update_timestamp_ := last_update_timestamp_ m |}.

Definition set_control_law_ (v : option LawRef) (m : Motor) : Motor :=
  {| is_armed_ := is_armed_ m; control_law_ := v; error_ := error_ m;
     config_ := config_ m; DC_calib_ := DC_calib_ m;
     dc_calib_running_since_ := dc_calib_running_since_ m;
     current_meas_ := current_meas_ m; I_leak_ := I_leak_ m; I_bus_ := I_bus_ m;
     effective_current_lim_ := effective_current_lim_ m;
     max_dc_calib_ := max_dc_calib_ m;
     phase_current_rev_gain_ := phase_current_rev_gain_ m;
     shunt_conductance_ := shunt_conductance_ m;
     current_sensor_mask_ := current_sensor_mask_ m;
     counting_down_ := counting_down_ m;
     last_update_timestamp_ := last_update_timestamp_ m |}.

Definition set_error_ (v : Z) (m : Motor) : Motor :=
  {| is_armed_ := is_armed_ m; control_law_ := control_law_ m; error_ := v;
     config_ := config_ m; DC_calib_ := DC_calib_ m;
     dc_calib_running_since_ := dc_calib_running_since_ m;
     current_meas_ := current_meas_ m; I_leak_ := I_leak_ m; I_bus_ := I_bus_ m;
     effective_current_lim_ := effective_current_lim_ m;
     max_dc_calib_ := max_dc_calib_ m;
     phase_current_rev_gain_ := phase_current_rev_gain_ m;
     shunt_conductance_ := shunt_conductance_ m;
     current_sensor_mask_ := current_sensor_mask_ m;
     counting_down_ := counting_down_ m;
     last_update_timestamp_ := last_update_timestamp_ m |}.

Definition set_config_ (v : Config_t) (m : Motor) : Motor :=
  {| is_armed_ := is_armed_ m; control_law_ := control_law_ m; error_ := error_ m;
     config_ := v; DC_calib_ := DC_calib_ m;
     dc_calib_running_since_ := dc_calib_running_since_ m;
     current_meas_ := current_meas_ m; I_leak_ := I_leak_ m; I_bus_ := I_bus_ m;
     effective_current_lim_ := effective_current_lim_ m;
     max_dc_calib_ := max_dc_calib_ m;
     phase_current_rev_gain_ := phase_current_rev_gain_ m;
     shunt_conductance_ := shunt_conductance_ m;
     current_sensor_mask_ := current_sensor_mask_ m;
     counting_down_ := counting_down_ m;
     last_update_timestamp_ := last_update_timestamp_ m |}.

Definition set_DC_calib_ (v : Iph_ABC_t) (m : Motor) : Motor :=
  {| is_armed_ := is_armed_ m; control_law_ := control_law_ m; error_ := error_ m;
     config_ := config_ m; DC_calib_ := v;
     dc_calib_running_since_ := dc_calib_running_since_ m;
     current_meas_ := current_meas_ m; I_leak_ := I_leak_ m; I_bus_ := I_bus_ m;
     effective_current_lim_ := effective_current_lim_ m;
     max_dc_calib_ := max_dc_calib_ m;
     phase_current_rev_gain_ := phase_current_rev_gain_ m;
     shunt_conductance_ := shunt_conductance_ m;
     current_sensor_mask_ := current_sensor_mask_ m;
     counting_down_ := counting_down_ m;
     last_update_timestamp_ := last_update_timestamp_ m |}.

Definition set_dc_calib_running_since_ (v : float) (m : Motor) : Motor :=
  {| is_armed_ := is_armed_ m; control_law_ := control_law_ m; error_ := error_ m;
     config_ := config_ m; DC_calib_ := DC_calib_ m; dc_calib_running_since_ := v;
     current_meas_ := current_meas_ m; I_leak_ := I_leak_ m; I_bus_ := I_bus_ m;
     effective_current_lim_ := effective_current_lim_ m;
     max_dc_calib_ := max_dc_calib_ m;
     phase_current_rev_gain_ := phase_current_rev_gain_ m;
     shunt_conductance_ := shunt_conductance_ m;
     current_sensor_mask_ := current_sensor_mask_ m;
     counting_down_ := counting_down_ m;
     last_update_timestamp_ := last_update_timestamp_ m |}.

Definition set_current_meas_ (v : Iph_ABC_t) (m : Motor) : Motor :=
  {| is_armed_ := is_armed_ m; control_law_ := control_law_ m; error_ := error_ m;
     config_ := config_ m; DC_calib_ := DC_calib_ m;
     dc_calib_running_since_ := dc_calib_running_since_ m; current_meas_ := v;
     I_leak_ := I_leak_ m; I_bus_ := I_bus_ m;
     effective_current_lim_ := effective_current_lim_ m;
     max_dc_calib_ := max_dc_calib_ m;
     phase_current_rev_gain_ := phase_current_rev_gain_ m;
     shunt_conductance_ := shunt_conductance_ m;
     current_sensor_mask_ := current_sensor_mask_ m;
     counting_down_ := counting_down_ m;
     last_update_timestamp_ := last_update_timestamp_ m |}.

Definition set_I_leak_ (v : float) (m : Motor) : Motor :=
  {| is_armed_ := is_armed_ m; control_law_ := control_law_ m; error_ := error_ m;
     config_ := config_ m; DC_calib_ := DC_calib_ m;
     dc_calib_running_since_ := dc_calib_running_since_ m;
     current_meas_ := current_meas_ m; I_leak_ := v; I_bus_ := I_bus_ m;
     effective_current_lim_ := effective_current_lim_ m;
     max_dc_calib_ := max_dc_calib_ m;
     phase_current_rev_gain_ := phase_current_rev_gain_ m;
     shunt_conductance_ := shunt_conductance_ m;
     current_sensor_mask_ := current_sensor_mask_ m;
     counting_down_ := counting_down_ m;
     last_update_timestamp_ := last_update_timestamp_ m |}.

Definition set_I_bus_ (v : float) (m : Motor) : Motor :=
  {| is_armed_ := is_armed_ m; control_law_ := control_law_ m; error_ := error_ m;
     config_ := config_ m; DC_calib_ := DC_calib_ m;
     dc_calib_running_since_ := dc_calib_running_since_ m;
     current_meas_ := current_meas_ m; I_leak_ := I_leak_ m; I_bus_ := v;
     effective_current_lim_ := effective_current_lim_ m;
     max_dc_calib_ := max_dc_calib_ m;
     phase_current_rev_gain_ := phase_current_rev_gain_ m;
     shunt_conductance_ := shunt_conductance_ m;
     current_sensor_mask_ := current_sensor_mask_ m;
     counting_down_ := counting_down_ m;
     last_update_timestamp_ := last_update_timestamp_ m |}.

Definition set_counting_down_ (v : bool) (m : Motor) : Motor :=
  {| is_armed_ := is_armed_ m; control_law_ := control_law_ m; error_ := error_ m;
     config_ := config_ m; DC_calib_ := DC_calib_ m;
     dc_calib_running_since_ := dc_calib_running_since_ m;
     current_meas_ := current_meas_ m; I_leak_ := I_leak_ m; I_bus_ := I_bus_ m;
     effective_current_lim_ := effective_current_lim_ m;
     max_dc_calib_ := max_dc_calib_ m;
     phase_current_rev_gain_ := phase_current_rev_gain_ m;
     shunt_conductance_ := shunt_conductance_ m;
     current_sensor_mask_ := current_sensor_mask_ m; counting_down_ := v;
     last_update_timestamp_ := last_update_timestamp_ m |}.

Definition set_last_update_timestamp_ (v : Z) (m : Motor) : Motor :=
  {| is_armed_ := is_armed_ m; control_law_ := control_law_ m; error_ := error_ m;
     config_ := config_ m; DC_calib_ := DC_calib_ m;
     dc_calib_running_since_ := dc_calib_running_since_ m;
     current_meas_ := current_meas_ m; I_leak_ := I_leak_ m; I_bus_ := I_bus_ m;
     effective_current_lim_ := effective_current_lim_ m;
     max_dc_calib_ := max_dc_calib_ m;
     phase_current_rev_gain_ := phase_current_rev_gain_ m;
     shunt_conductance_ := shunt_conductance_ m;
     current_sensor_mask_ := current_sensor_mask_ m;
     counting_down_ := counting_down_ m; last_update_timestamp_ := v |}.

(** Volatile register accesses and calls that leave motor.cpp, in program
    order. *)
Inductive Event :=
| EvCriticalEnter
| EvCriticalExit
| EvRead (r : TimReg) (v : Z)
| EvWrite (r : TimReg) (v : Z)
| EvGateDriverSetEnabled (enabled : bool)
| EvGateDriverDoChecks
| EvControllerReset
| EvUpdateBrakeCurrent
| EvDoFastChecks
| EvLogTiming (slot : TimingLog_t)
| EvOsDelay (ms : Z)
| EvLawReset
| EvLawOnMeasurement (vbus : float) (current : Iph_ABC_t) (timestamp : Z)
| EvLawGetOutput (timestamp : Z).

Section MotorControl.

Context {board : Board} {ext : External}.

(** The objects a [PhaseControlLaw<3>*] can point to. *)
Inductive ControlLaw :=
| ResistanceLaw (s : RLaw.t)
| InductanceLaw (s : LLaw.t)
| OtherLaw (s : ExternalLaw).

Record World := {
  motor : Motor;
  tim : TIM_TypeDef;                (* timer_->Instance *)
  law : ControlLaw;                 (* the object [control_law_] points to *)
  brake_resistor_armed : bool;      (* global *)
  vbus_voltage : float;             (* global *)
  requested_state_ : AxisState;     (* axis_->requested_state_ *)
  rotor_flux_ : float;              (* axis_->async_estimator_.rotor_flux_ *)
  gate_driver_ready : bool;         (* what gate_driver_.is_ready() answers *)
  fast_checks_fault : bool;         (* whether odrv.do_fast_checks() trips *)
  trace : list Event
}.

Definition set_motor (v : Motor) (w : World) : World :=
  {| motor := v; tim := tim w; law := law w;
     brake_resistor_armed := brake_resistor_armed w; vbus_voltage := vbus_voltage w;
     requested_state_ := requested_state_ w; rotor_flux_ := rotor_flux_ w;
     gate_driver_ready := gate_driver_ready w;
     fast_checks_fault := fast_checks_fault w; trace := trace w |}.

Definition set_tim (v : TIM_TypeDef) (w : World) : World :=
  {| motor := motor w; tim := v; law := law w;
     brake_resistor_armed := brake_resistor_armed w; vbus_voltage := vbus_voltage w;
     requested_state_ := requested_state_ w; rotor_flux_ := rotor_flux_ w;
     gate_driver_ready := gate_driver_ready w;
     fast_checks_fault := fast_checks_fault w; trace := trace w |}.

Definition set_law (v : ControlLaw) (w : World) : World :=
  {| motor := motor w; tim := tim w; law := v;
     brake_resistor_armed := brake_resistor_armed w; vbus_voltage := vbus_voltage w;
     requested_state_ := requested_state_ w; rotor_flux_ := rotor_flux_ w;
     gate_driver_ready := gate_driver_ready w;
     fast_checks_fault := fast_checks_fault w; trace := trace w |}.

Definition set_brake_resistor_armed (v : bool) (w : World) : World :=
  {| motor := motor w; tim := tim w; law := law w; brake_resistor_armed := v;
     vbus_voltage := vbus_voltage w; requested_state_ := requested_state_ w;
     rotor_flux_ := rotor_flux_ w; gate_driver_ready := gate_driver_ready w;
     fast_checks_fault := fast_checks_fault w; trace := trace w |}.

Definition set_requested_state_ (v : AxisState) (w : World) : World :=
  {| motor := motor w; tim := tim w; law := law w;
     brake_resistor_armed := brake_resistor_armed w; vbus_voltage := vbus_voltage w;
     requested_state_ := v; rotor_flux_ := rotor_flux_ w;
     gate_driver_ready := gate_driver_ready w;
     fast_checks_fault := fast_checks_fault w; trace := trace w |}.

Definition set_rotor_flux_ (v : float) (w : World) : World :=
  {| motor := motor w; tim := tim w; law := law w;
     brake_resistor_armed := brake_resistor_armed w; vbus_voltage := vbus_voltage w;
     requested_state_ := requested_state_ w; rotor_flux_ := v;
     gate_driver_ready := gate_driver_ready w;
     fast_checks_fault := fast_checks_fault w; trace := trace w |}.

Definition set_trace (v : list Event) (w : World) : World :=
  {| motor := motor w; tim := tim w; law := law w;
     brake_resistor_armed := brake_resistor_armed w; vbus_voltage := vbus_voltage w;
     requested_state_ := requested_state_ w; rotor_flux_ := rotor_flux_ w;
     gate_driver_ready := gate_driver_ready w;
     fast_checks_fault := fast_checks_fault w; trace := v |}.

(* ------------------------------------------------------------------ *)
(** ** A state monad over [World] *)

Definition M (A : Type) : Type := World -> A * World.

Definition ret {A} (a : A) : M A := fun w => (a, w).

Definition bind {A B} (m : M A) (k : A -> M B) : M B :=
  fun w => let (a, w') := m w in k a w'.

Notation "x <- m ;; k" := (bind m (fun x => k))
  (at level 61, m at next level, right associativity).
Notation "m ;; k" := (bind m (fun _ => k))
  (at level 61, right associativity).

Definition gets {A} (f : World -> A) : M A := fun w => (f w, w).
Definition modify (f : World -> World) : M unit := fun w => (tt, f w).
Definition when (c : bool) (m : M unit) : M unit := if c then m else ret tt.

Definition exec {A} (m : M A) (w : World) : World := snd (m w).
Definition retval {A} (m : M A) (w : World) : A := fst (m w).

Definition emit (e : Event) : M unit :=
  modify (fun w => set_trace (trace w ++ [e]) w).

Definition modify_motor (f : Motor -> Motor) : M unit :=
  modify (fun w => set_motor (f (motor w)) w).

(** A volatile read of a timer register. *)
Definition tim_read (r : TimReg) : M Z :=
  v <- gets (fun w => reg_get r (tim w)) ;;
  emit (EvRead r v) ;;
  ret v.

(** A volatile write of a timer register. *)
Definition tim_write (r : TimReg) (v : Z) : M unit :=
  modify (fun w => set_tim (reg_set r v (tim w)) w) ;;
  emit (EvWrite r v).

(** [CRITICAL_SECTION() { body }]: interrupts are masked around [body]. *)
Definition CRITICAL_SECTION {A} (body : M A) : M A :=
  emit EvCriticalEnter ;;
  a <- body ;;
  emit EvCriticalExit ;;
  ret a.

(** Modelled from the spec: [update_brake_current()] is defined with the
    brake-resistor subsystem; it recomputes the bus-current-dependent state of
    that consumer, which is outside the motor object. *)
Definition update_brake_current : M unit := emit EvUpdateBrakeCurrent.

(** [__HAL_TIM_GET_FLAG(htim, flag)] *)
Definition HAL_TIM_GET_FLAG (flag : Z) : M bool :=
  sr <- tim_read R_SR ;;
  ret (Z.land sr flag =? flag).

(** [__HAL_TIM_MOE_DISABLE_UNCONDITIONALLY(htim)] *)
Definition HAL_TIM_MOE_DISABLE_UNCONDITIONALLY : M unit :=
  bdtr <- tim_read R_BDTR ;;
  tim_write R_BDTR (clear_bits bdtr TIM_BDTR_MOE).

(* ------------------------------------------------------------------ *)
(** ** Virtual calls through [control_law_] *)

(** Modelled from the spec: [AlphaBetaFrameController] (defined in another
    translation unit) delivers to [on_measurement] the bus voltage, the
    timestamp and the two-phase transform of the phase currents, and turns
    the pair returned by [get_alpha_beta_output] into phase timings, passing
    an error kind through. *)
Definition frame_on_measurement {T} `{AlphaBetaFrameController T}
    (vbus : float) (currents : Iph_ABC_t) (input_timestamp : Z) (s : T) : Error * T :=
  let (Ialpha, Ibeta) := clarke currents in
  on_measurement board vbus Ialpha Ibeta input_timestamp s.

Definition frame_get_output {T} `{AlphaBetaFrameController T}
    (vbus_global : float) (output_timestamp : Z) (s : T) : Result * T :=
  match get_alpha_beta_output vbus_global output_timestamp s with
  | (AlphaBeta mod_alpha mod_beta, s') => (svm mod_alpha mod_beta, s')
  | (ABFailed e, s') => (Failed e, s')
  end.

(** [control_law_->reset()] *)
Definition law_reset : M unit :=
  emit EvLawReset ;;
  modify (fun w =>
    set_law match law w with
            | ResistanceLaw s => ResistanceLaw (reset s)
            | InductanceLaw s => InductanceLaw (reset s)
            | OtherLaw s => OtherLaw (ext_reset s)
            end w).

Definition with_law {A} (f : ControlLaw -> A * ControlLaw) : M A :=
  fun w => let (a, l) := f (law w) in (a, set_law l w).

(** [control_law_->on_measurement(vbus, currents, timestamp)] *)
Definition law_on_measurement (vbus : float) (currents : Iph_ABC_t)
    (input_timestamp : Z) : M Error :=
  emit (EvLawOnMeasurement vbus currents input_timestamp) ;;
  with_law (fun l =>
    match l with
    | ResistanceLaw s =>
        let (e, s') := frame_on_measurement vbus currents input_timestamp s in
        (e, ResistanceLaw s')
    | InductanceLaw s =>
        let (e, s') := frame_on_measurement vbus currents input_timestamp s in
        (e, InductanceLaw s')
    | OtherLaw s =>
        let (e, s') := ext_on_measurement vbus currents input_timestamp s in
        (e, OtherLaw s')
    end).

(** [control_law_->get_output(timestamp)] *)
Definition law_get_output (output_timestamp : Z) : M Result :=
  emit (EvLawGetOutput output_timestamp) ;;
  vbus <- gets vbus_voltage ;;
  with_law (fun l =>
    match l with
    | ResistanceLaw s =>
        let (r, s') := frame_get_output vbus output_timestamp s in
        (r, ResistanceLaw s')
    | InductanceLaw s =>
        let (r, s') := frame_get_output vbus output_timestamp s in
        (r, InductanceLaw s')
    | OtherLaw s =>
        let (r, s') := ext_get_output output_timestamp s in
        (r, OtherLaw s')
    end).

(* ------------------------------------------------------------------ *)
(** ** Arm, disarm and the PWM commit protocol *)

(** A [bool*] argument: null, the address of a variable of the caller, or
    the address of the callee's local [dummy]. *)
Inductive BoolPtr := nullptr | addr_of_caller_var | addr_of_dummy.

(** Conversion of a pointer to [bool]. *)
Definition ptr_to_bool (p : BoolPtr) : bool :=
  match p with nullptr => false | _ => true end.

(** [bool Motor::disarm(bool* was_armed)].  The second component of the
    result is what the call stored in the caller's variable, if it was given
    one. *)
Definition disarm (was_armed : BoolPtr) : M (bool * option bool) :=
  let was_armed := if ptr_to_bool was_armed then was_armed else addr_of_dummy in
  stored <- CRITICAL_SECTION (
    stored <- gets (fun w => is_armed_ (motor w)) ;;   (* *was_armed = is_armed_ *)
    armed <- gets (fun w => is_armed_ (motor w)) ;;
    when armed (emit (EvGateDriverSetEnabled false)) ;;
    modify_motor (set_is_armed_ false) ;;
    bdtr <- tim_read R_BDTR ;;
    tim_write R_BDTR (clear_bits bdtr TIM_BDTR_AOE) ;;
    HAL_TIM_MOE_DISABLE_UNCONDITIONALLY ;;
    modify_motor (set_control_law_ None) ;;
    ret stored) ;;
  (* Check necessary to prevent infinite recursion *)
  when (ptr_to_bool was_armed) update_brake_current ;;
  ret (true, match was_armed with
             | addr_of_caller_var => Some stored
             | _ => None
             end).

(** [void Motor::disarm_with_error(Motor::Error error)] *)
Definition disarm_with_error (error : Error) : M unit :=
  modify_motor (fun m => set_error_ (Z.lor (error_ m) (Error_bit error)) m) ;;
  disarm nullptr ;;
  update_brake_current.

(** [bool Motor::arm(PhaseControlLaw<3>* control_law)] *)
Definition arm (control_law : option LawRef) : M bool :=
  CRITICAL_SECTION (
    modify_motor (set_control_law_ control_law) ;;
    emit EvControllerReset ;;
    modify (set_rotor_flux_ F32.zero) ;;
    p <- gets (fun w => control_law_ (motor w)) ;;
    match p with Some _ => law_reset | None => ret tt end ;;
    bra <- gets brake_resistor_armed ;;
    when bra (modify_motor (set_is_armed_ true))) ;;
  ret true.

(** [void Motor::apply_pwm_timings(uint16_t timings[3], bool tentative)] *)
Definition apply_pwm_timings (timings : Z * Z * Z) (tentative : bool) : M unit :=
  let '(t0, t1, t2) := timings in
  CRITICAL_SECTION (
    bra <- gets brake_resistor_armed ;;
    when (negb bra) (disarm_with_error ERROR_BRAKE_RESISTOR_DISARMED) ;;
    tim_write R_CCR1 t0 ;;
    tim_write R_CCR2 t1 ;;
    tim_write R_CCR3 t2 ;;
    when (negb tentative) (
      armed <- gets (fun w => is_armed_ (motor w)) ;;
      when armed (
        bdtr <- tim_read R_BDTR ;;
        tim_write R_BDTR (Z.lor bdtr TIM_BDTR_AOE))) ;;
    latched <- HAL_TIM_GET_FLAG TIM_FLAG_UPDATE ;;
    when latched (disarm_with_error ERROR_CONTROL_DEADLINE_MISSED)).

(** [bool Motor::do_checks(uint32_t timestamp)] *)
Definition do_checks (timestamp : Z) : M bool :=
  emit EvGateDriverDoChecks ;;
  ready <- gets gate_driver_ready ;;
  if negb ready then
    disarm_with_error ERROR_DRV_FAULT ;;
    ret false
  else ret true.

(** [void Motor::log_timing(TimingLog_t log_idx)]: only the timing log is
    written, which nothing else in this file reads. *)
Definition log_timing (log_idx : TimingLog_t) : M unit := emit (EvLogTiming log_idx).

(** [float Motor::phase_current_from_adcval(uint32_t ADCValue)] *)
Definition phase_current_from_adcval (m : Motor) (ADCValue : Z) : float :=
  let adcval_bal := int_of_uint32 ADCValue - 2 ^ 11 in
  let amp_out_volt := (F32.lit 33 10 /! F32.of_Z (2 ^ 12)) *! F32.of_Z adcval_bal in
  let shunt_volt := amp_out_volt *! phase_current_rev_gain_ m in
  let current := shunt_volt *! shunt_conductance_ m in
  current.

Definition CURRENT_ADC_LOWER_BOUND : Z :=
  wrap32 (F32.trunc (F32.of_Z (2 ^ 12) *! CURRENT_SENSE_MIN_VOLT /! F32.lit 33 10)).

Definition CURRENT_ADC_UPPER_BOUND : Z :=
  wrap32 (F32.trunc (F32.of_Z (2 ^ 12) *! CURRENT_SENSE_MAX_VOLT /! F32.lit 33 10)).

(* ------------------------------------------------------------------ *)
(** ** The timer-update interrupt handler *)

Definition ADC_UNAVAILABLE : Z := 0xffffffff.

(** One of the three range checks on a raw sample: returns the sample, or
    the sentinel after disarming when it is outside the window. *)
Definition check_adc_range (adc : Z) : M Z :=
  if negb (adc =? ADC_UNAVAILABLE)
     && ((adc <? CURRENT_ADC_LOWER_BOUND) || (adc >? CURRENT_ADC_UPPER_BOUND))
  then
    disarm_with_error ERROR_CURRENT_SENSE_SATURATION ;;
    ret ADC_UNAVAILABLE
  else ret adc.

(** [switch (current_sensor_mask_)] *)
Definition infer_missing_current (mask : Z) (current : Iph_ABC_t) : Iph_ABC_t :=
  if mask =? 6 (* 0b110 *) then
    {| phA := F32.neg (phB current +! phC current);
       phB := phB current; phC := phC current |}
  else if mask =? 5 (* 0b101 *) then
    {| phA := phA current;
       phB := F32.neg (phC current +! phA current); phC := phC current |}
  else if mask =? 3 (* 0b011 *) then
    {| phA := phA current; phB := phB current;
       phC := F32.neg (phA current +! phB current) |}
  else current.

Definition adc_to_current (m : Motor) (adc : Z) : float :=
  if negb (adc =? ADC_UNAVAILABLE) then phase_current_from_adcval m adc else F32.NAN.

(** Range checks, conversion and reconstruction: the measured [current] and
    [current_valid]. *)
Definition sense_current (adc_a adc_b adc_c : Z) : M (Iph_ABC_t * bool) :=
  adc_a <- check_adc_range adc_a ;;
  adc_b <- check_adc_range adc_b ;;
  adc_c <- check_adc_range adc_c ;;
  m <- gets motor ;;
  let current := {| phA := adc_to_current m adc_a;
                    phB := adc_to_current m adc_b;
                    phC := adc_to_current m adc_c |} in
  let current := infer_missing_current (current_sensor_mask_ m) current in
  let current_valid := negb (F32.isnan (phA current))
                       && negb (F32.isnan (phB current))
                       && negb (F32.isnan (phC current)) in
  log_timing TIMING_LOG_CURRENT_MEAS ;;
  ret (current, current_valid).

Definition interrupt_period : float :=
  F32.of_Z (TIM_1_8_PERIOD_CLOCKS * (TIM_1_8_RCR + 1)) /! F32.of_Z TIM_1_8_CLOCK_HZ.

Definition dc_calib_period : float := F32.of_Z 2 *! interrupt_period.

Definition calib_filter_k (c : Config_t) : float :=
  F32.min (dc_calib_period /! dc_calib_tau c) (F32.of_Z 1).

(** The body of [if (was_current_dc_calib)]. *)
Definition dc_calib_step (current : Iph_ABC_t) (current_valid : bool) : M unit :=
  (if current_valid then
     modify_motor (fun m =>
       let k := calib_filter_k (config_ m) in
       let dc := DC_calib_ m in
       let dc := {| phA := phA dc +! (phA current -! phA dc) *! k;
                    phB := phB dc +! (phB current -! phB dc) *! k;
                    phC := phC dc +! (phC current -! phC dc) *! k |} in
       set_dc_calib_running_since_ (dc_calib_running_since_ m +! dc_calib_period)
         (set_DC_calib_ dc m))
   else
     modify_motor (fun m =>
       set_dc_calib_running_since_ F32.zero
         (set_DC_calib_ {| phA := F32.zero; phB := F32.zero; phC := F32.zero |} m))) ;;
  log_timing TIMING_LOG_DC_CAL.

(** Modelled from the spec: [odrv.do_fast_checks()] is the system-level
    safety hook; it takes no argument and may request a disarm as a side
    effect. *)
Definition do_fast_checks : M unit :=
  emit EvDoFastChecks ;;
  fault <- gets fast_checks_fault ;;
  when fault (disarm nullptr ;; ret tt).

Definition dc_calib_valid (m : Motor) : bool :=
  F32.geb (dc_calib_running_since_ m) (dc_calib_tau (config_ m) *! F32.lit 15 2)
  && F32.ltb (F32.abs (phA (DC_calib_ m))) (max_dc_calib_ m)
  && F32.ltb (F32.abs (phB (DC_calib_ m))) (max_dc_calib_ m)
  && F32.ltb (F32.abs (phC (DC_calib_ m))) (max_dc_calib_ m).

(** The body of [if (was_current_sense)]. *)
Definition current_sense_step (current : Iph_ABC_t) (current_valid : bool) : M unit :=
  modify_motor (fun m =>
    if current_valid && dc_calib_valid m then
      let a := phA current -! phA (DC_calib_ m) in
      let b := phB current -! phB (DC_calib_ m) in
      let c := phC current -! phC (DC_calib_ m) in
      let leak := a +! b +! c in
      set_current_meas_ {| phA := a -! leak /! F32.of_Z 3;
                           phB := b -! leak /! F32.of_Z 3;
                           phC := c -! leak /! F32.of_Z 3 |}
        (set_I_leak_ leak m)
    else
      set_current_meas_ {| phA := F32.NAN; phB := F32.NAN; phC := F32.NAN |}
        (set_I_leak_ F32.NAN m)) ;;
  m <- gets motor ;;
  when (F32.gtb (F32.abs (I_leak_ m)) (I_leak_max (config_ m)))
       (disarm_with_error ERROR_I_LEAK_OUT_OF_RANGE) ;;
  do_fast_checks ;;
  m <- gets motor ;;
  let Itrip := effective_current_lim_ m +! current_lim_margin (config_ m) in
  when (F32.gtb
          (F32.of_Z 2 /! F32.of_Z 3 *!
           (F32.SQ (phA (current_meas_ m)) +! F32.SQ (phB (current_meas_ m))
            +! F32.SQ (phC (current_meas_ m))))
          (F32.SQ Itrip))
       (disarm_with_error ERROR_CURRENT_LIMIT_VIOLATION) ;;
  m <- gets motor ;;
  match control_law_ m with
  | Some _ =>
      vbus <- gets vbus_voltage ;;
      err <- law_on_measurement vbus (current_meas_ m) (last_update_timestamp_ m) ;;
      when (negb (Error_eqb err ERROR_NONE)) (disarm_with_error err)
  | None => ret tt
  end.

Definition period_clocks : Z := TIM_1_8_PERIOD_CLOCKS * (TIM_1_8_RCR + 1).

(** [(uint16_t)(duty * (float)TIM_1_8_PERIOD_CLOCKS)] *)
Definition duty_to_timing (duty : float) : Z :=
  wrap16 (F32.trunc (duty *! F32.of_Z TIM_1_8_PERIOD_CLOCKS)).

(** The body of the second [if (should_update_pwm)]. *)
Definition pwm_update_step : M unit :=
  m <- gets motor ;;
  control_law_result <-
    match control_law_ m with
    | Some _ => law_get_output (wrap32 (last_update_timestamp_ m + 2 * period_clocks))
    | None => ret (Failed ERROR_CONTROLLER_FAILED)
    end ;;
  m <- gets motor ;;
  i_bus <-
    match is_armed_ m, control_law_result with
    | true, Timings t0 t1 t2 =>
        let half := F32.lit 1 2 in
        let i_bus := (half -! t0) *! phA (current_meas_ m)
                     +! (half -! t1) *! phB (current_meas_ m)
                     +! (half -! t2) *! phC (current_meas_ m) in
        apply_pwm_timings
          (duty_to_timing t0, duty_to_timing t1, duty_to_timing t2) false ;;
        ret i_bus
    | true, Failed e =>
        bdtr <- tim_read R_BDTR ;;
        (if (Z.land bdtr TIM_BDTR_MOE =? 0) && Error_eqb e ERROR_CONTROLLER_INITIALIZING
         then ret tt
         else disarm_with_error e) ;;
        ret F32.zero
    | false, _ => ret F32.zero
    end ;;
  armed <- gets (fun w => is_armed_ (motor w)) ;;
  let i_bus := if negb armed then F32.zero else i_bus in
  modify_motor (set_I_bus_ i_bus) ;;
  m <- gets motor ;;
  when (F32.ltb i_bus (I_bus_hard_min (config_ m))
        || F32.gtb i_bus (I_bus_hard_max (config_ m)))
       (disarm_with_error ERROR_I_BUS_OUT_OF_RANGE) ;;
  update_brake_current ;;
  log_timing TIMING_LOG_CTRL_DONE.

(** [void Motor::tim_update_cb(uint32_t adc_a, uint32_t adc_b, uint32_t adc_c)] *)
Definition tim_update_cb (adc_a adc_b adc_c : Z) : M unit :=
  modify_motor (fun m =>
    set_last_update_timestamp_ (wrap32 (last_update_timestamp_ m + period_clocks)) m) ;;
  cr1 <- tim_read R_CR1 ;;
  let counting_down := negb (Z.land cr1 TIM_CR1_DIR =? 0) in
  previous <- gets (fun w => counting_down_ (motor w)) ;;
  let timer_update_missed := Bool.eqb previous counting_down in
  if timer_update_missed then
    disarm_with_error ERROR_TIMER_UPDATE_MISSED
  else
    modify_motor (set_counting_down_ counting_down) ;;
    log_timing TIMING_LOG_UPDATE_START ;;
    should_update_pwm <- gets (fun w => counting_down_ (motor w)) ;;
    let was_current_dc_calib := should_update_pwm in
    let was_current_sense := negb should_update_pwm in
    when should_update_pwm (
      let half := TIM_1_8_PERIOD_CLOCKS / 2 in
      apply_pwm_timings (wrap16 half, wrap16 half, wrap16 half) true) ;;
    sensed <- sense_current adc_a adc_b adc_c ;;
    let (current, current_valid) := sensed in
    when was_current_dc_calib (dc_calib_step current current_valid) ;;
    when was_current_sense (current_sense_step current current_valid) ;;
    when should_update_pwm pwm_update_step.

(* ------------------------------------------------------------------ *)
(** ** Measurement and calibration *)

Section Calibration.

(** What the rest of the system does to the shared state while the calling
    thread sleeps in [osDelay]: the timer interrupts, the hardware and the
    other threads.  The calibration routines are stated for every such
    behaviour. *)
Variable background : M unit.

Definition osDelay (ms : Z) : M unit :=
  emit (EvOsDelay ms) ;;
  background.

(** [for (size_t i = 0; i < n; ++i) { if (!(...)) break; osDelay(1); }] *)
Fixpoint wait_while_armed (n : nat) : M unit :=
  match n with
  | O => ret tt
  | S n' =>
      st <- gets requested_state_ ;;
      armed <- gets (fun w => is_armed_ (motor w)) ;;
      if negb (AxisState_is_undefined st && armed) then ret tt
      else osDelay 1 ;; wait_while_armed n'
  end.

(** The local [control_law] objects live in the cell [control_law_] is about
    to point to. *)
Definition local_resistance_law : M RLaw.t :=
  gets (fun w => match law w with ResistanceLaw s => s | _ => RLaw.init end).

Definition local_inductance_law : M LLaw.t :=
  gets (fun w => match law w with InductanceLaw s => s | _ => LLaw.init end).

(** [bool Motor::measure_phase_resistance(float test_current, float max_voltage)] *)
Definition measure_phase_resistance (test_current max_voltage : float) : M bool :=
  modify (set_law (ResistanceLaw
    {| RLaw.max_voltage_ := max_voltage; RLaw.test_current_ := test_current;
       RLaw.test_voltage_ := RLaw.test_voltage_ RLaw.init;
       RLaw.test_mod_ := RLaw.test_mod_ RLaw.init |})) ;;
  arm (Some law_cell) ;;
  wait_while_armed 3000 ;;
  success <- gets (fun w => is_armed_ (motor w)) ;;
  disarm nullptr ;;
  control_law <- local_resistance_law ;;
  modify_motor (fun m =>
    set_config_ (set_phase_resistance (RLaw.get_resistance control_law) (config_ m)) m) ;;
  R <- gets (fun w => phase_resistance (config_ (motor w))) ;;
  if F32.isnan R then
    disarm_with_error ERROR_PHASE_RESISTANCE_OUT_OF_RANGE ;;
    ret false
  else ret success.

(** [bool Motor::measure_phase_inductance(float test_voltage)] *)
Definition measure_phase_inductance (test_voltage : float) : M bool :=
  modify (set_law (InductanceLaw (LLaw.set_test_voltage_ test_voltage LLaw.init))) ;;
  arm (Some law_cell) ;;
  wait_while_armed 1250 ;;
  success <- gets (fun w => is_armed_ (motor w)) ;;
  disarm nullptr ;;
  control_law <- local_inductance_law ;;
  modify_motor (fun m =>
    set_config_ (set_phase_inductance (LLaw.get_inductance board control_law) (config_ m)) m) ;;
  L <- gets (fun w => phase_inductance (config_ (motor w))) ;;
  if negb (F32.geb L (F32.lit 2 1000000) && F32.leb L (F32.lit 4000 1000000)) then
    modify_motor (fun m =>
      set_error_ (Z.lor (error_ m) (Error_bit ERROR_PHASE_INDUCTANCE_OUT_OF_RANGE)) m) ;;
    ret false
  else ret success.

End Calibration.

End MotorControl.

(* ------------------------------------------------------------------ *)
(** ** A concrete board and concrete worlds, used to run the model *)

(** The ODrive v3 timing and current-sense constants. *)
Definition example_board : Board := {|
  TIM_1_8_CLOCK_HZ := 168000000;
  TIM_1_8_PERIOD_CLOCKS := 3500;
  TIM_1_8_RCR := 2;
  CURRENT_SENSE_MIN_VOLT := F32.lit 3 10;
  CURRENT_SENSE_MAX_VOLT := F32.of_Z 3;
  current_meas_period := F32.lit 1 8000
|}.

(** A stand-in for the collaborators: the amplitude-invariant two-phase
    transform, a modulator that always answers 50% duty, and a production
    control law without state that never fails. *)
Definition example_ext : External := {|
  clarke := fun i =>
    (phA i, S754_finite false 9686330 (-24) *! (phB i -! phC i));
  svm := fun _ _ => Timings (F32.lit 1 2) (F32.lit 1 2) (F32.lit 1 2);
  ExternalLaw := unit;
  ext_reset := fun s => s;
  ext_on_measurement := fun _ _ _ s => (ERROR_NONE, s);
  ext_get_output := fun _ s => (Timings (F32.lit 1 2) (F32.lit 1 2) (F32.lit 1 2), s)
|}.

Definition zero_current : Iph_ABC_t :=
  {| phA := F32.zero; phB := F32.zero; phC := F32.zero |}.

Definition example_config : Config_t := {|
  phase_resistance := F32.zero;
  phase_inductance := F32.zero;
  current_lim_margin := F32.of_Z 8;
  dc_calib_tau := F32.lit 2 10;
  I_leak_max := F32.lit 1 10;
  I_bus_hard_min := S754_infinity true;
  I_bus_hard_max := S754_infinity false
|}.

(** A disarmed motor without errors, all three current sensors populated. *)
Definition example_motor : Motor := {|
  is_armed_ := false;
  control_law_ := None;
  error_ := 0;
  config_ := example_config;
  DC_calib_ := zero_current;
  dc_calib_running_since_ := F32.zero;
  current_meas_ := zero_current;
  I_leak_ := F32.zero;
  I_bus_ := F32.zero;
  effective_current_lim_ := F32.of_Z 10;
  max_dc_calib_ := F32.of_Z 6;
  phase_current_rev_gain_ := F32.lit 1 40;
  shunt_conductance_ := F32.of_Z 2000;
  current_sensor_mask_ := 7;
  counting_down_ := false;
  last_update_timestamp_ := 0
|}.

Definition example_tim : TIM_TypeDef :=
  {| CR1 := 0; SR := 0; BDTR := 0; CCR1 := 0; CCR2 := 0; CCR3 := 0 |}.

Definition example_world : @World example_ext := {|
  motor := example_motor;
  tim := example_tim;
  law := OtherLaw (tt : @ExternalLaw example_ext);
  brake_resistor_armed := true;
  vbus_voltage := F32.of_Z 24;
  requested_state_ := AXIS_STATE_UNDEFINED;
  rotor_flux_ := F32.zero;
  gate_driver_ready := true;
  fast_checks_fault := false;
  trace := []
|}.

(** The same world with the update flag set in the status register and the
    motor armed. *)
Definition latched_world : @World example_ext :=
  set_tim (reg_set R_SR TIM_FLAG_UPDATE example_tim)
    (set_motor (set_is_armed_ true example_motor) example_world).

(** The gate driver reports a fault. *)
Definition gate_fault_world : @World example_ext := {|
  motor := example_motor;
  tim := example_tim;
  law := OtherLaw (tt : @ExternalLaw example_ext);
  brake_resistor_armed := true;
  vbus_voltage := F32.of_Z 24;
  requested_state_ := AXIS_STATE_UNDEFINED;
  rotor_flux_ := F32.zero;
  gate_driver_ready := false;
  fast_checks_fault := false;
  trace := []
|}.

(** An armed motor whose brake resistor has just been disarmed. *)
Definition brake_off_world : @World example_ext :=
  set_brake_resistor_armed false
    (set_motor (set_is_armed_ true example_motor) example_world).

(** The timer counts down (DIR set) after a counting-up half: the handler
    is entered for the PWM-update and DC-calibration half. *)
Definition calibration_half_world : @World example_ext :=
  set_tim (reg_set R_CR1 TIM_CR1_DIR example_tim)
    (set_motor
       (set_DC_calib_
          {| phA := F32.lit 1 4; phB := F32.lit 1 4; phC := F32.lit 1 4 |}
          example_motor)
       example_world).

(** The timer counts up (DIR clear) after a counting-down half: the handler
    is entered for the current-sense half, with offsets already estimated. *)
Definition sense_half_world : @World example_ext :=
  set_motor
    (set_counting_down_ true
       (set_DC_calib_
          {| phA := F32.lit 1 4; phB := F32.lit 1 4; phC := F32.lit 1 4 |}
          example_motor))
    example_world.

(** What the timer does at an update event: the counting direction flips and
    the master output enable follows the automatic output enable. *)
Definition hw_update_event : @M example_ext unit :=
  modify (fun w =>
    let t := tim w in
    let t := reg_set R_CR1 (Z.lxor (CR1 t) TIM_CR1_DIR) t in
    let t := if Z.land (BDTR t) TIM_BDTR_AOE =? 0 then t
             else reg_set R_BDTR (Z.lor (BDTR t) TIM_BDTR_MOE) t in
    set_tim t w).

(** One PWM period: two update events, each followed by the interrupt
    handler, with the samples taken in the current-sense half and in the
    calibration half. *)
Definition pwm_period (sense calib : Z * Z * Z) : @M example_ext unit :=
  let '(sa, sb, sc) := sense in
  let '(ca, cb, cc) := calib in
  bind hw_update_event (fun _ =>
  bind (tim_update_cb (board := example_board) sa sb sc) (fun _ =>
  bind hw_update_event (fun _ =>
  tim_update_cb (board := example_board) ca cb cc))).

(** A background for the calibration routines: during the first sleep one
    PWM period runs with about 2 A in phase A returning through B and C,
    then another thread requests a new axis state. *)
Definition example_background : @M example_ext unit :=
  bind (pwm_period (2098, 2023, 2023) (2048, 2048, 2048)) (fun _ =>
  modify (set_requested_state_ (AXIS_STATE_REQUESTED 1))).

(** A motor whose DC calibration has run for ten seconds, entered after a
    counting-down half. *)
Definition calibrated_world : @World example_ext :=
  set_tim (reg_set R_CR1 TIM_CR1_DIR example_tim)
    (set_motor
       (set_counting_down_ true
          (set_dc_calib_running_since_ (F32.of_Z 10) example_motor))
       example_world).

(* ------------------------------------------------------------------ *)
(** ** Controller gains, limits and the calibration sequence *)

(** [Motor::MotorType]; [MOTOR_TYPE_OTHER] stands for the values motor.cpp
    does not name. *)
Inductive MotorType :=
| MOTOR_TYPE_HIGH_CURRENT
| MOTOR_TYPE_GIMBAL
| MOTOR_TYPE_ACIM
| MOTOR_TYPE_OTHER (k : nat).

(** The members of [Motor::Config_t] and of [Motor] that only the gain,
    limit and calibration functions use: they complete [Config_t] and
    [Motor]. *)
Record MotorSetup := {
  pre_calibrated : bool;                (* config_.pre_calibrated *)
  motor_type : MotorType;               (* config_.motor_type *)
  current_control_bandwidth : float;    (* config_.current_control_bandwidth *)
  current_lim : float;                  (* config_.current_lim *)
  torque_constant : float;              (* config_.torque_constant *)
  torque_lim : float;                   (* config_.torque_lim *)
  calibration_current : float;          (* config_.calibration_current *)
  resistance_calib_max_voltage : float; (* config_.resistance_calib_max_voltage *)
  is_calibrated_ : bool;
  p_gain_ : float;                      (* current_control_.p_gain_ *)
  i_gain_ : float;                      (* current_control_.i_gain_ *)
  max_allowed_current_ : float
}.

Definition set_is_calibrated_ (v : bool) (s : MotorSetup) : MotorSetup :=
  {| pre_calibrated := pre_calibrated s; motor_type := motor_type s;
     current_control_bandwidth := current_control_bandwidth s;
     current_lim := current_lim s; torque_constant := torque_constant s;
     torque_lim := torque_lim s; calibration_current := calibration_current s;
     resistance_calib_max_voltage := resistance_calib_max_voltage s;
     is_calibrated_ := v; p_gain_ := p_gain_ s; i_gain_ := i_gain_ s;
     max_allowed_current_ := max_allowed_current_ s |}.

Definition set_p_gain_ (v : float) (s : MotorSetup) : MotorSetup :=
  {| pre_calibrated := pre_calibrated s; motor_type := motor_type s;
     current_control_bandwidth := current_control_bandwidth s;
     current_lim := current_lim s; torque_constant := torque_constant s;
     torque_lim := torque_lim s; calibration_current := calibration_current s;
     resistance_calib_max_voltage := resistance_calib_max_voltage s;
     is_calibrated_ := is_calibrated_ s; p_gain_ := v; i_gain_ := i_gain_ s;
     max_allowed_current_ := max_allowed_current_ s |}.

Definition set_i_gain_ (v : float) (s : MotorSetup) : MotorSetup :=
  {| pre_calibrated := pre_calibrated s; motor_type := motor_type s;
     current_control_bandwidth := current_control_bandwidth s;
     current_lim := current_lim s; torque_constant := torque_constant s;
     torque_lim := torque_lim s; calibration_current := calibration_current s;
     resistance_calib_max_voltage := resistance_calib_max_voltage s;
     is_calibrated_ := is_calibrated_ s; p_gain_ := p_gain_ s; i_gain_ := v;
     max_allowed_current_ := max_allowed_current_ s |}.

Definition set_effective_current_lim_ (v : float) (m : Motor) : Motor :=
  {| is_armed_ := is_armed_ m; control_law_ := control_law_ m; error_ := error_ m;
     config_ := config_ m; DC_calib_ := DC_calib_ m;
     dc_calib_running_since_ := dc_calib_running_since_ m;
     current_meas_ := current_meas_ m; I_leak_ := I_leak_ m; I_bus_ := I_bus_ m;
     effective_current_lim_ := v; max_dc_calib_ := max_dc_calib_ m;
     phase_current_rev_gain_ := phase_current_rev_gain_ m;
     shunt_conductance_ := shunt_conductance_ m;
     current_sensor_mask_ := current_sensor_mask_ m;
     counting_down_ := counting_down_ m;
     last_update_timestamp_ := last_update_timestamp_ m |}.

(** What [effective_current_lim] reads from other translation units: the
    constant [one_by_sqrt3] and, for every limiter of
    [axis_->current_limiters_] in order, what its [get_current_limit]
    answers at the time of the call. *)
Class AxisLimits := {
  one_by_sqrt3 : float;
  current_limiters_ : list (float -> float)
}.

(** [std::clamp(v, lo, hi)]: [(v < lo) ? lo : (hi < v) ? hi : v].  The
    behaviour is undefined when [hi < lo]. *)
Definition clamp (v lo hi : float) : float :=
  if F32.ltb v lo then lo else if F32.ltb hi v then hi else v.

Section MotorSetupFunctions.

Context {board : Board} {ext : External} {limits : AxisLimits}.

Local Notation "x <- m ;; k" := (bind m (fun x => k))
  (at level 61, m at next level, right associativity).
Local Notation "m ;; k" := (bind m (fun _ => k))
  (at level 61, right associativity).

(** [void Motor::update_current_controller_gains()] *)
Definition update_current_controller_gains (s : MotorSetup) : M MotorSetup :=
  c <- gets (fun w => config_ (motor w)) ;;
  let s := set_p_gain_ (current_control_bandwidth s *! phase_inductance c) s in
  let plant_pole := phase_resistance c /! phase_inductance c in
  ret (set_i_gain_ (plant_pole *! p_gain_ s) s).

(** [bool Motor::apply_config()] *)
Definition apply_config (s : MotorSetup) : M (bool * MotorSetup) :=
  let s := set_is_calibrated_ (pre_calibrated s) s in
  s <- update_current_controller_gains s ;;
  ret (true, s).

(** [float Motor::effective_current_lim()]; [axis_->motor_] is the motor
    itself. *)
Definition effective_current_lim (s : MotorSetup) : M float :=
  let current_lim0 := current_lim s in
  vbus <- gets vbus_voltage ;;
  let current_lim1 :=
    match motor_type s with
    | MOTOR_TYPE_GIMBAL =>
        F32.min current_lim0 (F32.lit 98 100 *! one_by_sqrt3 *! vbus)
    | _ => F32.min current_lim0 (max_allowed_current_ s)
    end in
  let current_lim2 :=
    fold_left (fun acc get_current_limit =>
                 F32.min acc (get_current_limit (current_lim s)))
      current_limiters_ current_lim1 in
  modify_motor (set_effective_current_lim_ current_lim2) ;;
  gets (fun w => effective_current_lim_ (motor w)).

(** [float Motor::max_available_torque()] *)
Definition max_available_torque (s : MotorSetup) : M float :=
  m <- gets motor ;;
  match motor_type s with
  | MOTOR_TYPE_ACIM =>
      flux <- gets rotor_flux_ ;;
      let max_torque := effective_current_lim_ m *! torque_constant s *! flux in
      ret (clamp max_torque F32.zero (torque_lim s))
  | _ =>
      let max_torque := effective_current_lim_ m *! torque_constant s in
      ret (clamp max_torque F32.zero (torque_lim s))
  end.

Section CalibrationSequence.

(** As in [Calibration]: what the rest of the system does during an
    [osDelay].  It leaves the members of [MotorSetup] alone. *)
Variable background : M unit.

(** [bool Motor::run_calibration()] *)
Definition run_calibration (s : MotorSetup) : M (bool * MotorSetup) :=
  let R_calib_max_voltage := resistance_calib_max_voltage s in
  let finish :=
    s <- update_current_controller_gains s ;;
    ret (true, set_is_calibrated_ true s) in
  match motor_type s with
  | MOTOR_TYPE_HIGH_CURRENT | MOTOR_TYPE_ACIM =>
      measured <- measure_phase_resistance background (calibration_current s)
                    R_calib_max_voltage ;;
      if negb measured then ret (false, s)
      else
        measured <- measure_phase_inductance background R_calib_max_voltage ;;
        if negb measured then ret (false, s)
        else finish
  | MOTOR_TYPE_GIMBAL => finish
  | MOTOR_TYPE_OTHER _ => ret (false, s)
  end.

End CalibrationSequence.

End MotorSetupFunctions.

(** A high-current motor before calibration, with the default limits. *)
Definition example_setup : MotorSetup := {|
  pre_calibrated := false;
  motor_type := MOTOR_TYPE_HIGH_CURRENT;
  current_control_bandwidth := F32.of_Z 1000;
  current_lim := F32.of_Z 10;
  torque_constant := F32.lit 4 100;
  torque_lim := S754_infinity false;
  calibration_current := F32.of_Z 10;
  resistance_calib_max_voltage := F32.of_Z 2;
  is_calibrated_ := false;
  p_gain_ := F32.zero;
  i_gain_ := F32.zero;
  max_allowed_current_ := F32.lit 6075 100
|}.

(** Two limiters: one that does not restrict the configured limit and one
    that allows 7.5 A. *)
Definition example_limits : AxisLimits := {|
  one_by_sqrt3 := S754_finite false 9686330 (-24);
  current_limiters_ := [fun configured => configured; fun _ => F32.lit 15 2]
|}.

(** A motor that was just armed for a resistance measurement: the law is
    reset and the outputs are not yet enabled. *)
Definition startup_world : @World example_ext :=
  exec (arm (Some law_cell))
    (set_law (ResistanceLaw
       {| RLaw.max_voltage_ := F32.of_Z 2; RLaw.test_current_ := F32.of_Z 10;
          RLaw.test_voltage_ := F32.zero; RLaw.test_mod_ := F32.NAN |})
       example_world).

(** A motor armed with the production control law of [example_ext], which
    answers 50% duty on every phase. *)
Definition running_world : @World example_ext :=
  set_motor (set_current_meas_
               {| phA := F32.of_Z 2; phB := F32.of_Z (-1); phC := F32.of_Z (-1) |}
               (motor (exec (arm (Some law_cell)) example_world)))
    (exec (arm (Some law_cell)) example_world).

(** An armed motor with trusted offsets, entered for the current-sense
    half. *)
Definition calibrated_sense_world : @World example_ext :=
  set_motor
    (set_is_armed_ true
       (set_counting_down_ true
          (set_dc_calib_running_since_ (F32.of_Z 10) example_motor)))
    example_world.

(** A disarmed motor whose brake resistor is not armed. *)
Definition no_brake_world : @World example_ext :=
  set_brake_resistor_armed false example_world.

(** The same for an induction motor. *)
Definition example_acim_setup : MotorSetup := {|
  pre_calibrated := false;
  motor_type := MOTOR_TYPE_ACIM;
  current_control_bandwidth := F32.of_Z 1000;
  current_lim := F32.of_Z 10;
  torque_constant := F32.lit 4 100;
  torque_lim := S754_infinity false;
  calibration_current := F32.of_Z 10;
  resistance_calib_max_voltage := F32.of_Z 2;
  is_calibrated_ := false;
  p_gain_ := F32.zero;
  i_gain_ := F32.zero;
  max_allowed_current_ := F32.lit 6075 100
|}.

(* ------------------------------------------------------------------ *)
(** ** Properties *)

(** The events of one [disarm()] up to the end of its critical section, on
    a motor whose armed flag is [armed] and whose BDTR register holds [bdtr]. *)
Definition disarm_critical_events (armed : bool) (bdtr : Z) : list Event :=
  [EvCriticalEnter]
  ++ (if armed then [EvGateDriverSetEnabled false] else [])
  ++ [EvRead R_BDTR bdtr;
      EvWrite R_BDTR (clear_bits bdtr TIM_BDTR_AOE);
      EvRead R_BDTR (clear_bits bdtr TIM_BDTR_AOE);
      EvWrite R_BDTR (clear_bits (clear_bits bdtr TIM_BDTR_AOE) TIM_BDTR_MOE);
      EvCriticalExit].

(** Whether a mask has all the bits of [Error_bit e]. *)
Definition has_error (mask : Z) (e : Error) : Prop :=
  Z.land mask (Error_bit e) = Error_bit e.

Ltac unfold_m :=
  unfold CRITICAL_SECTION, HAL_TIM_GET_FLAG, HAL_TIM_MOE_DISABLE_UNCONDITIONALLY,
    update_brake_current, log_timing, tim_read, tim_write, law_reset, with_law,
    modify_motor, emit, when, gets, modify, bind, ret, exec, retval in *.

Ltac norm_trace := repeat rewrite <- app_assoc; cbn.

Ltac fields :=
  cbn [motor tim law brake_resistor_armed vbus_voltage requested_state_ rotor_flux_
       gate_driver_ready fast_checks_fault trace
       set_motor set_tim set_law set_rotor_flux_ set_trace set_requested_state_
       set_brake_resistor_armed
       is_armed_ control_law_ error_ config_ DC_calib_ dc_calib_running_since_
       current_meas_ I_leak_ I_bus_ effective_current_lim_ max_dc_calib_
       phase_current_rev_gain_ shunt_conductance_ current_sensor_mask_
       counting_down_ last_update_timestamp_
       set_is_armed_ set_control_law_ set_error_ set_config_ set_DC_calib_
       set_dc_calib_running_since_ set_current_meas_ set_I_leak_ set_I_bus_
       set_counting_down_ set_last_update_timestamp_
       CR1 SR BDTR CCR1 CCR2 CCR3 reg_get reg_set
       phase_resistance phase_inductance current_lim_margin dc_calib_tau I_leak_max
       I_bus_hard_min I_bus_hard_max set_phase_resistance set_phase_inductance
       phA phB phC fst snd] in *.

Ltac case_if :=
  match goal with
  | |- context [if ?c then _ else _] => destruct c eqn:?
  end.

Lemma land_lor_same (x b : Z) : Z.land (Z.lor x b) b = b.
Proof.
  apply Z.bits_inj'; intros n _.
  rewrite Z.land_spec, Z.lor_spec.
  destruct (Z.testbit x n), (Z.testbit b n); reflexivity.
Qed.

Lemma clear_bits_land (x m : Z) :
  Z.land (Z.lxor 0xffffffff m) m = 0 -> Z.land (clear_bits x m) m = 0.
Proof.
  intros H. unfold clear_bits. rewrite <- Z.land_assoc, H. apply Z.land_0_r.
Qed.

Lemma clear_bits_keeps_clear (x m k : Z) : Z.land x k = 0 -> Z.land (clear_bits x m) k = 0.
Proof.
  intros H. unfold clear_bits.
  rewrite <- Z.land_assoc, (Z.land_comm _ k), Z.land_assoc, H. reflexivity.
Qed.

(* ------------------------------------------------------------------ *)
(** ** Reasoning about computations *)

Section MonadLaws.

Context {ext : External}.

Lemma exec_bind {A B} (m : M A) (k : A -> M B) (w : World) :
  exec (bind m k) w = exec (k (retval m w)) (exec m w).
Proof. unfold exec, retval, bind. destruct (m w); reflexivity. Qed.

Lemma retval_bind {A B} (m : M A) (k : A -> M B) (w : World) :
  retval (bind m k) w = retval (k (retval m w)) (exec m w).
Proof. unfold exec, retval, bind. destruct (m w); reflexivity. Qed.

Lemma exec_ret {A} (a : A) (w : World) : exec (ret a) w = w.
Proof. reflexivity. Qed.

Lemma retval_ret {A} (a : A) (w : World) : retval (ret a) w = a.
Proof. reflexivity. Qed.

Lemma exec_gets {A} (f : World -> A) (w : World) : exec (gets f) w = w.
Proof. reflexivity. Qed.

Lemma retval_gets {A} (f : World -> A) (w : World) : retval (gets f) w = f w.
Proof. reflexivity. Qed.

Lemma exec_modify (f : World -> World) (w : World) : exec (modify f) w = f w.
Proof. reflexivity. Qed.

Lemma exec_when (c : bool) (m : M unit) (w : World) :
  exec (when c m) w = if c then exec m w else w.
Proof. destruct c; reflexivity. Qed.

Lemma exec_modify_motor (f : Motor -> Motor) (w : World) :
  exec (modify_motor f) w = set_motor (f (motor w)) w.
Proof. reflexivity. Qed.

Lemma exec_emit (e : Event) (w : World) :
  exec (emit e) w = set_trace (trace w ++ [e]) w.
Proof. reflexivity. Qed.

Lemma exec_tim_read (r : TimReg) (w : World) :
  exec (tim_read r) w = set_trace (trace w ++ [EvRead r (reg_get r (tim w))]) w.
Proof. reflexivity. Qed.

Lemma retval_tim_read (r : TimReg) (w : World) :
  retval (tim_read r) w = reg_get r (tim w).
Proof. reflexivity. Qed.

Lemma exec_tim_write (r : TimReg) (v : Z) (w : World) :
  exec (tim_write r v) w =
  set_trace (trace w ++ [EvWrite r v]) (set_tim (reg_set r v (tim w)) w).
Proof. reflexivity. Qed.

(** A relation between the motor before and after a computation. *)
Definition preserves (R : Motor -> Motor -> Prop) {A} (m : M A) : Prop :=
  forall w, R (motor w) (motor (exec m w)).

Section Preserve.

Variable R : Motor -> Motor -> Prop.
Hypothesis R_refl : forall m, R m m.
Hypothesis R_trans : forall a b c, R a b -> R b c -> R a c.

Lemma preserves_ret {A} (a : A) : preserves R (ret a).
Proof. intros w. apply R_refl. Qed.

Lemma preserves_bind {A B} (m : M A) (k : A -> M B) :
  preserves R m -> (forall a, preserves R (k a)) -> preserves R (bind m k).
Proof.
  intros Hm Hk w. rewrite exec_bind.
  eapply R_trans; [apply Hm|apply Hk].
Qed.

Lemma preserves_when (c : bool) (m : M unit) :
  preserves R m -> preserves R (when c m).
Proof. intros Hm. destruct c; [exact Hm|apply preserves_ret]. Qed.

Lemma preserves_gets {A} (f : World -> A) : preserves R (gets f).
Proof. intros w. apply R_refl. Qed.

Lemma preserves_emit (e : Event) : preserves R (emit e).
Proof. intros w. apply R_refl. Qed.

Lemma preserves_modify_motor (f : Motor -> Motor) :
  (forall m, R m (f m)) -> preserves R (modify_motor f).
Proof. intros H w. apply H. Qed.

Lemma preserves_modify (f : World -> World) :
  (forall w, motor (f w) = motor w) -> preserves R (modify f).
Proof. intros H w. unfold exec, modify. cbn. rewrite H. apply R_refl. Qed.

Lemma preserves_with_law {A} (f : ControlLaw -> A * ControlLaw) :
  preserves R (with_law f).
Proof. intros w. unfold exec, with_law. destruct (f (law w)). apply R_refl. Qed.

End Preserve.

End MonadLaws.

Section Properties.

Context {board : Board} {ext : External}.

(** *** What a disarm does to the world *)

(** The world after [disarm]. *)
Definition disarmed (w : World) : World :=
  set_trace
    (trace w ++ disarm_critical_events (is_armed_ (motor w)) (BDTR (tim w))
             ++ [EvUpdateBrakeCurrent])
    (set_tim
       (reg_set R_BDTR
          (clear_bits (clear_bits (BDTR (tim w)) TIM_BDTR_AOE) TIM_BDTR_MOE) (tim w))
       (set_motor (set_control_law_ None (set_is_armed_ false (motor w))) w)).

(** The world after [disarm_with_error error]. *)
Definition faulted (error : Error) (w : World) : World :=
  let w1 := disarmed
              (set_motor
                 (set_error_ (Z.lor (error_ (motor w)) (Error_bit error)) (motor w)) w) in
  set_trace (trace w1 ++ [EvUpdateBrakeCurrent]) w1.

Lemma disarm_exec (p : BoolPtr) (w : World) : exec (disarm p) w = disarmed w.
Proof.
  destruct w as [m t l bra vbus rs flux ready fault tr].
  destruct m as [armed cl err cfg dc since meas leak ibus lim maxdc gain cond mask cd ts].
  destruct t as [cr1 sr bdtr c1 c2 c3].
  cbv -[app clear_bits].
  destruct p, armed; repeat rewrite <- app_assoc; reflexivity.
Qed.

Lemma disarm_retval (p : BoolPtr) (w : World) :
  retval (disarm p) w =
  (true, match p with
         | addr_of_caller_var => Some (is_armed_ (motor w))
         | _ => None
         end).
Proof.
  unfold disarm. unfold_m.
  destruct p; cbn; destruct (is_armed_ (motor w)); reflexivity.
Qed.

Lemma disarm_with_error_exec (e : Error) (w : World) :
  exec (disarm_with_error e) w = faulted e w.
Proof.
  unfold disarm_with_error, faulted.
  rewrite exec_bind, exec_bind, disarm_exec. reflexivity.
Qed.

Lemma motor_disarmed (w : World) :
  motor (disarmed w) = set_control_law_ None (set_is_armed_ false (motor w)).
Proof. reflexivity. Qed.

Lemma motor_faulted (e : Error) (w : World) :
  motor (faulted e w) =
  set_control_law_ None
    (set_is_armed_ false
       (set_error_ (Z.lor (error_ (motor w)) (Error_bit e)) (motor w))).
Proof. reflexivity. Qed.

(** *** Frame lemmas

    A relation [R] on the motor that is a preorder, that holds across the
    field updates of a disarm and of a disarm with error, and across the
    updates of the handler's bookkeeping fields, holds across every
    operation built from them. *)

Section Frames.

Variable R : Motor -> Motor -> Prop.
Hypothesis R_refl : forall m, R m m.
Hypothesis R_trans : forall a b c, R a b -> R b c -> R a c.
Hypothesis R_disarm :
  forall m, R m (set_control_law_ None (set_is_armed_ false m)).
Hypothesis R_fault :
  forall m e, R m (set_control_law_ None (set_is_armed_ false (set_error_ e m))).
Hypothesis R_timestamp : forall m v, R m (set_last_update_timestamp_ v m).
Hypothesis R_counting_down : forall m v, R m (set_counting_down_ v m).
Hypothesis R_meas : forall m i l, R m (set_current_meas_ i (set_I_leak_ l m)).
Hypothesis R_I_bus : forall m v, R m (set_I_bus_ v m).

Ltac pres :=
  repeat first [ assumption | intros;
    match goal with
    | |- preserves _ (bind _ _) => apply preserves_bind
    | |- preserves _ (ret _) => apply preserves_ret
    | |- preserves _ (when _ _) => apply preserves_when
    | |- preserves _ (gets _) => apply preserves_gets
    | |- preserves _ (emit _) => apply preserves_emit
    | |- preserves _ (with_law _) => apply preserves_with_law
    | |- preserves _ (modify_motor _) => apply preserves_modify_motor
    | |- preserves _ (modify _) => apply preserves_modify
    | |- preserves _ (if ?c then _ else _) => destruct c
    | |- preserves _ (match ?x with _ => _ end) => destruct x
    | |- _ _ (if ?c then _ else _) => destruct c
    | |- _ => solve [auto | reflexivity]
    end ].

Lemma preserves_tim_read (r : TimReg) : preserves R (tim_read r).
Proof. unfold tim_read. pres. Qed.

Lemma preserves_tim_write (r : TimReg) (v : Z) : preserves R (tim_write r v).
Proof. unfold tim_write. pres. Qed.

Lemma preserves_disarm (p : BoolPtr) : preserves R (disarm p).
Proof.
  intros w. rewrite disarm_exec, motor_disarmed. apply R_disarm.
Qed.

Lemma preserves_disarm_with_error (e : Error) : preserves R (disarm_with_error e).
Proof.
  intros w. rewrite disarm_with_error_exec, motor_faulted. apply R_fault.
Qed.

Lemma preserves_apply_pwm_timings (timings : Z * Z * Z) (tentative : bool) :
  preserves R (apply_pwm_timings timings tentative).
Proof.
  pose proof preserves_disarm_with_error. pose proof preserves_tim_write.
  pose proof preserves_tim_read.
  destruct timings as [[t0 t1] t2].
  unfold apply_pwm_timings, CRITICAL_SECTION, HAL_TIM_GET_FLAG. pres.
Qed.

Lemma preserves_do_checks (timestamp : Z) : preserves R (do_checks timestamp).
Proof.
  pose proof preserves_disarm_with_error.
  unfold do_checks. pres.
Qed.

Lemma preserves_check_adc_range (adc : Z) : preserves R (check_adc_range adc).
Proof.
  pose proof preserves_disarm_with_error.
  unfold check_adc_range. pres.
Qed.

Lemma preserves_sense_current (a b c : Z) : preserves R (sense_current a b c).
Proof.
  pose proof preserves_check_adc_range.
  unfold sense_current, log_timing. pres.
Qed.

Lemma preserves_do_fast_checks : preserves R do_fast_checks.
Proof.
  pose proof preserves_disarm.
  unfold do_fast_checks. pres.
Qed.

Lemma preserves_law_on_measurement (vbus : float) (i : Iph_ABC_t) (ts : Z) :
  preserves R (law_on_measurement vbus i ts).
Proof. unfold law_on_measurement. pres. Qed.

Lemma preserves_law_get_output (ts : Z) : preserves R (law_get_output ts).
Proof. unfold law_get_output. pres. Qed.

Lemma preserves_current_sense_step (i : Iph_ABC_t) (valid : bool) :
  preserves R (current_sense_step i valid).
Proof.
  pose proof preserves_disarm_with_error. pose proof preserves_do_fast_checks.
  pose proof preserves_law_on_measurement.
  unfold current_sense_step. pres.
Qed.

Lemma preserves_pwm_update_step : preserves R pwm_update_step.
Proof.
  pose proof preserves_disarm_with_error. pose proof preserves_law_get_output.
  pose proof preserves_apply_pwm_timings. pose proof preserves_tim_read.
  unfold pwm_update_step, update_brake_current, log_timing. pres.
Qed.

Lemma preserves_dc_calib_step (i : Iph_ABC_t) (valid : bool) :
  (forall m dc since, R m (set_dc_calib_running_since_ since (set_DC_calib_ dc m))) ->
  preserves R (dc_calib_step i valid).
Proof. intros Hdc. unfold dc_calib_step, log_timing. pres. Qed.

Lemma preserves_tim_update_cb (a b c : Z) :
  (forall m dc since, R m (set_dc_calib_running_since_ since (set_DC_calib_ dc m))) ->
  preserves R (tim_update_cb a b c).
Proof.
  intros Hdc.
  pose proof preserves_disarm_with_error. pose proof preserves_tim_read.
  pose proof preserves_apply_pwm_timings. pose proof preserves_sense_current.
  pose proof (fun i v => preserves_dc_calib_step i v Hdc).
  pose proof preserves_current_sense_step. pose proof preserves_pwm_update_step.
  unfold tim_update_cb, log_timing. pres.
Qed.

End Frames.

(** *** The measurement control laws *)

(** The test voltage of the resistance law after the integration step of
    [on_measurement]. *)
Definition integrated_test_voltage (Ialpha : float) (r : RLaw.t) : float :=
  RLaw.test_voltage_ r
  +! (RLaw.kI *! current_meas_period) *! (RLaw.test_current_ r -! Ialpha).

(** A number that is neither zero, nor infinite, nor NaN. *)
Definition finite_nonzero (x : float) : bool :=
  match x with S754_finite _ _ _ => true | _ => false end.

Definition isinf (x : float) : bool :=
  match x with S754_infinity _ => true | _ => false end.

Lemma integrated_test_voltage_nan (r : RLaw.t) :
  integrated_test_voltage F32.NAN r = F32.NAN.
Proof.
  unfold integrated_test_voltage.
  assert (H1 : RLaw.test_current_ r -! F32.NAN = F32.NAN)
    by (destruct (RLaw.test_current_ r); reflexivity).
  rewrite H1.
  assert (H2 : (RLaw.kI *! current_meas_period) *! F32.NAN = F32.NAN)
    by (destruct (RLaw.kI *! current_meas_period); reflexivity).
  rewrite H2. destruct (RLaw.test_voltage_ r); reflexivity.
Qed.

Lemma integrated_test_voltage_infinite (Ialpha : float) (r : RLaw.t) :
  isinf Ialpha = true ->
  F32.isfinite (RLaw.test_current_ r) = true ->
  F32.isfinite (RLaw.test_voltage_ r) = true ->
  finite_nonzero (RLaw.kI *! current_meas_period) = true ->
  isinf (integrated_test_voltage Ialpha r) = true.
Proof.
  unfold integrated_test_voltage.
  destruct Ialpha as [| s | |]; try discriminate. intros _.
  destruct (RLaw.test_current_ r) as [s1| | |s1 m1 e1]; try discriminate; intros _;
    destruct (RLaw.test_voltage_ r) as [s2| | |s2 m2 e2]; try discriminate; intros _;
    destruct (RLaw.kI *! current_meas_period) as [| | |s3 m3 e3]; try discriminate;
    intros _; destruct s, s3; reflexivity.
Qed.

Lemma gtb_abs_infinite (x cap : float) :
  isinf x = true -> F32.isfinite cap = true -> F32.gtb (F32.abs x) cap = true.
Proof.
  destruct x as [| sx | |]; try discriminate. intros _.
  destruct cap as [s| | |s m e]; try discriminate; intros _; reflexivity.
Qed.

Lemma resistance_on_measurement_error
    (vbus Ialpha Ibeta : float) (input_timestamp : Z) (r : RLaw.t) :
  fst (RLaw.on_measurement board vbus Ialpha Ibeta input_timestamp r)
  = if F32.gtb (F32.abs (integrated_test_voltage Ialpha r)) (RLaw.max_voltage_ r)
    then ERROR_PHASE_RESISTANCE_OUT_OF_RANGE
    else if F32.isnan vbus then ERROR_UNKNOWN_VBUS_VOLTAGE else ERROR_NONE.
Proof.
  unfold RLaw.on_measurement, integrated_test_voltage.
  cbn [RLaw.test_voltage_ RLaw.max_voltage_ RLaw.set_test_voltage_].
  destruct (F32.gtb _ _); [reflexivity|].
  destruct (F32.isnan vbus); reflexivity.
Qed.

(** C5 (as amended).  The inductance law's [on_measurement] returns the
    unknown-bus-voltage error when the bus voltage or the alpha current is
    NaN, and no error for every other pair of arguments, infinite ones
    included.  The resistance law's [on_measurement] returns an error
    whenever the bus voltage is NaN; for every other bus voltage, infinite
    or not, it returns the out-of-range error when the integrated test
    voltage exceeds the cap in magnitude and no error otherwise.  It does
    not test the alpha current: a NaN alpha current never trips the cap, so
    with a bus voltage that is not NaN it gets no error, while an infinite
    alpha current drives the integrated voltage to infinity and is rejected
    by a finite cap. *)
Theorem on_measurement_nan_is_an_error
    (vbus Ialpha Ibeta : float) (input_timestamp : Z) (r : RLaw.t) (l : LLaw.t) :
  let inductance := fst (LLaw.on_measurement board vbus Ialpha Ibeta input_timestamp l) in
  let resistance := fst (RLaw.on_measurement board vbus Ialpha Ibeta input_timestamp r) in
  let over_cap := F32.gtb (F32.abs (integrated_test_voltage Ialpha r))
                    (RLaw.max_voltage_ r) in
  (F32.isnan vbus = true \/ F32.isnan Ialpha = true ->
   inductance = ERROR_UNKNOWN_VBUS_VOLTAGE) /\
  (F32.isnan vbus = false -> F32.isnan Ialpha = false -> inductance = ERROR_NONE) /\
  (F32.isnan vbus = true -> resistance <> ERROR_NONE) /\
  (F32.isnan vbus = false ->
   resistance = if over_cap then ERROR_PHASE_RESISTANCE_OUT_OF_RANGE else ERROR_NONE) /\
  (F32.isnan Ialpha = true -> F32.isnan vbus = false -> resistance = ERROR_NONE) /\
  (isinf Ialpha = true ->
   F32.isfinite (RLaw.test_current_ r) = true ->
   F32.isfinite (RLaw.test_voltage_ r) = true ->
   F32.isfinite (RLaw.max_voltage_ r) = true ->
   finite_nonzero (RLaw.kI *! current_meas_period) = true ->
   resistance = ERROR_PHASE_RESISTANCE_OUT_OF_RANGE).
Proof.
  intros inductance resistance over_cap. subst inductance resistance over_cap.
  rewrite resistance_on_measurement_error.
  split; [|split; [|split; [|split; [|split]]]].
  - intros H. unfold LLaw.on_measurement.
    destruct H as [H|H]; rewrite H; rewrite ?orb_true_r; reflexivity.
  - intros Hv Ha. unfold LLaw.on_measurement. rewrite Hv, Ha. reflexivity.
  - intros Hv. rewrite Hv. destruct (F32.gtb _ _); discriminate.
  - intros Hv. rewrite Hv. reflexivity.
  - intros Ha Hv. destruct Ialpha; try discriminate Ha.
    change S754_nan with F32.NAN. rewrite integrated_test_voltage_nan, Hv.
    destruct (RLaw.max_voltage_ r); reflexivity.
  - intros Hi Hc Ht Hm Hg.
    rewrite gtb_abs_infinite; [reflexivity| |exact Hm].
    apply integrated_test_voltage_infinite; assumption.
Qed.

(** *** Arm *)

(** C8 (as amended).  [arm] returns true in every state and for every
    argument; it leaves the error flags and the brake-resistor flag alone, and
    afterwards the motor is armed exactly when it was armed before or the
    brake resistor is armed.  On a motor that was disarmed the armed flag
    therefore ends equal to [brake_resistor_armed]. *)
Theorem arm_returns_true_and_arms_iff_brake_resistor (w : World) (control_law : option LawRef) :
  let w' := exec (arm control_law) w in
  retval (arm control_law) w = true /\
  is_armed_ (motor w') = is_armed_ (motor w) || brake_resistor_armed w /\
  (is_armed_ (motor w) = false -> is_armed_ (motor w') = brake_resistor_armed w') /\
  brake_resistor_armed w' = brake_resistor_armed w /\
  error_ (motor w') = error_ (motor w) /\
  control_law_ (motor w') = control_law.
Proof.
  unfold arm. unfold_m.
  destruct control_law; simpl; destruct (brake_resistor_armed w) eqn:E; simpl;
    rewrite ?E, ?orb_true_r, ?orb_false_r; repeat split; auto; intros ->; auto.
Qed.

(** *** Disarm *)

(** C3 (what the code does).  [disarm] disables the gate driver only when the
    motor was armed, but it calls [update_brake_current] once after the critical
    section in every case, also on a motor that was already disarmed: the
    guard tests the pointer, which is never null at that point. *)
Theorem disarm_always_updates_brake_current (w : World) (was_armed : BoolPtr) :
  let w' := exec (disarm was_armed) w in
  trace w' = trace w
             ++ disarm_critical_events (is_armed_ (motor w)) (BDTR (tim w))
             ++ [EvUpdateBrakeCurrent] /\
  is_armed_ (motor w') = false /\
  control_law_ (motor w') = None.
Proof.
  unfold disarm, disarm_critical_events. unfold_m.
  destruct was_armed; simpl; destruct (is_armed_ (motor w)); simpl;
    norm_trace; auto.
Qed.

(** *** The PWM commit protocol *)

(** C1.  Whenever the update flag is set in the status register when
    [apply_pwm_timings] checks it, the call ends with the three compare
    registers holding the given timings and with the motor disarmed, the
    deadline-missed error recorded and the automatic and master output
    enables cleared, whatever the timings and the tentative flag.  In program
    order the three compare writes come first, then the read of the status
    register, then the disarm; nothing but BDTR is written after the compare
    registers. *)
Theorem apply_pwm_timings_latch_disarms (w : World) (t0 t1 t2 : Z) (tentative : bool) :
  Z.land (SR (tim w)) TIM_FLAG_UPDATE = TIM_FLAG_UPDATE ->
  let w' := exec (apply_pwm_timings (t0, t1, t2) tentative) w in
  (CCR1 (tim w') = t0 /\ CCR2 (tim w') = t1 /\ CCR3 (tim w') = t2) /\
  is_armed_ (motor w') = false /\
  has_error (error_ (motor w')) ERROR_CONTROL_DEADLINE_MISSED /\
  Z.land (BDTR (tim w')) TIM_BDTR_AOE = 0 /\
  Z.land (BDTR (tim w')) TIM_BDTR_MOE = 0 /\
  exists pre mid armed bdtr,
    trace w' = trace w ++ pre
               ++ [EvWrite R_CCR1 t0; EvWrite R_CCR2 t1; EvWrite R_CCR3 t2]
               ++ mid
               ++ [EvRead R_SR (SR (tim w))]
               ++ disarm_critical_events armed bdtr
               ++ [EvUpdateBrakeCurrent; EvUpdateBrakeCurrent; EvCriticalExit] /\
    (forall r v, In (EvWrite r v) mid -> r = R_BDTR) /\
    ~ In EvUpdateBrakeCurrent mid.
Proof.
  intros Hflag w'. subst w'.
  assert (Haoe : forall x, Z.land (clear_bits (clear_bits x TIM_BDTR_AOE) TIM_BDTR_MOE)
                             TIM_BDTR_AOE = 0).
  { intros x. apply clear_bits_keeps_clear, clear_bits_land. reflexivity. }
  assert (Hmoe : forall x, Z.land (clear_bits x TIM_BDTR_MOE) TIM_BDTR_MOE = 0).
  { intros x. apply clear_bits_land. reflexivity. }
  destruct w as [m t l bra vbus rs flux ready fault tr].
  destruct m as [armed cl err cfg dc since meas leak ibus lim maxdc gain cond mask cd ts].
  destruct t as [cr1 sr bdtr c1 c2 c3].
  cbn in Hflag.
  assert (Hb : (Z.land sr 1 =? 1) = true) by (apply Z.eqb_eq; exact Hflag).
  unfold apply_pwm_timings, disarm_with_error, disarm, has_error, disarm_critical_events.
  unfold_m. unfold TIM_FLAG_UPDATE in *. cbn.
  repeat (case_if; cbn); try discriminate Hb;
    (split; [auto|]); (split; [reflexivity|]);
    (split; [apply land_lor_same|]); (split; [apply Haoe|]); (split; [apply Hmoe|]);
    norm_trace.
  all: first
    [ exists [EvCriticalEnter], [], true, bdtr;
      split; [reflexivity|split; [intros r v []|intros []]]
    | exists [EvCriticalEnter], [], false, bdtr;
      split; [reflexivity|split; [intros r v []|intros []]]
    | exists [EvCriticalEnter],
        [EvRead R_BDTR bdtr; EvWrite R_BDTR (Z.lor bdtr TIM_BDTR_AOE)],
        true, (Z.lor bdtr TIM_BDTR_AOE);
      split; [reflexivity|];
      split; [intros r v [H|[H|[]]]; congruence|intros [H|[H|[]]]; discriminate]
    | exists (EvCriticalEnter :: disarm_critical_events true bdtr
                ++ [EvUpdateBrakeCurrent; EvUpdateBrakeCurrent]), [], false,
        (clear_bits (clear_bits bdtr TIM_BDTR_AOE) TIM_BDTR_MOE);
      split; [reflexivity|split; [intros r v []|intros []]]
    | exists (EvCriticalEnter :: disarm_critical_events false bdtr
                ++ [EvUpdateBrakeCurrent; EvUpdateBrakeCurrent]), [], false,
        (clear_bits (clear_bits bdtr TIM_BDTR_AOE) TIM_BDTR_MOE);
      split; [reflexivity|split; [intros r v []|intros []]] ].
Qed.

(** *** The interrupt handler: a missed update *)

Lemma tim_update_cb_missed (w : World) (adc_a adc_b adc_c : Z) :
  counting_down_ (motor w) = negb (Z.land (CR1 (tim w)) TIM_CR1_DIR =? 0) ->
  exec (tim_update_cb adc_a adc_b adc_c) w =
  faulted ERROR_TIMER_UPDATE_MISSED
    (set_trace (trace w ++ [EvRead R_CR1 (CR1 (tim w))])
       (set_motor
          (set_last_update_timestamp_
             (wrap32 (last_update_timestamp_ (motor w) + period_clocks)) (motor w)) w)).
Proof.
  intros H. unfold tim_update_cb.
  rewrite exec_bind, exec_bind, retval_tim_read, exec_tim_read, exec_bind, retval_gets.
  rewrite !exec_modify_motor, exec_gets. fields.
  rewrite <- H. rewrite Bool.eqb_reflx.
  rewrite disarm_with_error_exec. reflexivity.
Qed.

(** C4.  When the direction bit read from the timer equals the stored
    [counting_down_], [tim_update_cb] only advances the timestamp and
    disarms with the timer-update-missed error: the measured current, the
    DC calibration, the leak and bus current estimates, the configuration,
    the control-law object and the compare registers are unchanged, and the
    trace holds the read of CR1 followed by the events of the disarm,
    with no compare-register write, no control-law call, no safety check
    and no timing log. *)
Theorem tim_update_cb_missed_update_returns_early (w : World) (adc_a adc_b adc_c : Z) :
  counting_down_ (motor w) = negb (Z.land (CR1 (tim w)) TIM_CR1_DIR =? 0) ->
  let w' := exec (tim_update_cb adc_a adc_b adc_c) w in
  has_error (error_ (motor w')) ERROR_TIMER_UPDATE_MISSED /\
  is_armed_ (motor w') = false /\
  current_meas_ (motor w') = current_meas_ (motor w) /\
  DC_calib_ (motor w') = DC_calib_ (motor w) /\
  dc_calib_running_since_ (motor w') = dc_calib_running_since_ (motor w) /\
  I_leak_ (motor w') = I_leak_ (motor w) /\
  I_bus_ (motor w') = I_bus_ (motor w) /\
  config_ (motor w') = config_ (motor w) /\
  counting_down_ (motor w') = counting_down_ (motor w) /\
  law w' = law w /\
  (CCR1 (tim w'), CCR2 (tim w'), CCR3 (tim w'))
    = (CCR1 (tim w), CCR2 (tim w), CCR3 (tim w)) /\
  trace w' = trace w
             ++ [EvRead R_CR1 (CR1 (tim w))]
             ++ disarm_critical_events (is_armed_ (motor w)) (BDTR (tim w))
             ++ [EvUpdateBrakeCurrent; EvUpdateBrakeCurrent].
Proof.
  intros H w'. subst w'. rewrite (tim_update_cb_missed _ _ _ _ H).
  unfold faulted, disarmed, has_error. fields.
  repeat split; try reflexivity.
  - apply land_lor_same.
  - repeat rewrite <- app_assoc. reflexivity.
Qed.

(** *** The current sensing pipeline *)

(** Fields agree between two states of the motor. *)
Definition same {X} (f : Motor -> X) (m m' : Motor) : Prop := f m' = f m.

Ltac same_frame := unfold same; intros; first [reflexivity | congruence].

(** Whether a raw sample is the sentinel or gets replaced by it. *)
Definition adc_unavailable (adc : Z) : bool :=
  (adc =? ADC_UNAVAILABLE)
  || (adc <? CURRENT_ADC_LOWER_BOUND) || (adc >? CURRENT_ADC_UPPER_BOUND).

(** The per-phase conversion of the three samples, before any reconstruction. *)
Definition raw_current (m : Motor) (adc_a adc_b adc_c : Z) : Iph_ABC_t :=
  {| phA := if adc_unavailable adc_a then F32.NAN else phase_current_from_adcval m adc_a;
     phB := if adc_unavailable adc_b then F32.NAN else phase_current_from_adcval m adc_b;
     phC := if adc_unavailable adc_c then F32.NAN else phase_current_from_adcval m adc_c |}.

Definition measured_current (m : Motor) (adc_a adc_b adc_c : Z) : Iph_ABC_t :=
  infer_missing_current (current_sensor_mask_ m) (raw_current m adc_a adc_b adc_c).

Definition current_is_valid (i : Iph_ABC_t) : bool :=
  negb (F32.isnan (phA i)) && negb (F32.isnan (phB i)) && negb (F32.isnan (phC i)).

(** The fields the conversion reads. *)
Definition sensor_fields (m : Motor) : float * float * Z :=
  (phase_current_rev_gain_ m, shunt_conductance_ m, current_sensor_mask_ m).

Lemma retval_check_adc_range (adc : Z) (w : World) :
  retval (check_adc_range adc) w
  = if adc_unavailable adc then ADC_UNAVAILABLE else adc.
Proof.
  unfold check_adc_range, adc_unavailable.
  destruct (adc =? ADC_UNAVAILABLE) eqn:E; cbn [negb andb orb].
  - apply Z.eqb_eq in E. rewrite retval_ret. exact E.
  - destruct (_ || _); [rewrite retval_bind|]; reflexivity.
Qed.

Lemma adc_to_current_checked (m m' : Motor) (adc : Z) :
  same sensor_fields m m' ->
  adc_to_current m' (if adc_unavailable adc then ADC_UNAVAILABLE else adc)
  = if adc_unavailable adc then F32.NAN else phase_current_from_adcval m adc.
Proof.
  unfold same, sensor_fields. intros H. injection H as Hg Hc Hm.
  unfold adc_to_current, adc_unavailable.
  destruct (adc =? ADC_UNAVAILABLE) eqn:E; cbn [orb].
  - reflexivity.
  - destruct (_ || _); cbn [negb].
    + reflexivity.
    + rewrite E. cbn [negb]. unfold phase_current_from_adcval.
      rewrite Hg, Hc. reflexivity.
Qed.

Lemma retval_sense_current (adc_a adc_b adc_c : Z) (w : World) :
  retval (sense_current adc_a adc_b adc_c) w
  = (measured_current (motor w) adc_a adc_b adc_c,
     current_is_valid (measured_current (motor w) adc_a adc_b adc_c)).
Proof.
  unfold sense_current.
  rewrite retval_bind, retval_check_adc_range.
  rewrite retval_bind, retval_check_adc_range.
  rewrite retval_bind, retval_check_adc_range.
  rewrite retval_bind, retval_gets, exec_gets, retval_bind, retval_ret.
  assert (H : same sensor_fields (motor w)
                (motor (exec (check_adc_range adc_c)
                         (exec (check_adc_range adc_b)
                            (exec (check_adc_range adc_a) w))))).
  { unfold same.
    rewrite (preserves_check_adc_range (same sensor_fields)); [|same_frame..].
    rewrite (preserves_check_adc_range (same sensor_fields)); [|same_frame..].
    rewrite (preserves_check_adc_range (same sensor_fields)); [|same_frame..].
    reflexivity. }
  rewrite !(adc_to_current_checked _ _ _ H).
  unfold same, sensor_fields in H. injection H as _ _ Hm. rewrite Hm.
  reflexivity.
Qed.

(** C10.  Which phase the handler reconstructs depends on the sensor mask
    alone.  With mask 0b110 phase A is minus the sum of B and C, with 0b101
    phase B is minus the sum of C and A, with 0b011 phase C is minus the sum
    of A and B, and the measured current does not depend on the sample of
    the reconstructed phase, available or not; the two other phases are the
    per-phase conversion of their samples, NaN when the sample is
    unavailable.  With
    every other mask nothing is reconstructed: each phase is the per-phase
    conversion of its own sample.  So with all three sensors populated (mask
    0b111) a phase whose sample is the sentinel or was rejected by the range
    check stays NaN and the current is invalid. *)
Theorem full_sensor_mask_never_reconstructs (w : World) (adc_a adc_b adc_c : Z) :
  let m := motor w in
  let mask := current_sensor_mask_ m in
  let a := if adc_unavailable adc_a then F32.NAN else phase_current_from_adcval m adc_a in
  let b := if adc_unavailable adc_b then F32.NAN else phase_current_from_adcval m adc_b in
  let c := if adc_unavailable adc_c then F32.NAN else phase_current_from_adcval m adc_c in
  let sensed := retval (sense_current adc_a adc_b adc_c) w in
  (mask = 6 ->
   fst sensed = {| phA := F32.neg (b +! c); phB := b; phC := c |} /\
   forall other, fst (retval (sense_current other adc_b adc_c) w) = fst sensed) /\
  (mask = 5 ->
   fst sensed = {| phA := a; phB := F32.neg (c +! a); phC := c |} /\
   forall other, fst (retval (sense_current adc_a other adc_c) w) = fst sensed) /\
  (mask = 3 ->
   fst sensed = {| phA := a; phB := b; phC := F32.neg (a +! b) |} /\
   forall other, fst (retval (sense_current adc_a adc_b other) w) = fst sensed) /\
  (mask <> 6 -> mask <> 5 -> mask <> 3 ->
   fst sensed = {| phA := a; phB := b; phC := c |} /\
   (adc_unavailable adc_a || adc_unavailable adc_b || adc_unavailable adc_c = true ->
    snd sensed = false)) /\
  (mask = 7 ->
   adc_unavailable adc_a || adc_unavailable adc_b || adc_unavailable adc_c = true ->
   fst sensed = raw_current m adc_a adc_b adc_c /\ snd sensed = false) /\
  snd sensed = negb (F32.isnan (phA (fst sensed)))
               && negb (F32.isnan (phB (fst sensed)))
               && negb (F32.isnan (phC (fst sensed))).
Proof.
  intros m mask a b c sensed.
  assert (Hs : forall x y z,
            retval (sense_current x y z) w
            = (measured_current m x y z, current_is_valid (measured_current m x y z)))
    by (intros; apply retval_sense_current).
  assert (Hun : adc_unavailable adc_a || adc_unavailable adc_b || adc_unavailable adc_c
                = true ->
                current_is_valid {| phA := a; phB := b; phC := c |} = false).
  { subst a b c. unfold current_is_valid. cbn [phA phB phC].
    destruct (adc_unavailable adc_a); [reflexivity|].
    destruct (adc_unavailable adc_b);
      [cbn [F32.isnan F32.NAN negb]; rewrite andb_false_r; reflexivity|].
    destruct (adc_unavailable adc_c);
      [cbn [F32.isnan F32.NAN negb]; intros _; apply andb_false_r|].
    discriminate. }
  assert (Hnone : mask <> 6 -> mask <> 5 -> mask <> 3 ->
                  infer_missing_current mask {| phA := a; phB := b; phC := c |}
                  = {| phA := a; phB := b; phC := c |}).
  { intros H6 H5 H3. unfold infer_missing_current.
    destruct (Z.eqb_spec mask 6); [contradiction|].
    destruct (Z.eqb_spec mask 5); [contradiction|].
    destruct (Z.eqb_spec mask 3); [contradiction|]. reflexivity. }
  subst sensed. rewrite Hs. cbn [fst snd].
  unfold measured_current, raw_current. fold mask a b c.
  split; [|split; [|split; [|split; [|split]]]].
  - intros Hmask. rewrite Hmask. split; [reflexivity|].
    intros other. rewrite Hs. cbn [fst]. unfold measured_current, raw_current.
    fold mask b c. rewrite Hmask. reflexivity.
  - intros Hmask. rewrite Hmask. split; [reflexivity|].
    intros other. rewrite Hs. cbn [fst]. unfold measured_current, raw_current.
    fold mask a c. rewrite Hmask. reflexivity.
  - intros Hmask. rewrite Hmask. split; [reflexivity|].
    intros other. rewrite Hs. cbn [fst]. unfold measured_current, raw_current.
    fold mask a b. rewrite Hmask. reflexivity.
  - intros H6 H5 H3. rewrite (Hnone H6 H5 H3). split; [reflexivity|exact Hun].
  - intros Hmask Hsome. rewrite Hmask. split; [reflexivity|exact (Hun Hsome)].
  - reflexivity.
Qed.

(** *** The DC-offset calibration *)

(** The filter a valid calibration sample applies to the offsets. *)
Definition filtered_DC_calib (m : Motor) (current : Iph_ABC_t) : Iph_ABC_t :=
  let k := F32.min (F32.of_Z 2 *! interrupt_period /! dc_calib_tau (config_ m))
                   (F32.of_Z 1) in
  {| phA := phA (DC_calib_ m) +! (phA current -! phA (DC_calib_ m)) *! k;
     phB := phB (DC_calib_ m) +! (phB current -! phB (DC_calib_ m)) *! k;
     phC := phC (DC_calib_ m) +! (phC current -! phC (DC_calib_ m)) *! k |}.

(** The fields the calibration step reads and writes. *)
Definition calib_fields (m : Motor) : Config_t * Iph_ABC_t * float :=
  (config_ m, DC_calib_ m, dc_calib_running_since_ m).

(** The world in which a counting-down cycle reaches its sensing step. *)
Definition counting_down_entry (w : World) : World :=
  exec (apply_pwm_timings
          (wrap16 (TIM_1_8_PERIOD_CLOCKS / 2), wrap16 (TIM_1_8_PERIOD_CLOCKS / 2),
           wrap16 (TIM_1_8_PERIOD_CLOCKS / 2)) true)
    (exec (log_timing TIMING_LOG_UPDATE_START)
       (set_motor
          (set_counting_down_ true
             (set_last_update_timestamp_
                (wrap32 (last_update_timestamp_ (motor w) + period_clocks)) (motor w)))
          (set_trace (trace w ++ [EvRead R_CR1 (CR1 (tim w))]) w))).

Lemma tim_update_cb_counting_down (w : World) (adc_a adc_b adc_c : Z) :
  counting_down_ (motor w) = false ->
  (Z.land (CR1 (tim w)) TIM_CR1_DIR =? 0) = false ->
  let w3 := counting_down_entry w in
  let current := measured_current (motor w3) adc_a adc_b adc_c in
  exec (tim_update_cb adc_a adc_b adc_c) w =
  exec pwm_update_step
    (exec (dc_calib_step current (current_is_valid current))
       (exec (sense_current adc_a adc_b adc_c) w3)).
Proof.
  intros Hprev Hdir w3 current. unfold tim_update_cb.
  rewrite exec_bind, exec_bind, retval_tim_read, exec_tim_read, exec_bind, retval_gets.
  rewrite !exec_modify_motor, exec_gets. fields.
  rewrite Hprev, Hdir. cbn [negb eqb].
  rewrite exec_bind, exec_modify_motor, exec_bind, exec_bind, retval_gets.
  unfold log_timing. rewrite !exec_emit, exec_gets. fields.
  unfold when. cbn [negb]. cbv iota.
  rewrite exec_bind, exec_bind, retval_sense_current. cbv iota.
  rewrite exec_bind, exec_bind, exec_ret.
  reflexivity.
Qed.
Lemma measured_current_same (m m' : Motor) (adc_a adc_b adc_c : Z) :
  same sensor_fields m m' ->
  measured_current m' adc_a adc_b adc_c = measured_current m adc_a adc_b adc_c.
Proof.
  unfold same, sensor_fields. intros H. injection H as Hg Hc Hm.
  unfold measured_current, raw_current, phase_current_from_adcval.
  rewrite Hg, Hc, Hm. reflexivity.
Qed.

Lemma counting_down_entry_same {X} (f : Motor -> X) (w : World) :
  (forall m, f (set_control_law_ None (set_is_armed_ false m)) = f m) ->
  (forall m e, f (set_control_law_ None (set_is_armed_ false (set_error_ e m))) = f m) ->
  (forall m v, f (set_last_update_timestamp_ v m) = f m) ->
  (forall m v, f (set_counting_down_ v m) = f m) ->
  f (motor (counting_down_entry w)) = f (motor w).
Proof.
  intros H1 H2 H3 H4. unfold counting_down_entry.
  rewrite (preserves_apply_pwm_timings (same f)); [|same_frame..].
  unfold log_timing. rewrite exec_emit. fields. rewrite H4, H3. reflexivity.
Qed.

(** The world in which a counting-up cycle reaches its sensing step. *)
Definition counting_up_entry (w : World) : World :=
  exec (log_timing TIMING_LOG_UPDATE_START)
    (set_motor
       (set_counting_down_ false
          (set_last_update_timestamp_
             (wrap32 (last_update_timestamp_ (motor w) + period_clocks)) (motor w)))
       (set_trace (trace w ++ [EvRead R_CR1 (CR1 (tim w))]) w)).

Lemma tim_update_cb_counting_up (w : World) (adc_a adc_b adc_c : Z) :
  counting_down_ (motor w) = true ->
  (Z.land (CR1 (tim w)) TIM_CR1_DIR =? 0) = true ->
  let w3 := counting_up_entry w in
  let current := measured_current (motor w3) adc_a adc_b adc_c in
  exec (tim_update_cb adc_a adc_b adc_c) w =
  exec (current_sense_step current (current_is_valid current))
    (exec (sense_current adc_a adc_b adc_c) w3).
Proof.
  intros Hprev Hdir w3 current. unfold tim_update_cb.
  rewrite exec_bind, exec_bind, retval_tim_read, exec_tim_read, exec_bind, retval_gets.
  rewrite !exec_modify_motor, exec_gets. fields.
  rewrite Hprev, Hdir. cbn [negb eqb].
  rewrite exec_bind, exec_modify_motor, exec_bind, exec_bind, retval_gets.
  unfold log_timing. rewrite !exec_emit, exec_gets. fields.
  unfold when. cbn [negb]. cbv iota.
  rewrite exec_bind, exec_ret, exec_bind, retval_sense_current. cbv iota.
  rewrite exec_bind, exec_ret, exec_bind, exec_ret.
  reflexivity.
Qed.

(** C6 (as amended).  The offsets and the elapsed calibration time are
    written on the cycles of the DC-calibration half only.  On a cycle in
    which the counter direction changed to counting down they end the cycle
    reset to zero when the measured current is invalid (some phase NaN), and
    low-pass updated with gain [min(2 * interrupt_period / dc_calib_tau, 1)],
    the time advanced by [2 * interrupt_period], when it is valid.  On a
    cycle in which the direction changed to counting up (the current-sense
    half) and on a missed update they are left as they were, whether the
    current is valid or not. *)
Theorem dc_calib_update_on_calibration_cycle (w : World) (adc_a adc_b adc_c : Z) :
  let counting_down := negb (Z.land (CR1 (tim w)) TIM_CR1_DIR =? 0) in
  let current := measured_current (motor w) adc_a adc_b adc_c in
  let w' := exec (tim_update_cb adc_a adc_b adc_c) w in
  (counting_down_ (motor w) = false -> counting_down = true ->
   (current_is_valid current = false ->
    DC_calib_ (motor w') = zero_current /\
    dc_calib_running_since_ (motor w') = F32.zero) /\
   (current_is_valid current = true ->
    DC_calib_ (motor w') = filtered_DC_calib (motor w) current /\
    dc_calib_running_since_ (motor w')
      = dc_calib_running_since_ (motor w) +! F32.of_Z 2 *! interrupt_period)) /\
  (counting_down_ (motor w) = true -> counting_down = false ->
   DC_calib_ (motor w') = DC_calib_ (motor w) /\
   dc_calib_running_since_ (motor w') = dc_calib_running_since_ (motor w)) /\
  (counting_down_ (motor w) = counting_down ->
   DC_calib_ (motor w') = DC_calib_ (motor w) /\
   dc_calib_running_since_ (motor w') = dc_calib_running_since_ (motor w)).
Proof.
  intros counting_down current w'. subst counting_down current w'.
  split; [|split].
  - intros Hprev Hdir. apply negb_true_iff in Hdir.
    rewrite (tim_update_cb_counting_down _ _ _ _ Hprev Hdir).
    assert (Hs : measured_current (motor (counting_down_entry w)) adc_a adc_b adc_c
                 = measured_current (motor w) adc_a adc_b adc_c).
    { apply measured_current_same. unfold same.
      apply counting_down_entry_same; reflexivity. }
    rewrite Hs.
    set (current := measured_current (motor w) adc_a adc_b adc_c).
    assert (Hc : calib_fields
                   (motor (exec (sense_current adc_a adc_b adc_c) (counting_down_entry w)))
                 = calib_fields (motor w)).
    { rewrite (preserves_sense_current (same calib_fields)); [|same_frame..].
      apply counting_down_entry_same; reflexivity. }
    set (w4 := exec (sense_current adc_a adc_b adc_c) (counting_down_entry w)) in *.
    assert (Hp : forall w5, calib_fields (motor (exec pwm_update_step w5))
                            = calib_fields (motor w5)).
    { intros w5.
      rewrite (preserves_pwm_update_step (same calib_fields)); [|same_frame..].
      reflexivity. }
    unfold calib_fields in Hc. injection Hc as Hcfg Hdc Hsince.
    split; intros Hv; rewrite Hv;
      pose proof (Hp (exec (dc_calib_step current (current_is_valid current)) w4)) as H;
      rewrite Hv in H; unfold calib_fields in H; injection H as _ Hdc' Hsince';
      rewrite Hdc', Hsince'.
    + split; reflexivity.
    + unfold filtered_DC_calib, calib_filter_k, dc_calib_period.
      rewrite Hcfg, Hdc, Hsince. split; reflexivity.
  - intros Hprev Hdir. apply negb_false_iff in Hdir.
    rewrite (tim_update_cb_counting_up _ _ _ _ Hprev Hdir). cbv zeta.
    assert (H : calib_fields
                  (motor
                     (exec (current_sense_step
                              (measured_current (motor (counting_up_entry w))
                                 adc_a adc_b adc_c)
                              (current_is_valid
                                 (measured_current (motor (counting_up_entry w))
                                    adc_a adc_b adc_c)))
                        (exec (sense_current adc_a adc_b adc_c) (counting_up_entry w))))
                = calib_fields (motor w)).
    { rewrite (preserves_current_sense_step (same calib_fields)); [|same_frame..].
      rewrite (preserves_sense_current (same calib_fields)); [|same_frame..].
      reflexivity. }
    unfold calib_fields in H. injection H as _ Hdc Hsince.
    split; assumption.
  - intros Hprev. rewrite (tim_update_cb_missed _ _ _ _ Hprev).
    split; reflexivity.
Qed.

(** *** Calibration *)

Section CalibrationProperties.

Variable background : M unit.

(** The world in which [measure_phase_resistance] leaves its wait loop. *)
Definition resistance_loop_exit (test_current max_voltage : float) (w : World) : World :=
  exec (wait_while_armed background 3000)
    (exec (arm (Some law_cell))
       (set_law (ResistanceLaw
          {| RLaw.max_voltage_ := max_voltage; RLaw.test_current_ := test_current;
             RLaw.test_voltage_ := RLaw.test_voltage_ RLaw.init;
             RLaw.test_mod_ := RLaw.test_mod_ RLaw.init |}) w)).

(** The result read back from the local control law in that world. *)
Definition resistance_result (w3 : World) : float :=
  RLaw.get_resistance (retval local_resistance_law w3).

(** The world after the result was stored in the configuration. *)
Definition resistance_stored (w3 : World) : World :=
  set_motor
    (set_config_
       (set_phase_resistance (resistance_result w3) (config_ (motor (disarmed w3))))
       (motor (disarmed w3)))
    (disarmed w3).

(** What the routine does after the wait loop. *)
Definition resistance_finish (w3 : World) : bool * World :=
  if F32.isnan (resistance_result w3)
  then (false, faulted ERROR_PHASE_RESISTANCE_OUT_OF_RANGE (resistance_stored w3))
  else (is_armed_ (motor w3), resistance_stored w3).

(** The same for [measure_phase_inductance]. *)
Definition inductance_loop_exit (test_voltage : float) (w : World) : World :=
  exec (wait_while_armed background 1250)
    (exec (arm (Some law_cell))
       (set_law (InductanceLaw (LLaw.set_test_voltage_ test_voltage LLaw.init)) w)).

Definition inductance_result (w3 : World) : float :=
  LLaw.get_inductance board (retval local_inductance_law w3).

Definition inductance_stored (w3 : World) : World :=
  set_motor
    (set_config_
       (set_phase_inductance (inductance_result w3) (config_ (motor (disarmed w3))))
       (motor (disarmed w3)))
    (disarmed w3).

Definition inductance_in_band (L : float) : bool :=
  F32.geb L (F32.lit 2 1000000) && F32.leb L (F32.lit 4000 1000000).

Definition inductance_finish (w3 : World) : bool * World :=
  if negb (inductance_in_band (inductance_result w3))
  then (false,
        set_motor
          (set_error_
             (Z.lor (error_ (motor (inductance_stored w3)))
                (Error_bit ERROR_PHASE_INDUCTANCE_OUT_OF_RANGE))
             (motor (inductance_stored w3)))
          (inductance_stored w3))
  else (is_armed_ (motor w3), inductance_stored w3).

Ltac name_loop_exit w3 :=
  match goal with
  | |- context [exec (wait_while_armed ?b ?n) ?x] =>
      generalize (exec (wait_while_armed b n) x); intros w3
  end.

Lemma exec_measure_phase_resistance (tc mv : float) (w : World) :
  exec (measure_phase_resistance background tc mv) w =
  snd (resistance_finish (resistance_loop_exit tc mv w)).
Proof.
  unfold measure_phase_resistance, resistance_loop_exit.
  rewrite exec_bind, exec_bind, exec_bind, exec_modify.
  name_loop_exit w3.
  rewrite exec_bind, exec_gets, retval_gets.
  rewrite exec_bind, disarm_exec.
  rewrite exec_bind.
  unfold local_resistance_law at 1 2. rewrite exec_gets, retval_gets.
  rewrite exec_bind, exec_modify_motor.
  rewrite exec_bind, exec_gets, retval_gets.
  unfold resistance_finish, resistance_stored, resistance_result, local_resistance_law.
  rewrite retval_gets.
  change (law (disarmed w3)) with (law w3). fields.
  destruct (F32.isnan _); cbv iota.
  - rewrite exec_bind, disarm_with_error_exec. reflexivity.
  - reflexivity.
Qed.

Lemma retval_measure_phase_resistance (tc mv : float) (w : World) :
  retval (measure_phase_resistance background tc mv) w =
  fst (resistance_finish (resistance_loop_exit tc mv w)).
Proof.
  unfold measure_phase_resistance, resistance_loop_exit.
  rewrite retval_bind, retval_bind, retval_bind, exec_modify.
  name_loop_exit w3.
  rewrite retval_bind, exec_gets, retval_gets.
  rewrite retval_bind, disarm_exec.
  rewrite retval_bind.
  unfold local_resistance_law at 1 2. rewrite exec_gets, retval_gets.
  rewrite retval_bind, exec_modify_motor.
  rewrite retval_bind, exec_gets, retval_gets.
  unfold resistance_finish, resistance_stored, resistance_result, local_resistance_law.
  rewrite retval_gets.
  change (law (disarmed w3)) with (law w3). fields.
  destruct (F32.isnan _); cbv iota.
  - rewrite retval_bind. reflexivity.
  - reflexivity.
Qed.

Lemma exec_measure_phase_inductance (tv : float) (w : World) :
  exec (measure_phase_inductance background tv) w =
  snd (inductance_finish (inductance_loop_exit tv w)).
Proof.
  unfold measure_phase_inductance, inductance_loop_exit.
  rewrite exec_bind, exec_bind, exec_bind, exec_modify.
  name_loop_exit w3.
  rewrite exec_bind, exec_gets, retval_gets.
  rewrite exec_bind, disarm_exec.
  rewrite exec_bind.
  unfold local_inductance_law at 1 2. rewrite exec_gets, retval_gets.
  rewrite exec_bind, exec_modify_motor.
  rewrite exec_bind, exec_gets, retval_gets.
  unfold inductance_finish, inductance_stored, inductance_result,
    inductance_in_band, local_inductance_law.
  rewrite retval_gets.
  change (law (disarmed w3)) with (law w3). fields.
  destruct (negb _); cbv iota.
  - rewrite exec_bind, exec_modify_motor. reflexivity.
  - reflexivity.
Qed.

Lemma retval_measure_phase_inductance (tv : float) (w : World) :
  retval (measure_phase_inductance background tv) w =
  fst (inductance_finish (inductance_loop_exit tv w)).
Proof.
  unfold measure_phase_inductance, inductance_loop_exit.
  rewrite retval_bind, retval_bind, retval_bind, exec_modify.
  name_loop_exit w3.
  rewrite retval_bind, exec_gets, retval_gets.
  rewrite retval_bind, disarm_exec.
  rewrite retval_bind.
  unfold local_inductance_law at 1 2. rewrite exec_gets, retval_gets.
  rewrite retval_bind, exec_modify_motor.
  rewrite retval_bind, exec_gets, retval_gets.
  unfold inductance_finish, inductance_stored, inductance_result,
    inductance_in_band, local_inductance_law.
  rewrite retval_gets.
  change (law (disarmed w3)) with (law w3). fields.
  destruct (negb _); cbv iota.
  - rewrite retval_bind. reflexivity.
  - reflexivity.
Qed.

(** C7 (as amended).  The result of [measure_phase_resistance] is what
    [get_resistance] computes from the local control law when the wait loop
    ends: its test voltage divided by its test current.  Whenever that
    result is NaN the routine returns false, the
    phase-resistance-out-of-range error is set and the motor is disarmed.
    Every other result, an infinite one included, is accepted: the routine
    then returns whether the motor was still armed when the loop ended and
    adds no error. *)
Theorem measure_phase_resistance_nan_fails
    (test_current max_voltage : float) (w : World) :
  let w3 := resistance_loop_exit test_current max_voltage w in
  let control_law := retval local_resistance_law w3 in
  let result := RLaw.test_voltage_ control_law /! RLaw.test_current_ control_law in
  let w' := exec (measure_phase_resistance background test_current max_voltage) w in
  let returned := retval (measure_phase_resistance background test_current max_voltage) w in
  resistance_result w3 = result /\
  (F32.isnan result = true ->
   returned = false /\
   has_error (error_ (motor w')) ERROR_PHASE_RESISTANCE_OUT_OF_RANGE /\
   is_armed_ (motor w') = false) /\
  (F32.isnan result = false ->
   returned = is_armed_ (motor w3) /\
   error_ (motor w') = error_ (motor w3) /\
   phase_resistance (config_ (motor w')) = result).
Proof.
  intros w3 control_law result w' returned. subst w' returned result control_law.
  rewrite exec_measure_phase_resistance, retval_measure_phase_resistance.
  fold w3. generalize w3. clear w3. intros w3.
  split; [reflexivity|].
  change (RLaw.test_voltage_ (retval local_resistance_law w3)
          /! RLaw.test_current_ (retval local_resistance_law w3))
    with (resistance_result w3).
  unfold resistance_finish.
  split; intros E; rewrite E; cbn [fst snd].
  - unfold faulted, disarmed, has_error. fields.
    repeat split. apply land_lor_same.
  - unfold resistance_stored, disarmed. fields. repeat split.
Qed.

(** C9.  Both measurement routines store what the local control law
    reports when the wait loop ends, whatever that value is and whether or
    not the routine then returns true: [config_.phase_resistance] is
    [get_resistance()] and [config_.phase_inductance] is [get_inductance()],
    also on the paths that set an error and return false. *)
Theorem measurement_overwrites_config_unconditionally
    (test_current max_voltage test_voltage : float) (w : World) :
  let wr := exec (measure_phase_resistance background test_current max_voltage) w in
  let wl := exec (measure_phase_inductance background test_voltage) w in
  phase_resistance (config_ (motor wr))
    = resistance_result (resistance_loop_exit test_current max_voltage w) /\
  phase_inductance (config_ (motor wl))
    = inductance_result (inductance_loop_exit test_voltage w) /\
  law wr = law (resistance_loop_exit test_current max_voltage w) /\
  law wl = law (inductance_loop_exit test_voltage w).
Proof.
  intros wr wl. subst wr wl.
  rewrite exec_measure_phase_resistance, exec_measure_phase_inductance.
  generalize (resistance_loop_exit test_current max_voltage w); intros w3.
  generalize (inductance_loop_exit test_voltage w); intros w4.
  unfold resistance_finish, inductance_finish.
  destruct (F32.isnan _), (negb _); cbn [fst snd];
    unfold faulted, resistance_stored, inductance_stored, disarmed; fields;
    repeat split; reflexivity.
Qed.

End CalibrationProperties.

(** *** Error flags and the armed state *)

(** The member functions a caller can invoke. *)
Inductive Call :=
| CallArm (control_law : option LawRef)
| CallDisarm (was_armed : BoolPtr)
| CallDisarmWithError (error : Error)
| CallApplyPwmTimings (timings : Z * Z * Z) (tentative : bool)
| CallDoChecks (timestamp : Z)
| CallTimUpdateCb (adc_a adc_b adc_c : Z)
| CallMeasurePhaseResistance (background : M unit) (test_current max_voltage : float)
| CallMeasurePhaseInductance (background : M unit) (test_voltage : float).

Definition run_call (c : Call) : M unit :=
  match c with
  | CallArm p => bind (arm p) (fun _ => ret tt)
  | CallDisarm p => bind (disarm p) (fun _ => ret tt)
  | CallDisarmWithError e => disarm_with_error e
  | CallApplyPwmTimings t tentative => apply_pwm_timings t tentative
  | CallDoChecks ts => bind (do_checks ts) (fun _ => ret tt)
  | CallTimUpdateCb a b c => tim_update_cb a b c
  | CallMeasurePhaseResistance bg tc mv =>
      bind (measure_phase_resistance bg tc mv) (fun _ => ret tt)
  | CallMeasurePhaseInductance bg tv =>
      bind (measure_phase_inductance bg tv) (fun _ => ret tt)
  end.

(** A motor that is still armed was armed before and kept its error flags. *)
Definition armed_keeps_errors (m m' : Motor) : Prop :=
  is_armed_ m' = true -> is_armed_ m = true /\ error_ m' = error_ m.

Lemma motor_arm (p : option LawRef) (w : World) :
  motor (exec (arm p) w) =
  if brake_resistor_armed w
  then set_is_armed_ true (set_control_law_ p (motor w))
  else set_control_law_ p (motor w).
Proof.
  destruct w as [m t l bra vbus rs flux ready fault tr].
  destruct m as [armed cl err cfg dc since meas leak ibus lim maxdc gain cond mask cd ts].
  cbv -[app].
  destruct p, bra; reflexivity.
Qed.

Lemma still_armed_kept_errors {A} (m : M A) (w : World) :
  preserves armed_keeps_errors m ->
  error_ (motor (exec m w)) <> error_ (motor w) ->
  is_armed_ (motor (exec m w)) = false.
Proof.
  intros Hp Hne. specialize (Hp w). unfold armed_keeps_errors in Hp.
  destruct (is_armed_ (motor (exec m w))); [|reflexivity].
  destruct Hp as [_ He]; [reflexivity|]. contradiction.
Qed.

Ltac armed_frame :=
  unfold armed_keeps_errors; fields; intros;
  first [ discriminate | split; [assumption|reflexivity] | tauto | intuition congruence ].

(** The calibration routines sleep in [osDelay], where the rest of the
    system runs; the other calls do not. *)
Definition sleeps (c : Call) : bool :=
  match c with
  | CallMeasurePhaseResistance _ _ _ => true
  | CallMeasurePhaseInductance _ _ => true
  | _ => false
  end.

(** The world with no error flag pending. *)
Definition clear_errors (w : World) : World :=
  set_motor (set_error_ 0 (motor w)) w.

(** The world with the flags [e] pending on top of its own. *)
Definition with_pending (e : Z) (w : World) : World :=
  set_motor (set_error_ (Z.lor e (error_ (motor w))) (motor w)) w.

(** A computation does not look at the pending flags: started with more
    flags pending it returns the same value and ends in the same world,
    with those flags still pending. *)
Definition ignores_pending {A} (m : M A) : Prop :=
  forall e w, m (with_pending e w) = (retval m w, with_pending e (exec m w)).

Lemma with_pending_clear_errors (w : World) :
  with_pending (error_ (motor w)) (clear_errors w) = w.
Proof.
  destruct w as [m t l bra vbus rs flux ready fault tr].
  destruct m as [armed cl err cfg dc since meas leak ibus lim maxdc gain cond mask cd ts].
  unfold with_pending, clear_errors, set_motor, set_error_. cbn.
  rewrite Z.lor_0_r. reflexivity.
Qed.

Lemma ignores_ret {A} (a : A) : ignores_pending (ret a).
Proof. intros e w. reflexivity. Qed.

Lemma ignores_bind {A B} (m : M A) (k : A -> M B) :
  ignores_pending m -> (forall a, ignores_pending (k a)) -> ignores_pending (bind m k).
Proof.
  intros Hm Hk e w. rewrite retval_bind, exec_bind.
  unfold bind at 1. rewrite Hm. apply Hk.
Qed.

Lemma ignores_when (c : bool) (m : M unit) :
  ignores_pending m -> ignores_pending (when c m).
Proof. intros Hm. destruct c; [exact Hm|apply ignores_ret]. Qed.

Lemma ignores_gets {A} (f : World -> A) :
  (forall e w, f (with_pending e w) = f w) -> ignores_pending (gets f).
Proof. intros H e w. unfold gets, retval, exec. cbn. rewrite H. reflexivity. Qed.

(** A read of the whole motor object, of which the continuation uses
    everything but the flags. *)
Lemma ignores_gets_motor {B} (k : Motor -> M B) :
  (forall x m, k (set_error_ x m) = k m) ->
  (forall m, ignores_pending (k m)) ->
  ignores_pending (bind (gets motor) k).
Proof.
  intros Hk Hi e w. rewrite retval_bind, exec_bind, retval_gets, exec_gets.
  unfold bind, gets.
  change (motor (with_pending e w))
    with (set_error_ (Z.lor e (error_ (motor w))) (motor w)).
  rewrite Hk. apply Hi.
Qed.

Lemma ignores_modify (f : World -> World) :
  (forall e w, f (with_pending e w) = with_pending e (f w)) ->
  ignores_pending (modify f).
Proof. intros H e w. unfold modify, retval, exec. cbn. rewrite H. reflexivity. Qed.

Lemma ignores_modify_motor (f : Motor -> Motor) :
  (forall e m, f (set_error_ (Z.lor e (error_ m)) m)
               = set_error_ (Z.lor e (error_ (f m))) (f m)) ->
  ignores_pending (modify_motor f).
Proof.
  intros H. apply ignores_modify. intros e w.
  unfold with_pending. fields. rewrite H. reflexivity.
Qed.

Lemma ignores_emit (ev : Event) : ignores_pending (emit ev).
Proof. apply ignores_modify. reflexivity. Qed.

Lemma ignores_with_law {A} (f : ControlLaw -> A * ControlLaw) :
  ignores_pending (with_law f).
Proof.
  intros e w. unfold with_law, retval, exec.
  change (law (with_pending e w)) with (law w).
  destruct (f (law w)). reflexivity.
Qed.

Ltac ign :=
  repeat first [ assumption | intros;
    match goal with
    | |- ignores_pending (bind (gets motor) _) =>
        apply ignores_gets_motor; [intros; reflexivity|]
    | |- ignores_pending (bind _ _) => apply ignores_bind
    | |- ignores_pending (ret _) => apply ignores_ret
    | |- ignores_pending (when _ _) => apply ignores_when
    | |- ignores_pending (gets _) => apply ignores_gets; intros; reflexivity
    | |- ignores_pending (emit _) => apply ignores_emit
    | |- ignores_pending (with_law _) => apply ignores_with_law
    | |- ignores_pending (modify_motor _) =>
        apply ignores_modify_motor; intros; reflexivity
    | |- ignores_pending (modify _) => apply ignores_modify; intros; reflexivity
    | |- ignores_pending (if ?c then _ else _) => destruct c
    | |- ignores_pending (match ?x with _ => _ end) => destruct x
    | |- _ => solve [auto]
    end ].

Lemma ignores_tim_read (r : TimReg) : ignores_pending (tim_read r).
Proof. unfold tim_read. ign. Qed.

Lemma ignores_tim_write (r : TimReg) (v : Z) : ignores_pending (tim_write r v).
Proof. unfold tim_write. ign. Qed.

Lemma ignores_disarm (p : BoolPtr) : ignores_pending (disarm p).
Proof.
  pose proof ignores_tim_read. pose proof ignores_tim_write.
  unfold disarm, CRITICAL_SECTION, HAL_TIM_MOE_DISABLE_UNCONDITIONALLY,
    update_brake_current.
  ign.
Qed.

Lemma ignores_disarm_with_error (error : Error) :
  ignores_pending (disarm_with_error error).
Proof.
  pose proof ignores_disarm.
  unfold disarm_with_error, update_brake_current. ign.
  apply ignores_modify_motor. intros e m. unfold set_error_. cbn.
  rewrite Z.lor_assoc. reflexivity.
Qed.

Lemma ignores_arm (p : option LawRef) : ignores_pending (arm p).
Proof. unfold arm, CRITICAL_SECTION, law_reset. ign. Qed.

Lemma ignores_apply_pwm_timings (timings : Z * Z * Z) (tentative : bool) :
  ignores_pending (apply_pwm_timings timings tentative).
Proof.
  pose proof ignores_disarm_with_error. pose proof ignores_tim_write.
  pose proof ignores_tim_read.
  destruct timings as [[t0 t1] t2].
  unfold apply_pwm_timings, CRITICAL_SECTION, HAL_TIM_GET_FLAG. ign.
Qed.

Lemma ignores_do_checks (timestamp : Z) : ignores_pending (do_checks timestamp).
Proof. pose proof ignores_disarm_with_error. unfold do_checks. ign. Qed.

Lemma ignores_check_adc_range (adc : Z) : ignores_pending (check_adc_range adc).
Proof. pose proof ignores_disarm_with_error. unfold check_adc_range. ign. Qed.

Lemma ignores_sense_current (a b c : Z) : ignores_pending (sense_current a b c).
Proof.
  pose proof ignores_check_adc_range.
  unfold sense_current, log_timing. ign.
Qed.

Lemma ignores_dc_calib_step (i : Iph_ABC_t) (valid : bool) :
  ignores_pending (dc_calib_step i valid).
Proof. unfold dc_calib_step, log_timing. ign. Qed.

Lemma ignores_do_fast_checks : ignores_pending do_fast_checks.
Proof. pose proof ignores_disarm. unfold do_fast_checks. ign. Qed.

Lemma ignores_law_on_measurement (vbus : float) (i : Iph_ABC_t) (ts : Z) :
  ignores_pending (law_on_measurement vbus i ts).
Proof. unfold law_on_measurement. ign. Qed.

Lemma ignores_law_get_output (ts : Z) : ignores_pending (law_get_output ts).
Proof. unfold law_get_output. ign. Qed.

Lemma ignores_current_sense_step (i : Iph_ABC_t) (valid : bool) :
  ignores_pending (current_sense_step i valid).
Proof.
  pose proof ignores_disarm_with_error. pose proof ignores_do_fast_checks.
  pose proof ignores_law_on_measurement.
  unfold current_sense_step. apply ignores_bind.
  - apply ignores_modify_motor. intros e m.
    change (dc_calib_valid (set_error_ (Z.lor e (error_ m)) m)) with (dc_calib_valid m).
    destruct (valid && dc_calib_valid m); reflexivity.
  - ign.
Qed.

Lemma ignores_pwm_update_step : ignores_pending pwm_update_step.
Proof.
  pose proof ignores_disarm_with_error. pose proof ignores_law_get_output.
  pose proof ignores_apply_pwm_timings. pose proof ignores_tim_read.
  unfold pwm_update_step, update_brake_current, log_timing. ign.
Qed.

Lemma ignores_tim_update_cb (a b c : Z) : ignores_pending (tim_update_cb a b c).
Proof.
  pose proof ignores_disarm_with_error. pose proof ignores_tim_read.
  pose proof ignores_apply_pwm_timings. pose proof ignores_sense_current.
  pose proof ignores_dc_calib_step. pose proof ignores_current_sense_step.
  pose proof ignores_pwm_update_step.
  unfold tim_update_cb, log_timing. ign.
Qed.

Lemma ignores_run_call (c : Call) : sleeps c = false -> ignores_pending (run_call c).
Proof.
  pose proof ignores_arm. pose proof ignores_disarm.
  pose proof ignores_disarm_with_error. pose proof ignores_apply_pwm_timings.
  pose proof ignores_do_checks. pose proof ignores_tim_update_cb.
  intros Hc. destruct c; try discriminate Hc; unfold run_call; ign.
Qed.


(** A call that changes the flags returns with the motor disarmed. *)
Lemma changed_flags_disarmed (c : Call) (w : World) :
  error_ (motor (exec (run_call c) w)) <> error_ (motor w) ->
  is_armed_ (motor (exec (run_call c) w)) = false.
Proof.
  destruct c; unfold run_call; rewrite ?exec_bind, ?exec_ret.
  - rewrite motor_arm. destruct (brake_resistor_armed w); fields; congruence.
  - intros _. rewrite disarm_exec. reflexivity.
  - intros _. rewrite disarm_with_error_exec. reflexivity.
  - apply still_armed_kept_errors.
    apply preserves_apply_pwm_timings; armed_frame.
  - apply still_armed_kept_errors.
    apply preserves_do_checks; armed_frame.
  - apply still_armed_kept_errors.
    apply preserves_tim_update_cb; armed_frame.
  - intros _. rewrite exec_measure_phase_resistance.
    generalize (resistance_loop_exit background test_current max_voltage w).
    intros w3. unfold resistance_finish.
    destruct (F32.isnan _); reflexivity.
  - intros _. rewrite exec_measure_phase_inductance.
    generalize (inductance_loop_exit background test_voltage w).
    intros w3. unfold inductance_finish.
    destruct (negb _); reflexivity.
Qed.

(** A calibration routine returns with the motor disarmed. *)
Lemma sleeping_call_disarms (c : Call) (w : World) :
  sleeps c = true -> is_armed_ (motor (exec (run_call c) w)) = false.
Proof.
  destruct c; try discriminate; intros _; unfold run_call;
    rewrite exec_bind, exec_ret.
  - rewrite exec_measure_phase_resistance.
    generalize (resistance_loop_exit background test_current max_voltage w).
    intros w3. unfold resistance_finish.
    destruct (F32.isnan _); reflexivity.
  - rewrite exec_measure_phase_inductance.
    generalize (inductance_loop_exit background test_voltage w).
    intros w3. unfold inductance_finish.
    destruct (negb _); reflexivity.
Qed.

(** The run of a call that does not sleep is its run from the state with
    no flag pending, with the pending flags put back. *)
Lemma exec_run_call_pending (c : Call) (w : World) :
  sleeps c = false ->
  exec (run_call c) w
  = with_pending (error_ (motor w)) (exec (run_call c) (clear_errors w)).
Proof.
  intros Hc.
  rewrite <- (with_pending_clear_errors w) at 1.
  unfold exec at 1. rewrite (ignores_run_call c Hc). reflexivity.
Qed.

(** C2 (as amended).  Every write of the error flags is followed by a
    disarm before the call returns.  [disarm_with_error] ors its flag into
    the pending ones and returns with the motor disarmed, also when the flag
    was already pending.  For every call that does not sleep, the run does
    not depend on the pending flags: the final world is the one reached from
    the state with no flag pending, with the pending flags put back; the
    flags the call raises are the ones that run ends with, and whenever it
    raises one, pending before or not, the motor is disarmed on return.  The
    calibration routines, which sleep, always return with the motor
    disarmed.  Hence a call that changes the flags returns with the motor
    disarmed.  [arm] does not look at the error flags: it leaves them as they
    are and arms whenever the brake resistor is armed. *)
Theorem error_write_leaves_motor_disarmed (c : Call) (w : World) :
  let w' := exec (run_call c) w in
  let clean := exec (run_call c) (clear_errors w) in
  let raised := error_ (motor clean) in
  (forall e, c = CallDisarmWithError e ->
     error_ (motor w') = Z.lor (error_ (motor w)) (Error_bit e) /\
     is_armed_ (motor w') = false) /\
  (sleeps c = false ->
     w' = with_pending (error_ (motor w)) clean /\
     error_ (motor w') = Z.lor (error_ (motor w)) raised /\
     (raised <> 0 -> is_armed_ (motor w') = false)) /\
  (sleeps c = true -> is_armed_ (motor w') = false) /\
  (error_ (motor w') <> error_ (motor w) -> is_armed_ (motor w') = false) /\
  (forall p, c = CallArm p ->
     error_ (motor w') = error_ (motor w) /\
     is_armed_ (motor w') = is_armed_ (motor w) || brake_resistor_armed w).
Proof.
  intros w' clean raised. subst w' clean raised.
  split; [|split; [|split; [|split]]].
  - intros e ->. unfold run_call. rewrite disarm_with_error_exec.
    split; reflexivity.
  - intros Hc. rewrite (exec_run_call_pending c w Hc).
    split; [reflexivity|]. split; [reflexivity|].
    intros Hr. unfold with_pending. fields.
    apply changed_flags_disarmed. exact Hr.
  - apply sleeping_call_disarms.
  - apply changed_flags_disarmed.
  - intros p ->. unfold run_call. rewrite exec_bind, exec_ret, motor_arm.
    destruct (brake_resistor_armed w); fields;
      rewrite ?orb_true_r, ?orb_false_r; split; reflexivity.
Qed.

End Properties.

(* ------------------------------------------------------------------ *)
(** ** The properties on concrete runs *)

(** The hypothesis of C1 holds in [latched_world], where a non-tentative
    commit ends with the motor disarmed and the deadline error set. *)
Lemma apply_pwm_timings_latch_disarms_witness :
  let w' := exec (apply_pwm_timings (1000, 1750, 2500) false) latched_world in
  (CCR1 (tim w'), CCR2 (tim w'), CCR3 (tim w')) = (1000, 1750, 2500) /\
  is_armed_ (motor w') = false /\
  has_error (error_ (motor w')) ERROR_CONTROL_DEADLINE_MISSED.
Proof.
  pose proof (apply_pwm_timings_latch_disarms latched_world 1000 1750 2500 false
                eq_refl) as H.
  cbv zeta in H. destruct H as [[H1 [H2 H3]] [H4 [H5 _]]].
  cbv zeta. rewrite H1, H2, H3. auto.
Defined.

(** C2, the claim as stated fails: after a gate-driver fault was recorded by
    [do_checks], [arm] arms the motor although the error flags are still
    set. *)
Lemma arm_with_pending_error_counterexample :
  let w1 := exec (do_checks 0) gate_fault_world in
  let w2 := exec (arm (Some law_cell)) w1 in
  is_armed_ (motor gate_fault_world) = false /\
  error_ (motor gate_fault_world) = 0 /\
  error_ (motor w1) = Error_bit ERROR_DRV_FAULT /\
  is_armed_ (motor w2) = true /\
  error_ (motor w2) <> 0.
Proof. vm_compute. repeat split; discriminate. Qed.

(** The gate driver reports a fault that is already recorded, on a motor
    that was armed again with the flag pending. *)
Definition armed_fault_world : @World example_ext :=
  exec (arm (Some law_cell)) (exec (do_checks 0) gate_fault_world).

(** C2 (as amended) on a fault that is raised again: the gate-driver check
    finds the motor armed with the driver fault pending, leaves the flags as
    they are and disarms. *)
Lemma error_write_leaves_motor_disarmed_witness :
  let c := CallDoChecks 0 in
  let w' := exec (run_call (board := example_board) c) armed_fault_world in
  is_armed_ (motor armed_fault_world) = true /\
  error_ (motor armed_fault_world) = Error_bit ERROR_DRV_FAULT /\
  error_ (motor w') = error_ (motor armed_fault_world) /\
  is_armed_ (motor w') = false.
Proof.
  cbv zeta.
  destruct (error_write_leaves_motor_disarmed (board := example_board)
              (CallDoChecks 0) armed_fault_world) as [_ [H _]].
  destruct (H eq_refl) as [_ [He Ha]].
  split; [reflexivity|]. split; [reflexivity|].
  split; [rewrite He; vm_compute; reflexivity|].
  apply Ha. vm_compute. discriminate.
Defined.

(** C3 at the failing input: [disarm(nullptr)] on a motor that is already
    disarmed still calls [update_brake_current]. *)
Lemma disarm_on_disarmed_motor_updates_brake_current :
  is_armed_ (motor example_world) = false /\
  trace (exec (disarm nullptr) example_world)
  = [EvCriticalEnter; EvRead R_BDTR 0; EvWrite R_BDTR 0; EvRead R_BDTR 0;
     EvWrite R_BDTR 0; EvCriticalExit; EvUpdateBrakeCurrent].
Proof. vm_compute. split; reflexivity. Qed.

(** C4 on a world whose stored direction equals the one read. *)
Lemma tim_update_cb_missed_update_returns_early_witness :
  let w' := exec (tim_update_cb (board := example_board) 2048 2048 2048) example_world in
  counting_down_ (motor example_world)
    = negb (Z.land (CR1 (tim example_world)) TIM_CR1_DIR =? 0) /\
  has_error (error_ (motor w')) ERROR_TIMER_UPDATE_MISSED /\
  trace w' = [EvRead R_CR1 0; EvCriticalEnter; EvRead R_BDTR 0; EvWrite R_BDTR 0;
              EvRead R_BDTR 0; EvWrite R_BDTR 0; EvCriticalExit;
              EvUpdateBrakeCurrent; EvUpdateBrakeCurrent].
Proof.
  pose proof (tim_update_cb_missed_update_returns_early (board := example_board)
                example_world 2048 2048 2048 eq_refl) as H.
  cbv zeta in H. cbv zeta.
  split; [reflexivity|]. split; [apply H|].
  destruct H as (_ & _ & _ & _ & _ & _ & _ & _ & _ & _ & _ & H). exact H.
Defined.

(** C5, the claim as stated fails: an infinite bus voltage is not a finite
    number and the inductance law returns no error, and a NaN alpha current
    with a good bus voltage gets no error from the resistance law. *)
Lemma on_measurement_not_finite_counterexample :
  F32.isfinite (S754_infinity false) = false /\
  fst (LLaw.on_measurement example_board (S754_infinity false) F32.zero F32.zero 0
         LLaw.init) = ERROR_NONE /\
  F32.isfinite F32.NAN = false /\
  fst (RLaw.on_measurement example_board (F32.of_Z 24) F32.NAN F32.zero 0
         RLaw.init) = ERROR_NONE.
Proof. vm_compute. repeat split; reflexivity. Qed.

(** C5 (as amended) at a NaN bus voltage, which both laws reject, and at an
    infinite alpha current, which the inductance law accepts and the
    resistance law rejects through its cap of one volt. *)
Lemma on_measurement_nan_is_an_error_witness :
  let r := {| RLaw.max_voltage_ := F32.of_Z 1; RLaw.test_current_ := F32.of_Z 10;
              RLaw.test_voltage_ := F32.zero; RLaw.test_mod_ := F32.NAN |} in
  fst (LLaw.on_measurement example_board F32.NAN F32.zero F32.zero 0 LLaw.init)
    = ERROR_UNKNOWN_VBUS_VOLTAGE /\
  fst (RLaw.on_measurement example_board F32.NAN F32.zero F32.zero 0 r)
    <> ERROR_NONE /\
  fst (LLaw.on_measurement example_board (F32.of_Z 24) (S754_infinity false)
         F32.zero 0 LLaw.init) = ERROR_NONE /\
  fst (RLaw.on_measurement example_board (F32.of_Z 24) (S754_infinity false)
         F32.zero 0 r) = ERROR_PHASE_RESISTANCE_OUT_OF_RANGE.
Proof.
  cbv zeta.
  match goal with
  | |- _ /\ fst (RLaw.on_measurement _ _ _ _ _ ?r) <> _ /\ _ =>
      destruct (on_measurement_nan_is_an_error (board := example_board)
                  F32.NAN F32.zero F32.zero 0 r LLaw.init) as [H1 [_ [H2 _]]];
      destruct (on_measurement_nan_is_an_error (board := example_board)
                  (F32.of_Z 24) (S754_infinity false) F32.zero 0 r LLaw.init)
        as [_ [H3 [_ [_ [_ H4]]]]]
  end.
  split; [exact (H1 (or_introl eq_refl))|].
  split; [exact (H2 eq_refl)|].
  split; [exact (H3 eq_refl eq_refl)|].
  exact (H4 eq_refl eq_refl eq_refl eq_refl eq_refl).
Defined.

(** C6, the claim as stated fails: on a current-sense (counting-up) cycle
    whose phase A sample is unavailable the current is invalid, the cycle
    runs to its end, and the offsets stay as they were, not zero. *)
Lemma dc_calib_kept_on_sense_cycle_counterexample :
  let w := sense_half_world in
  let w' := exec (tim_update_cb (board := example_board) ADC_UNAVAILABLE 2048 2048) w in
  current_is_valid
    (measured_current (board := example_board) (motor w) ADC_UNAVAILABLE 2048 2048)
    = false /\
  error_ (motor w') = 0 /\
  DC_calib_ (motor w') = DC_calib_ (motor w) /\
  DC_calib_ (motor w') <> zero_current.
Proof. vm_compute. repeat split; discriminate. Qed.

(** C6 (as amended) on a calibration cycle and on a current-sense cycle
    whose phase A sample is unavailable: the offsets, a quarter of an ampere
    before, are reset on the first and kept on the second. *)
Lemma dc_calib_update_on_calibration_cycle_witness :
  let wc := calibration_half_world in
  let wc' := exec (tim_update_cb (board := example_board) ADC_UNAVAILABLE 2048 2048) wc in
  let ws := sense_half_world in
  let ws' := exec (tim_update_cb (board := example_board) ADC_UNAVAILABLE 2048 2048) ws in
  DC_calib_ (motor wc) <> zero_current /\
  DC_calib_ (motor wc') = zero_current /\
  dc_calib_running_since_ (motor wc') = F32.zero /\
  DC_calib_ (motor ws') = DC_calib_ (motor ws) /\
  DC_calib_ (motor ws') <> zero_current.
Proof.
  cbv zeta.
  destruct (dc_calib_update_on_calibration_cycle (board := example_board)
              calibration_half_world ADC_UNAVAILABLE 2048 2048) as [Hc _].
  destruct (dc_calib_update_on_calibration_cycle (board := example_board)
              sense_half_world ADC_UNAVAILABLE 2048 2048) as [_ [Hs _]].
  cbv zeta in Hc, Hs.
  destruct (Hc eq_refl eq_refl) as [Hreset _].
  destruct (Hreset ltac:(vm_compute; reflexivity)) as [H1 H2].
  destruct (Hs eq_refl eq_refl) as [H3 _].
  split; [vm_compute; discriminate|].
  split; [exact H1|]. split; [exact H2|]. split; [exact H3|].
  rewrite H3. vm_compute. discriminate.
Defined.

(** C7, the claim as stated fails: with a zero test current the run below
    ends armed with a nonzero test voltage; the result is minus infinity,
    which is not finite, and the routine returns true with no error set. *)
Lemma measure_phase_resistance_infinite_counterexample :
  let r := measure_phase_resistance example_background F32.zero (F32.of_Z 10)
             calibrated_world in
  phase_resistance (config_ (motor (snd r))) = S754_infinity true /\
  F32.isfinite (phase_resistance (config_ (motor (snd r)))) = false /\
  fst r = true /\
  error_ (motor (snd r)) = 0.
Proof. vm_compute. repeat split; reflexivity. Qed.

(** C7 (as amended) on two runs.  With a cap of 1 mV the test voltage
    goes over the cap, the law reports NaN and the routine fails; with a zero
    test current and a cap of 10 V the result is minus infinity and the
    routine succeeds. *)
Lemma measure_phase_resistance_nan_fails_witness :
  let failing := measure_phase_resistance example_background F32.zero (F32.lit 1 1000) in
  let passing := measure_phase_resistance example_background F32.zero (F32.of_Z 10) in
  F32.isnan (resistance_result
               (resistance_loop_exit example_background
                  F32.zero (F32.lit 1 1000) calibrated_world)) = true /\
  retval failing calibrated_world = false /\
  has_error (error_ (motor (exec failing calibrated_world)))
    ERROR_PHASE_RESISTANCE_OUT_OF_RANGE /\
  resistance_result
    (resistance_loop_exit example_background
       F32.zero (F32.of_Z 10) calibrated_world) = S754_infinity true /\
  retval passing calibrated_world = true.
Proof.
  cbv zeta.
  destruct (measure_phase_resistance_nan_fails
              example_background F32.zero (F32.lit 1 1000) calibrated_world)
    as [E1 [H1 _]].
  destruct (measure_phase_resistance_nan_fails
              example_background F32.zero (F32.of_Z 10) calibrated_world)
    as [E2 [_ H2]].
  cbv zeta in E1, H1, E2, H2.
  assert (N1 : F32.isnan
                 (resistance_result
                    (resistance_loop_exit example_background
                       F32.zero (F32.lit 1 1000) calibrated_world)) = true)
    by (vm_compute; reflexivity).
  assert (N2 : resistance_result
                 (resistance_loop_exit example_background
                    F32.zero (F32.of_Z 10) calibrated_world) = S754_infinity true)
    by (vm_compute; reflexivity).
  split; [exact N1|].
  rewrite E1 in N1. destruct (H1 N1) as [R1 [R2 _]].
  split; [exact R1|]. split; [exact R2|].
  split; [exact N2|].
  rewrite E2 in N2. rewrite N2 in H2. destruct (H2 eq_refl) as [R3 _].
  rewrite R3. vm_compute. reflexivity.
Defined.

(** C8, the claim as stated fails: on a motor that is armed while the brake
    resistor is not, [arm] returns with the motor armed, so the armed flag
    differs from [brake_resistor_armed]. *)
Lemma arm_postcondition_counterexample :
  let w' := exec (arm (Some law_cell)) brake_off_world in
  retval (arm (Some law_cell)) brake_off_world = true /\
  is_armed_ (motor w') = true /\
  brake_resistor_armed w' = false.
Proof. vm_compute. repeat split; reflexivity. Qed.

(** C9 on the failing run: the previous resistance, zero, is replaced by
    NaN although the routine returns false. *)
Lemma measurement_overwrites_config_unconditionally_witness :
  let m := measure_phase_resistance example_background F32.zero (F32.lit 1 1000) in
  retval m calibrated_world = false /\
  phase_resistance (config_ (motor calibrated_world)) = F32.zero /\
  phase_resistance (config_ (motor (exec m calibrated_world))) = F32.NAN.
Proof.
  cbv zeta. split; [vm_compute; reflexivity|]. split; [reflexivity|].
  rewrite (proj1 (measurement_overwrites_config_unconditionally
                    (board := example_board) example_background F32.zero
                    (F32.lit 1 1000) F32.zero calibrated_world)).
  vm_compute. reflexivity.
Defined.

(** A motor with current sensors on phases B and C only (mask 0b110). *)
Definition two_sensor_world : @World example_ext :=
  set_motor
    {| is_armed_ := false;
       control_law_ := None;
       error_ := 0;
       config_ := example_config;
       DC_calib_ := zero_current;
       dc_calib_running_since_ := F32.zero;
       current_meas_ := zero_current;
       I_leak_ := F32.zero;
       I_bus_ := F32.zero;
       effective_current_lim_ := F32.of_Z 10;
       max_dc_calib_ := F32.of_Z 6;
       phase_current_rev_gain_ := F32.lit 1 40;
       shunt_conductance_ := F32.of_Z 2000;
       current_sensor_mask_ := 6;
       counting_down_ := false;
       last_update_timestamp_ := 0 |}
    example_world.

(** C10 on a motor with all three sensors populated and phase A
    unavailable, and on a motor with sensors on B and C only, where phase A
    is computed from B and C whether its sample reads 3000 or is
    unavailable. *)
Lemma full_sensor_mask_never_reconstructs_witness :
  let sensed := retval (sense_current (board := example_board) ADC_UNAVAILABLE 2048 2048)
                  example_world in
  let m := motor two_sensor_world in
  let b := phase_current_from_adcval m 2098 in
  let c := phase_current_from_adcval m 2023 in
  F32.isnan (phA (fst sensed)) = true /\ snd sensed = false /\
  fst (retval (sense_current (board := example_board) 3000 2098 2023) two_sensor_world)
    = {| phA := F32.neg (b +! c); phB := b; phC := c |} /\
  fst (retval (sense_current (board := example_board) ADC_UNAVAILABLE 2098 2023)
         two_sensor_world)
    = {| phA := F32.neg (b +! c); phB := b; phC := c |}.
Proof.
  cbv zeta.
  destruct (full_sensor_mask_never_reconstructs (board := example_board)
              example_world ADC_UNAVAILABLE 2048 2048)
    as [_ [_ [_ [_ [H7 _]]]]].
  destruct (H7 eq_refl eq_refl) as [H1 H2].
  destruct (full_sensor_mask_never_reconstructs (board := example_board)
              two_sensor_world 3000 2098 2023) as [H6 _].
  destruct (H6 eq_refl) as [H3 H4].
  cbv zeta in H1, H2, H3, H4.
  split; [rewrite H1; reflexivity|]. split; [exact H2|].
  split; [exact H3|].
  rewrite (H4 ADC_UNAVAILABLE). exact H3.
Defined.

(* ------------------------------------------------------------------ *)
(** ** Further properties: what the operations leave alone *)

(** A relation between the world before and after a computation. *)
Definition keeps {ext : External} (R : World -> World -> Prop) {A} (m : M A) : Prop :=
  forall w, R w (exec m w).

Section KeepsBasic.

Context {ext : External}.
Variable R : World -> World -> Prop.
Hypothesis R_refl : forall w, R w w.
Hypothesis R_trans : forall a b c, R a b -> R b c -> R a c.
Hypothesis R_trace : forall w t, R w (set_trace t w).
Hypothesis R_law : forall w l, R w (set_law l w).

Lemma keeps_ret {A} (a : A) : keeps R (ret a).
Proof. intros w. apply R_refl. Qed.

Lemma keeps_bind {A B} (m : M A) (k : A -> M B) :
  keeps R m -> (forall a, keeps R (k a)) -> keeps R (bind m k).
Proof.
  intros Hm Hk w. rewrite exec_bind.
  eapply R_trans; [apply Hm|apply Hk].
Qed.

Lemma keeps_when (c : bool) (m : M unit) : keeps R m -> keeps R (when c m).
Proof. intros Hm. destruct c; [exact Hm|intros w; apply R_refl]. Qed.

Lemma keeps_gets {A} (f : World -> A) : keeps R (gets f).
Proof. intros w. apply R_refl. Qed.

Lemma keeps_emit (e : Event) : keeps R (emit e).
Proof. intros w. apply R_trace. Qed.

Lemma keeps_modify (f : World -> World) :
  (forall w, R w (f w)) -> keeps R (modify f).
Proof. intros H w. apply H. Qed.

Lemma keeps_modify_motor (f : Motor -> Motor) :
  (forall w, R w (set_motor (f (motor w)) w)) -> keeps R (modify_motor f).
Proof. intros H w. apply H. Qed.

Lemma keeps_with_law {A} (f : ControlLaw -> A * ControlLaw) : keeps R (with_law f).
Proof. intros w. unfold exec, with_law. destruct (f (law w)). apply R_law. Qed.

Lemma keeps_tim_read (r : TimReg) : keeps R (tim_read r).
Proof.
  intros w. rewrite exec_tim_read. apply R_trace.
Qed.

End KeepsBasic.

Ltac keep :=
  repeat first [ assumption | intros;
    match goal with
    | |- keeps _ (bind _ _) => apply keeps_bind
    | |- keeps _ (ret _) => apply keeps_ret
    | |- keeps _ (when _ _) => apply keeps_when
    | |- keeps _ (gets _) => apply keeps_gets
    | |- keeps _ (emit _) => apply keeps_emit
    | |- keeps _ (with_law _) => apply keeps_with_law
    | |- keeps _ (tim_read _) => apply keeps_tim_read
    | |- keeps _ (modify_motor _) => apply keeps_modify_motor
    | |- keeps _ (modify _) => apply keeps_modify
    | |- keeps _ (if ?c then _ else _) => destruct c
    | |- keeps _ (match ?x with _ => _ end) => destruct x
    | |- _ _ (set_motor (if ?c then _ else _) _) => destruct c
    | |- _ => solve [auto | reflexivity]
    end ].

(** The register value a disarm leaves in BDTR. *)
Definition outputs_off (bdtr : Z) : Z :=
  clear_bits (clear_bits bdtr TIM_BDTR_AOE) TIM_BDTR_MOE.

Section KeepsOperations.

Context {board : Board} {ext : External}.
Variable R : World -> World -> Prop.
Hypothesis R_refl : forall w, R w w.
Hypothesis R_trans : forall a b c, R a b -> R b c -> R a c.
Hypothesis R_trace : forall w t, R w (set_trace t w).
Hypothesis R_law : forall w l, R w (set_law l w).
Hypothesis R_disarm :
  forall w, R w (set_tim (reg_set R_BDTR (outputs_off (BDTR (tim w))) (tim w))
                   (set_motor (set_control_law_ None (set_is_armed_ false (motor w))) w)).
Hypothesis R_error :
  forall w e, R w (set_motor
                     (set_error_ (Z.lor (error_ (motor w)) (Error_bit e)) (motor w)) w).
Hypothesis R_compare :
  forall w r v, r = R_CCR1 \/ r = R_CCR2 \/ r = R_CCR3 ->
                R w (set_tim (reg_set r v (tim w)) w).
Hypothesis R_enable :
  forall w, is_armed_ (motor w) = true ->
            R w (set_tim (reg_set R_BDTR (Z.lor (BDTR (tim w)) TIM_BDTR_AOE) (tim w)) w).
Hypothesis R_timestamp :
  forall w v, R w (set_motor (set_last_update_timestamp_ v (motor w)) w).
Hypothesis R_counting_down :
  forall w v, R w (set_motor (set_counting_down_ v (motor w)) w).
Hypothesis R_meas :
  forall w i l, R w (set_motor (set_current_meas_ i (set_I_leak_ l (motor w))) w).
Hypothesis R_I_bus : forall w v, R w (set_motor (set_I_bus_ v (motor w)) w).
Hypothesis R_dc :
  forall w dc since,
    R w (set_motor (set_dc_calib_running_since_ since (set_DC_calib_ dc (motor w))) w).

Lemma keeps_disarm (p : BoolPtr) : keeps R (disarm p).
Proof.
  intros w. rewrite disarm_exec. unfold disarmed.
  eapply R_trans; [apply R_disarm|apply R_trace].
Qed.

Lemma keeps_disarm_with_error (e : Error) : keeps R (disarm_with_error e).
Proof.
  intros w. rewrite disarm_with_error_exec. unfold faulted. cbv zeta.
  eapply R_trans; [apply (R_error w e)|].
  eapply R_trans; [|apply R_trace].
  rewrite <- (disarm_exec nullptr). apply keeps_disarm.
Qed.

Lemma keeps_compare_write (r : TimReg) (v : Z) :
  r = R_CCR1 \/ r = R_CCR2 \/ r = R_CCR3 -> keeps R (tim_write r v).
Proof.
  intros Hr w. rewrite exec_tim_write.
  eapply R_trans; [apply (R_compare w r v Hr)|apply R_trace].
Qed.

Lemma keeps_enable :
  keeps R (bind (gets (fun w => is_armed_ (motor w))) (fun armed =>
           when armed (bind (tim_read R_BDTR) (fun bdtr =>
                       tim_write R_BDTR (Z.lor bdtr TIM_BDTR_AOE))))).
Proof.
  intros w. rewrite exec_bind, retval_gets, exec_gets.
  destruct (is_armed_ (motor w)) eqn:E; cbn [when]; [|apply R_refl].
  rewrite exec_bind, retval_tim_read, exec_tim_read, exec_tim_write.
  eapply R_trans; [apply R_trace|].
  eapply R_trans; [apply R_enable; exact E|apply R_trace].
Qed.

Lemma keeps_apply_pwm_timings (timings : Z * Z * Z) (tentative : bool) :
  keeps R (apply_pwm_timings timings tentative).
Proof.
  pose proof keeps_disarm_with_error. pose proof keeps_enable.
  pose proof (fun v => keeps_compare_write R_CCR1 v (or_introl eq_refl)).
  pose proof (fun v => keeps_compare_write R_CCR2 v (or_intror (or_introl eq_refl))).
  pose proof (fun v => keeps_compare_write R_CCR3 v (or_intror (or_intror eq_refl))).
  destruct timings as [[t0 t1] t2].
  unfold apply_pwm_timings, CRITICAL_SECTION, HAL_TIM_GET_FLAG. keep.
Qed.

Lemma keeps_do_checks (timestamp : Z) : keeps R (do_checks timestamp).
Proof.
  pose proof keeps_disarm_with_error.
  unfold do_checks. keep.
Qed.

Lemma keeps_check_adc_range (adc : Z) : keeps R (check_adc_range adc).
Proof.
  pose proof keeps_disarm_with_error.
  unfold check_adc_range. keep.
Qed.

Lemma keeps_sense_current (a b c : Z) : keeps R (sense_current a b c).
Proof.
  pose proof keeps_check_adc_range.
  unfold sense_current, log_timing. keep.
Qed.

Lemma keeps_do_fast_checks : keeps R do_fast_checks.
Proof.
  pose proof keeps_disarm.
  unfold do_fast_checks. keep.
Qed.

Lemma keeps_law_on_measurement (vbus : float) (i : Iph_ABC_t) (ts : Z) :
  keeps R (law_on_measurement vbus i ts).
Proof. unfold law_on_measurement. keep. Qed.

Lemma keeps_law_get_output (ts : Z) : keeps R (law_get_output ts).
Proof. unfold law_get_output. keep. Qed.

(** The four checks of the current-sense half, in program order. *)
Definition leak_check : M unit :=
  bind (gets motor) (fun m =>
  when (F32.gtb (F32.abs (I_leak_ m)) (I_leak_max (config_ m)))
       (disarm_with_error ERROR_I_LEAK_OUT_OF_RANGE)).

Definition current_limit_check : M unit :=
  bind (gets motor) (fun m =>
  let Itrip := effective_current_lim_ m +! current_lim_margin (config_ m) in
  when (F32.gtb
          (F32.of_Z 2 /! F32.of_Z 3 *!
           (F32.SQ (phA (current_meas_ m)) +! F32.SQ (phB (current_meas_ m))
            +! F32.SQ (phC (current_meas_ m))))
          (F32.SQ Itrip))
       (disarm_with_error ERROR_CURRENT_LIMIT_VIOLATION)).

Definition control_law_measurement : M unit :=
  bind (gets motor) (fun m =>
  match control_law_ m with
  | Some _ =>
      bind (gets vbus_voltage) (fun vbus =>
      bind (law_on_measurement vbus (current_meas_ m) (last_update_timestamp_ m))
        (fun err =>
      when (negb (Error_eqb err ERROR_NONE)) (disarm_with_error err)))
  | None => ret tt
  end).

(** [current_sense_step] after its first statement, the update of the
    measurement. *)
Definition current_sense_checks : M unit :=
  bind leak_check (fun _ =>
  bind do_fast_checks (fun _ =>
  bind current_limit_check (fun _ =>
  control_law_measurement))).

(** The first statement of [current_sense_step]. *)
Definition measurement_update (current : Iph_ABC_t) (current_valid : bool) (m : Motor)
    : Motor :=
  if current_valid && dc_calib_valid m then
    let a := phA current -! phA (DC_calib_ m) in
    let b := phB current -! phB (DC_calib_ m) in
    let c := phC current -! phC (DC_calib_ m) in
    let leak := a +! b +! c in
    set_current_meas_ {| phA := a -! leak /! F32.of_Z 3;
                         phB := b -! leak /! F32.of_Z 3;
                         phC := c -! leak /! F32.of_Z 3 |}
      (set_I_leak_ leak m)
  else
    set_current_meas_ {| phA := F32.NAN; phB := F32.NAN; phC := F32.NAN |}
      (set_I_leak_ F32.NAN m).

Lemma current_sense_step_unfold (i : Iph_ABC_t) (valid : bool) :
  current_sense_step i valid =
  bind (modify_motor (measurement_update i valid)) (fun _ => current_sense_checks).
Proof. reflexivity. Qed.

Lemma keeps_leak_check : keeps R leak_check.
Proof. pose proof keeps_disarm_with_error. unfold leak_check. keep. Qed.

Lemma keeps_current_limit_check : keeps R current_limit_check.
Proof. pose proof keeps_disarm_with_error. unfold current_limit_check. keep. Qed.

Lemma keeps_control_law_measurement : keeps R control_law_measurement.
Proof.
  pose proof keeps_disarm_with_error. pose proof keeps_law_on_measurement.
  unfold control_law_measurement. keep.
Qed.

Lemma keeps_current_sense_checks : keeps R current_sense_checks.
Proof.
  pose proof keeps_leak_check. pose proof keeps_do_fast_checks.
  pose proof keeps_current_limit_check. pose proof keeps_control_law_measurement.
  unfold current_sense_checks. keep.
Qed.

Lemma keeps_current_sense_step (i : Iph_ABC_t) (valid : bool) :
  keeps R (current_sense_step i valid).
Proof.
  pose proof keeps_current_sense_checks.
  rewrite current_sense_step_unfold. unfold measurement_update. keep.
Qed.

(** The three parts of [pwm_update_step]: the call of the control law, the
    use of its result, and the bus-current bookkeeping. *)
Definition control_law_output : M Result :=
  bind (gets motor) (fun m =>
  match control_law_ m with
  | Some _ => law_get_output (wrap32 (last_update_timestamp_ m + 2 * period_clocks))
  | None => ret (Failed ERROR_CONTROLLER_FAILED)
  end).

Definition apply_control_law_result (control_law_result : Result) : M float :=
  bind (gets motor) (fun m =>
  match is_armed_ m, control_law_result with
  | true, Timings t0 t1 t2 =>
      let half := F32.lit 1 2 in
      let i_bus := (half -! t0) *! phA (current_meas_ m)
                   +! (half -! t1) *! phB (current_meas_ m)
                   +! (half -! t2) *! phC (current_meas_ m) in
      bind (apply_pwm_timings
              (duty_to_timing t0, duty_to_timing t1, duty_to_timing t2) false)
        (fun _ => ret i_bus)
  | true, Failed e =>
      bind (tim_read R_BDTR) (fun bdtr =>
      bind (if (Z.land bdtr TIM_BDTR_MOE =? 0) && Error_eqb e ERROR_CONTROLLER_INITIALIZING
            then ret tt
            else disarm_with_error e) (fun _ =>
      ret F32.zero))
  | false, _ => ret F32.zero
  end).

Definition bus_current_check (i_bus : float) : M unit :=
  bind (gets motor) (fun m =>
  bind (when (F32.ltb i_bus (I_bus_hard_min (config_ m))
              || F32.gtb i_bus (I_bus_hard_max (config_ m)))
          (disarm_with_error ERROR_I_BUS_OUT_OF_RANGE)) (fun _ =>
  bind update_brake_current (fun _ =>
  log_timing TIMING_LOG_CTRL_DONE))).

Definition bus_current_update (i_bus : float) : M unit :=
  bind (gets (fun w => is_armed_ (motor w))) (fun armed =>
  let i_bus := if negb armed then F32.zero else i_bus in
  bind (modify_motor (set_I_bus_ i_bus)) (fun _ =>
  bus_current_check i_bus)).

Lemma pwm_update_step_unfold :
  pwm_update_step =
  bind control_law_output (fun control_law_result =>
  bind (apply_control_law_result control_law_result) (fun i_bus =>
  bus_current_update i_bus)).
Proof. reflexivity. Qed.

Lemma keeps_control_law_output : keeps R control_law_output.
Proof. pose proof keeps_law_get_output. unfold control_law_output. keep. Qed.

Lemma keeps_apply_control_law_result (r : Result) :
  keeps R (apply_control_law_result r).
Proof.
  pose proof keeps_disarm_with_error. pose proof keeps_apply_pwm_timings.
  unfold apply_control_law_result. keep.
Qed.

Lemma keeps_bus_current_check (i_bus : float) : keeps R (bus_current_check i_bus).
Proof.
  pose proof keeps_disarm_with_error.
  unfold bus_current_check, update_brake_current, log_timing. keep.
Qed.

Lemma keeps_bus_current_update (i_bus : float) : keeps R (bus_current_update i_bus).
Proof.
  pose proof keeps_bus_current_check.
  unfold bus_current_update. keep.
Qed.

Lemma keeps_pwm_update_step : keeps R pwm_update_step.
Proof.
  pose proof keeps_control_law_output. pose proof keeps_apply_control_law_result.
  pose proof keeps_bus_current_update.
  rewrite pwm_update_step_unfold. keep.
Qed.

Lemma keeps_dc_calib_step (i : Iph_ABC_t) (valid : bool) :
  keeps R (dc_calib_step i valid).
Proof. unfold dc_calib_step, log_timing. keep. Qed.

(** [tim_update_cb] after the missed-update check and the update of
    [counting_down_]: the actions of the update event. *)
Definition tim_update_cb_actions (adc_a adc_b adc_c : Z) : M unit :=
  bind (log_timing TIMING_LOG_UPDATE_START) (fun _ =>
  bind (gets (fun w => counting_down_ (motor w))) (fun should_update_pwm =>
  bind (when should_update_pwm
          (apply_pwm_timings
             (wrap16 (TIM_1_8_PERIOD_CLOCKS / 2), wrap16 (TIM_1_8_PERIOD_CLOCKS / 2),
              wrap16 (TIM_1_8_PERIOD_CLOCKS / 2)) true)) (fun _ =>
  bind (sense_current adc_a adc_b adc_c) (fun sensed =>
  let (current, current_valid) := sensed in
  bind (when should_update_pwm (dc_calib_step current current_valid)) (fun _ =>
  bind (when (negb should_update_pwm) (current_sense_step current current_valid))
    (fun _ =>
  when should_update_pwm pwm_update_step)))))).

(** [tim_update_cb] after its first statement, the advance of the
    timestamp. *)
Definition tim_update_cb_body (adc_a adc_b adc_c : Z) : M unit :=
  bind (tim_read R_CR1) (fun cr1 =>
  let counting_down := negb (Z.land cr1 TIM_CR1_DIR =? 0) in
  bind (gets (fun w => counting_down_ (motor w))) (fun previous =>
  if Bool.eqb previous counting_down then
    disarm_with_error ERROR_TIMER_UPDATE_MISSED
  else
    bind (modify_motor (set_counting_down_ counting_down)) (fun _ =>
    tim_update_cb_actions adc_a adc_b adc_c))).

Lemma tim_update_cb_unfold (a b c : Z) :
  tim_update_cb a b c =
  bind (modify_motor (fun m =>
          set_last_update_timestamp_
            (wrap32 (last_update_timestamp_ m + period_clocks)) m))
       (fun _ => tim_update_cb_body a b c).
Proof. reflexivity. Qed.

Lemma keeps_tim_update_cb_actions (a b c : Z) : keeps R (tim_update_cb_actions a b c).
Proof.
  pose proof keeps_apply_pwm_timings. pose proof keeps_sense_current.
  pose proof keeps_dc_calib_step.
  pose proof keeps_current_sense_step. pose proof keeps_pwm_update_step.
  unfold tim_update_cb_actions, log_timing. keep.
Qed.

Lemma keeps_tim_update_cb_body (a b c : Z) : keeps R (tim_update_cb_body a b c).
Proof.
  pose proof keeps_disarm_with_error. pose proof keeps_tim_update_cb_actions.
  unfold tim_update_cb_body. keep.
Qed.

Lemma keeps_tim_update_cb (a b c : Z) : keeps R (tim_update_cb a b c).
Proof.
  pose proof keeps_tim_update_cb_body.
  rewrite tim_update_cb_unfold. keep.
Qed.

End KeepsOperations.

Section KeepsCalibration.

Context {board : Board} {ext : External}.
Variable R : World -> World -> Prop.
Hypothesis R_refl : forall w, R w w.
Hypothesis R_trans : forall a b c, R a b -> R b c -> R a c.
Hypothesis R_trace : forall w t, R w (set_trace t w).
Hypothesis R_law : forall w l, R w (set_law l w).
Hypothesis R_disarm :
  forall w, R w (set_tim (reg_set R_BDTR (outputs_off (BDTR (tim w))) (tim w))
                   (set_motor (set_control_law_ None (set_is_armed_ false (motor w))) w)).
Hypothesis R_error :
  forall w e, R w (set_motor
                     (set_error_ (Z.lor (error_ (motor w)) (Error_bit e)) (motor w)) w).
Hypothesis R_control_law :
  forall w p, R w (set_motor (set_control_law_ p (motor w)) w).
Hypothesis R_arm : forall w, R w (set_motor (set_is_armed_ true (motor w)) w).
Hypothesis R_flux : forall w v, R w (set_rotor_flux_ v w).
Hypothesis R_config : forall w c, R w (set_motor (set_config_ c (motor w)) w).

Variable background : M unit.
Hypothesis R_background : keeps R background.

Lemma keeps_arm (p : option LawRef) : keeps R (arm p).
Proof. unfold arm, CRITICAL_SECTION, law_reset. keep. Qed.

Lemma keeps_wait_while_armed (n : nat) : keeps R (wait_while_armed background n).
Proof.
  induction n as [|n IH]; cbn [wait_while_armed]; unfold osDelay; keep.
Qed.

Lemma keeps_measure_phase_resistance (tc mv : float) :
  keeps R (measure_phase_resistance background tc mv).
Proof.
  pose proof keeps_arm. pose proof (keeps_wait_while_armed 3000).
  pose proof (keeps_disarm R R_trans R_trace R_disarm).
  pose proof (keeps_disarm_with_error R R_trans R_trace R_disarm R_error).
  unfold measure_phase_resistance, local_resistance_law. keep.
Qed.

Lemma keeps_measure_phase_inductance (tv : float) :
  keeps R (measure_phase_inductance background tv).
Proof.
  pose proof keeps_arm. pose proof (keeps_wait_while_armed 1250).
  pose proof (keeps_disarm R R_trans R_trace R_disarm).
  unfold measure_phase_inductance, local_inductance_law. keep.
Qed.

End KeepsCalibration.

(** *** Bit-level facts about the two output-enable bits *)

Lemma land_outputs_off_AOE (x : Z) : Z.land (outputs_off x) TIM_BDTR_AOE = 0.
Proof.
  unfold outputs_off. apply clear_bits_keeps_clear, clear_bits_land. reflexivity.
Qed.

Lemma land_outputs_off_MOE (x : Z) : Z.land (outputs_off x) TIM_BDTR_MOE = 0.
Proof. unfold outputs_off. apply clear_bits_land. reflexivity. Qed.

Lemma outputs_off_only_clears (x : Z) : Z.land (outputs_off x) x = outputs_off x.
Proof.
  unfold outputs_off, clear_bits.
  apply Z.bits_inj'; intros n _. rewrite !Z.land_spec.
  destruct (Z.testbit x n); rewrite ?andb_true_r, ?andb_false_r, ?andb_false_l;
    reflexivity.
Qed.

Lemma land_subset_trans (a b c : Z) :
  Z.land c b = c -> Z.land b a = b -> Z.land c a = c.
Proof.
  intros H1 H2. rewrite <- H1 at 1. rewrite <- Z.land_assoc, H2. exact H1.
Qed.

Lemma land_subset_zero (a b k : Z) :
  Z.land b a = b -> Z.land a k = 0 -> Z.land b k = 0.
Proof.
  intros H1 H2. rewrite <- H1, <- Z.land_assoc, H2. apply Z.land_0_r.
Qed.

Lemma land_superset_has (a b k : Z) :
  Z.land b a = a -> Z.land a k = k -> Z.land b k = k.
Proof.
  intros H1 H2. rewrite <- H2 at 1. rewrite Z.land_assoc, H1. exact H2.
Qed.

Lemma land_lor_superset (x b : Z) : Z.land (Z.lor x b) x = x.
Proof.
  apply Z.bits_inj'; intros n _.
  rewrite Z.land_spec, Z.lor_spec.
  destruct (Z.testbit x n), (Z.testbit b n); reflexivity.
Qed.

(** *** The relations used below *)

(** Every error flag that was set is still set. *)
Definition errors_kept {ext : External} (w w' : World) : Prop :=
  Z.land (error_ (motor w')) (error_ (motor w)) = error_ (motor w).

(** A motor that is armed afterwards was armed before, under the same
    control law. *)
Definition not_armed_by {ext : External} (w w' : World) : Prop :=
  is_armed_ (motor w') = true ->
  is_armed_ (motor w) = true /\ control_law_ (motor w') = control_law_ (motor w).

(** A disarmed motor stays disarmed and no bit of BDTR is set that was
    clear. *)
Definition stays_off {ext : External} (w w' : World) : Prop :=
  is_armed_ (motor w) = false ->
  is_armed_ (motor w') = false /\
  Z.land (BDTR (tim w')) (BDTR (tim w)) = BDTR (tim w').

(** The calibration routines sleep in [osDelay]; the other calls do not. *)
Definition call_background {ext : External} (c : Call)
    : option (M unit) :=
  match c with
  | CallMeasurePhaseResistance bg _ _ => Some bg
  | CallMeasurePhaseInductance bg _ => Some bg
  | _ => None
  end.

(** The calls that can arm the motor: [arm] itself and the calibration
    routines, which call it. *)
Definition call_arms {ext : External} (c : Call) : bool :=
  match c with
  | CallArm _ => true
  | CallMeasurePhaseResistance _ _ _ => true
  | CallMeasurePhaseInductance _ _ => true
  | _ => false
  end.

Ltac frame_fields :=
  unfold errors_kept, not_armed_by, stays_off, outputs_off; intros; fields.

Section MoreProperties.

Context {board : Board} {ext : External}.

Lemma errors_kept_refl (w : World) : errors_kept w w.
Proof. unfold errors_kept. apply Z.land_diag. Qed.

Lemma errors_kept_trans (a b c : World) :
  errors_kept a b -> errors_kept b c -> errors_kept a c.
Proof.
  unfold errors_kept. intros H1 H2.
  rewrite <- H1 at 1. rewrite Z.land_assoc, H2. exact H1.
Qed.

Lemma errors_kept_error (w : World) (e : Error) :
  errors_kept w
    (set_motor (set_error_ (Z.lor (error_ (motor w)) (Error_bit e)) (motor w)) w).
Proof. unfold errors_kept. fields. apply land_lor_superset. Qed.

Ltac errors_frame :=
  first [ exact errors_kept_trans
        | unfold errors_kept; intros; fields;
          first [apply Z.land_diag | apply land_lor_superset] ].

Lemma errors_kept_run_call (c : Call) :
  (forall bg, call_background c = Some bg -> keeps errors_kept bg) ->
  keeps errors_kept (run_call c).
Proof.
  intros Hbg. destruct c; unfold run_call.
  - apply keeps_bind; [errors_frame| |intros; apply keeps_ret; errors_frame].
    apply keeps_arm; errors_frame.
  - apply keeps_bind; [errors_frame| |intros; apply keeps_ret; errors_frame].
    apply keeps_disarm; errors_frame.
  - apply keeps_disarm_with_error; errors_frame.
  - apply keeps_apply_pwm_timings; errors_frame.
  - apply keeps_bind; [errors_frame| |intros; apply keeps_ret; errors_frame].
    apply keeps_do_checks; errors_frame.
  - apply keeps_tim_update_cb; errors_frame.
  - apply keeps_bind; [errors_frame| |intros; apply keeps_ret; errors_frame].
    apply keeps_measure_phase_resistance; try errors_frame.
    apply Hbg. reflexivity.
  - apply keeps_bind; [errors_frame| |intros; apply keeps_ret; errors_frame].
    apply keeps_measure_phase_inductance; try errors_frame.
    apply Hbg. reflexivity.
Qed.

(** X1.  Error flags are sticky.  None of the calls clears a flag: after
    every call each error kind that was recorded is still recorded, provided
    whatever runs during the sleeps of a calibration routine does not clear
    one either. *)
Theorem error_flags_are_sticky (c : Call) (w : World) (e : Error) :
  (forall bg, call_background c = Some bg -> keeps errors_kept bg) ->
  has_error (error_ (motor w)) e ->
  has_error (error_ (motor (exec (run_call c) w))) e.
Proof.
  intros Hbg He. unfold has_error in *.
  eapply land_superset_has; [|exact He].
  apply (errors_kept_run_call c Hbg w).
Qed.


(** *** Only [arm] arms *)

Ltac armed_by_frame :=
  unfold not_armed_by; intros; fields;
  first [ discriminate | tauto | intuition congruence ].

Lemma not_armed_by_run_call (c : Call) :
  (forall p, c <> CallArm p) -> keeps not_armed_by (run_call c).
Proof.
  intros Hc. destruct c; unfold run_call.
  - exfalso. exact (Hc _ eq_refl).
  - apply keeps_bind; [armed_by_frame| |intros; apply keeps_ret; armed_by_frame].
    apply keeps_disarm; armed_by_frame.
  - apply keeps_disarm_with_error; armed_by_frame.
  - apply keeps_apply_pwm_timings; armed_by_frame.
  - apply keeps_bind; [armed_by_frame| |intros; apply keeps_ret; armed_by_frame].
    apply keeps_do_checks; armed_by_frame.
  - apply keeps_tim_update_cb; armed_by_frame.
  - intros w. rewrite exec_bind, exec_ret, exec_measure_phase_resistance.
    generalize (resistance_loop_exit background test_current max_voltage w).
    intros w3. unfold resistance_finish, not_armed_by.
    destruct (F32.isnan _); cbn [snd]; discriminate.
  - intros w. rewrite exec_bind, exec_ret, exec_measure_phase_inductance.
    generalize (inductance_loop_exit background test_voltage w).
    intros w3. unfold inductance_finish, not_armed_by.
    destruct (negb _); cbn [snd]; discriminate.
Qed.

(** X2.  Only [arm] arms.  After any other call (disarm, disarm with
    error, a PWM commit, the gate-driver check, the interrupt handler, a
    calibration routine) a motor that is armed was armed before the call and
    still points to the same control law. *)
Theorem only_arm_arms (c : Call) (w : World) :
  (forall p, c <> CallArm p) ->
  is_armed_ (motor (exec (run_call c) w)) = true ->
  is_armed_ (motor w) = true /\
  control_law_ (motor (exec (run_call c) w)) = control_law_ (motor w).
Proof.
  intros Hc. apply (not_armed_by_run_call c Hc w).
Qed.

(** *** A disarmed motor stays off until [arm] is called *)

Ltac stays_off_frame :=
  unfold stays_off; intros; fields;
  first [ congruence
        | split; [reflexivity | apply outputs_off_only_clears]
        | split; [assumption | apply Z.land_diag]
        | match goal with
          | H : _ \/ _ \/ _ |- _ =>
              destruct H as [ -> | [ -> | -> ] ]; fields;
              (split; [assumption | apply Z.land_diag])
          end
        | match goal with
          | H1 : ?P -> _ /\ _, H2 : _ -> _ /\ _, H : ?P |- _ =>
              let Ha := fresh in
              let Hb := fresh in
              let Hx := fresh in
              let Hd := fresh in
              destruct (H1 H) as [Ha Hb]; destruct (H2 Ha) as [Hx Hd];
              split; [exact Hx | exact (land_subset_trans _ _ _ Hd Hb)]
          end ].

Lemma stays_off_run_call (c : Call) :
  call_arms c = false -> keeps stays_off (run_call c).
Proof.
  intros Hc. destruct c; try discriminate Hc; unfold run_call.
  - apply keeps_bind; [stays_off_frame| |intros; apply keeps_ret; stays_off_frame].
    apply keeps_disarm; stays_off_frame.
  - apply keeps_disarm_with_error; stays_off_frame.
  - apply keeps_apply_pwm_timings; stays_off_frame.
  - apply keeps_bind; [stays_off_frame| |intros; apply keeps_ret; stays_off_frame].
    apply keeps_do_checks; stays_off_frame.
  - apply keeps_tim_update_cb; stays_off_frame.
Qed.

(** The calls of a list, in order. *)
Definition run_calls (cs : list Call) (w : World) : World :=
  fold_left (fun w c => exec (run_call c) w) cs w.

(** The outputs are off: the motor is disarmed and neither the automatic
    nor the master output enable is set. *)
Definition outputs_are_off (w : World) : Prop :=
  is_armed_ (motor w) = false /\
  Z.land (BDTR (tim w)) TIM_BDTR_AOE = 0 /\
  Z.land (BDTR (tim w)) TIM_BDTR_MOE = 0.

Lemma outputs_are_off_run_calls (cs : list Call) (w : World) :
  forallb (fun c => negb (call_arms c)) cs = true ->
  outputs_are_off w -> outputs_are_off (run_calls cs w).
Proof.
  revert w. induction cs as [|c cs IH]; intros w Hcs Hw; [exact Hw|].
  cbn [forallb] in Hcs. apply andb_true_iff in Hcs. destruct Hcs as [Hc Hcs].
  apply negb_true_iff in Hc.
  unfold run_calls. cbn [fold_left]. apply IH; [exact Hcs|].
  destruct Hw as [Ha [Hb Hm]].
  destruct (stays_off_run_call c Hc w Ha) as [Ha' Hsub].
  split; [exact Ha'|].
  split; eapply land_subset_zero; eassumption.
Qed.

(** X3.  The guarantee of [disarm]: after it returns the motor is
    disarmed with the automatic and the master output enable cleared, and
    this still holds after any sequence of calls that contains neither [arm]
    nor a calibration routine. *)
Theorem disarm_holds_until_arm (cs : list Call) (p : BoolPtr) (w : World) :
  forallb (fun c => negb (call_arms c)) cs = true ->
  outputs_are_off (run_calls cs (exec (disarm p) w)).
Proof.
  intros Hcs. apply outputs_are_off_run_calls; [exact Hcs|].
  rewrite disarm_exec. unfold outputs_are_off, disarmed. fields.
  split; [reflexivity|].
  split; [apply land_outputs_off_AOE|apply land_outputs_off_MOE].
Qed.

(** *** What the control path never writes *)

(** The configuration and the scaling constants of the motor. *)
Definition settings (m : Motor) : Config_t * float * float * float * float * Z :=
  (config_ m, max_dc_calib_ m, effective_current_lim_ m, phase_current_rev_gain_ m,
   shunt_conductance_ m, current_sensor_mask_ m).

Definition settings_kept (w w' : World) : Prop :=
  settings (motor w') = settings (motor w).

Ltac settings_frame :=
  unfold settings_kept, settings; intros; fields;
  first [ reflexivity | congruence ].

(** X4.  The control path writes no setting.  [arm], [disarm], the error
    path, the PWM commit, the gate-driver check and the interrupt handler
    leave the configuration, the current-sense scaling, the calibration
    ceiling, the stored effective current limit and the sensor mask as they
    are; of the calls listed in [Call] only the calibration routines write
    one of them. *)
Theorem settings_untouched_by_control_path (c : Call) (w : World) :
  call_background c = None ->
  settings (motor (exec (run_call c) w)) = settings (motor w).
Proof.
  intros Hc. change (settings_kept w (exec (run_call c) w)). revert w.
  change (keeps settings_kept (run_call c)).
  destruct c; try discriminate Hc; unfold run_call.
  - apply keeps_bind; [settings_frame| |intros; apply keeps_ret; settings_frame].
    apply keeps_arm; settings_frame.
  - apply keeps_bind; [settings_frame| |intros; apply keeps_ret; settings_frame].
    apply keeps_disarm; settings_frame.
  - apply keeps_disarm_with_error; settings_frame.
  - apply keeps_apply_pwm_timings; settings_frame.
  - apply keeps_bind; [settings_frame| |intros; apply keeps_ret; settings_frame].
    apply keeps_do_checks; settings_frame.
  - apply keeps_tim_update_cb; settings_frame.
Qed.

(** *** The interrupt handler's bookkeeping *)

Definition bookkeeping_kept (w w' : World) : Prop :=
  last_update_timestamp_ (motor w') = last_update_timestamp_ (motor w) /\
  counting_down_ (motor w') = counting_down_ (motor w) /\
  CR1 (tim w') = CR1 (tim w) /\ SR (tim w') = SR (tim w).

Ltac bookkeeping_frame :=
  unfold bookkeeping_kept; intros; fields;
  first [ tauto
        | match goal with
          | H : _ \/ _ \/ _ |- _ => destruct H as [ -> | [ -> | -> ] ]; fields; tauto
          end
        | intuition congruence ].

(** X5.  Every run of the interrupt handler, also one that detects a missed
    update, advances the timestamp by one period modulo 2^32 and ends with
    [counting_down_] equal to the direction bit it read; it writes neither
    CR1 nor SR. *)
Theorem tim_update_cb_bookkeeping (w : World) (adc_a adc_b adc_c : Z) :
  let w' := exec (tim_update_cb adc_a adc_b adc_c) w in
  last_update_timestamp_ (motor w')
    = wrap32 (last_update_timestamp_ (motor w) + period_clocks) /\
  counting_down_ (motor w') = negb (Z.land (CR1 (tim w)) TIM_CR1_DIR =? 0) /\
  CR1 (tim w') = CR1 (tim w) /\ SR (tim w') = SR (tim w).
Proof.
  intros w'. subst w'.
  rewrite tim_update_cb_unfold, exec_bind, exec_modify_motor.
  unfold tim_update_cb_body.
  rewrite exec_bind, retval_tim_read, exec_tim_read, exec_bind, retval_gets, exec_gets.
  fields.
  destruct (Bool.eqb (counting_down_ (motor w))
              (negb (Z.land (CR1 (tim w)) TIM_CR1_DIR =? 0))) eqn:E.
  - apply eqb_prop in E. rewrite disarm_with_error_exec.
    unfold faulted, disarmed. fields. repeat split; try reflexivity. exact E.
  - rewrite exec_bind, exec_modify_motor.
    match goal with
    | |- context [exec (tim_update_cb_actions _ _ _) ?w0] =>
        destruct (keeps_tim_update_cb_actions bookkeeping_kept
                    ltac:(bookkeeping_frame) ltac:(bookkeeping_frame)
                    ltac:(bookkeeping_frame) ltac:(bookkeeping_frame)
                    ltac:(bookkeeping_frame) ltac:(bookkeeping_frame)
                    ltac:(bookkeeping_frame) ltac:(bookkeeping_frame)
                    ltac:(bookkeeping_frame) ltac:(bookkeeping_frame)
                    ltac:(bookkeeping_frame) adc_a adc_b adc_c w0)
          as [H1 [H2 [H3 H4]]]
    end.
    rewrite H1, H2, H3, H4. fields. repeat split; reflexivity.
Qed.

(** *** The PWM commit *)

Lemma apply_pwm_timings_commit_state (w : World) (t0 t1 t2 : Z) (tentative : bool) :
  brake_resistor_armed w = true ->
  Z.land (SR (tim w)) TIM_FLAG_UPDATE <> TIM_FLAG_UPDATE ->
  let w' := exec (apply_pwm_timings (t0, t1, t2) tentative) w in
  motor w' = motor w /\
  (CCR1 (tim w'), CCR2 (tim w'), CCR3 (tim w')) = (t0, t1, t2) /\
  BDTR (tim w') = (if negb tentative && is_armed_ (motor w)
                   then Z.lor (BDTR (tim w)) TIM_BDTR_AOE
                   else BDTR (tim w)) /\
  law w' = law w /\ brake_resistor_armed w' = true /\ SR (tim w') = SR (tim w).
Proof.
  intros Hbra Hflag w'. subst w'.
  destruct w as [m t l bra vbus rs flux ready fault tr].
  destruct m as [armed cl err cfg dc since meas leak ibus lim maxdc gain cond mask cd ts].
  destruct t as [cr1 sr bdtr c1 c2 c3].
  cbn in Hbra, Hflag. subst bra.
  assert (Hb : (Z.land sr 1 =? 1) = false) by (apply Z.eqb_neq; exact Hflag).
  unfold apply_pwm_timings. unfold_m. unfold TIM_FLAG_UPDATE in *.
  cbv -[app clear_bits Z.land Z.lor Z.eqb].
  repeat (case_if; cbv -[app clear_bits Z.land Z.lor Z.eqb]);
    try discriminate Hb; repeat split; reflexivity.
Qed.

(** X6.  A commit that meets no obstacle: with the brake resistor armed and
    the update flag clear, [apply_pwm_timings] writes the three compare
    registers and leaves the motor object alone; it sets the automatic output
    enable exactly when the call is not tentative and the motor is armed, and
    touches no other bit of BDTR. *)
Theorem apply_pwm_timings_commit (w : World) (t0 t1 t2 : Z) (tentative : bool) :
  brake_resistor_armed w = true ->
  Z.land (SR (tim w)) TIM_FLAG_UPDATE <> TIM_FLAG_UPDATE ->
  let w' := exec (apply_pwm_timings (t0, t1, t2) tentative) w in
  motor w' = motor w /\
  (CCR1 (tim w'), CCR2 (tim w'), CCR3 (tim w')) = (t0, t1, t2) /\
  BDTR (tim w') = (if negb tentative && is_armed_ (motor w)
                   then Z.lor (BDTR (tim w)) TIM_BDTR_AOE
                   else BDTR (tim w)) /\
  law w' = law w.
Proof.
  intros Hbra Hflag.
  destruct (apply_pwm_timings_commit_state w t0 t1 t2 tentative Hbra Hflag)
    as [H1 [H2 [H3 [H4 _]]]].
  cbv zeta. auto.
Qed.

(** X7.  With the brake resistor disarmed [apply_pwm_timings] disarms the
    motor and records the brake-resistor error; the compare registers still
    receive the timings, and both output enables end cleared, whatever the
    tentative flag and the update flag. *)
Theorem apply_pwm_timings_without_brake_resistor
    (w : World) (t0 t1 t2 : Z) (tentative : bool) :
  brake_resistor_armed w = false ->
  let w' := exec (apply_pwm_timings (t0, t1, t2) tentative) w in
  is_armed_ (motor w') = false /\
  control_law_ (motor w') = None /\
  has_error (error_ (motor w')) ERROR_BRAKE_RESISTOR_DISARMED /\
  (CCR1 (tim w'), CCR2 (tim w'), CCR3 (tim w')) = (t0, t1, t2) /\
  Z.land (BDTR (tim w')) TIM_BDTR_AOE = 0 /\
  Z.land (BDTR (tim w')) TIM_BDTR_MOE = 0.
Proof.
  intros Hbra w'. subst w'.
  assert (Haoe : forall x, Z.land (clear_bits (clear_bits x TIM_BDTR_AOE) TIM_BDTR_MOE)
                             TIM_BDTR_AOE = 0).
  { intros x. apply clear_bits_keeps_clear, clear_bits_land. reflexivity. }
  assert (Hmoe : forall x, Z.land (clear_bits x TIM_BDTR_MOE) TIM_BDTR_MOE = 0).
  { intros x. apply clear_bits_land. reflexivity. }
  assert (Herr : forall x,
            Z.land (Z.lor (Z.lor x (Error_bit ERROR_BRAKE_RESISTOR_DISARMED))
                      (Error_bit ERROR_CONTROL_DEADLINE_MISSED))
              (Error_bit ERROR_BRAKE_RESISTOR_DISARMED)
            = Error_bit ERROR_BRAKE_RESISTOR_DISARMED).
  { intros x. eapply land_superset_has; [apply land_lor_superset|apply land_lor_same]. }
  destruct w as [m t l bra vbus rs flux ready fault tr].
  destruct m as [armed cl err cfg dc since meas leak ibus lim maxdc gain cond mask cd ts].
  destruct t as [cr1 sr bdtr c1 c2 c3].
  cbn in Hbra. subst bra.
  unfold apply_pwm_timings, disarm_with_error, disarm, has_error.
  unfold_m. unfold TIM_FLAG_UPDATE in *.
  cbv -[app clear_bits Z.land Z.lor Z.eqb Error_bit TIM_BDTR_AOE TIM_BDTR_MOE].
  repeat (case_if;
          cbv -[app clear_bits Z.land Z.lor Z.eqb Error_bit TIM_BDTR_AOE TIM_BDTR_MOE]);
    (split; [reflexivity|]); (split; [reflexivity|]);
    (split; [first [apply land_lor_same | apply Herr]|]);
    (split; [reflexivity|]); (split; [apply Haoe|apply Hmoe]).
Qed.

(** *** The gate-driver check *)

(** X8.  [do_checks] returns what the gate driver answers to [is_ready]:
    when it is ready the motor and the timer are left alone, when it is not
    the motor is disarmed with the driver-fault error recorded and both
    output enables cleared. *)
Theorem do_checks_reports_gate_driver (w : World) (timestamp : Z) :
  let w' := exec (do_checks timestamp) w in
  retval (do_checks timestamp) w = gate_driver_ready w /\
  (gate_driver_ready w = true -> motor w' = motor w /\ tim w' = tim w) /\
  (gate_driver_ready w = false ->
   is_armed_ (motor w') = false /\
   has_error (error_ (motor w')) ERROR_DRV_FAULT /\
   Z.land (BDTR (tim w')) TIM_BDTR_AOE = 0 /\
   Z.land (BDTR (tim w')) TIM_BDTR_MOE = 0).
Proof.
  intros w'. subst w'. unfold do_checks.
  rewrite exec_bind, retval_bind, exec_emit, exec_bind, retval_bind,
    exec_gets, retval_gets.
  fields. destruct (gate_driver_ready w); cbn [negb].
  - rewrite exec_ret, retval_ret. fields.
    split; [reflexivity|]. split; [intros _; split; reflexivity|discriminate].
  - rewrite exec_bind, retval_bind, exec_ret, retval_ret, disarm_with_error_exec.
    unfold faulted, disarmed, has_error. fields.
    split; [reflexivity|]. split; [discriminate|]. intros _.
    split; [reflexivity|]. split; [apply land_lor_same|].
    split; [apply land_outputs_off_AOE|apply land_outputs_off_MOE].
Qed.

(** *** The current-sense half of the interrupt handler *)

(** What the current-sense half reads and never writes. *)
Definition sense_inputs (m : Motor)
    : Iph_ABC_t * float * float * Config_t * float * (float * float * Z) :=
  (DC_calib_ m, dc_calib_running_since_ m, max_dc_calib_ m, config_ m,
   effective_current_lim_ m, sensor_fields m).

(** What no step of the current-sense half writes: its inputs, the bus
    current estimate and the compare registers. *)
Definition sense_untouched (w : World) :=
  (sense_inputs (motor w), I_bus_ (motor w),
   (CCR1 (tim w), CCR2 (tim w), CCR3 (tim w))).

Definition sense_untouched_kept (w w' : World) : Prop :=
  sense_untouched w' = sense_untouched w.

(** The measurement, which only [measurement_update] writes. *)
Definition measurement (w : World) : Iph_ABC_t * float :=
  (current_meas_ (motor w), I_leak_ (motor w)).

Definition measurement_kept (w w' : World) : Prop :=
  sense_untouched w' = sense_untouched w /\ measurement w' = measurement w.

Ltac sense_frame :=
  unfold measurement_kept, sense_untouched_kept, measurement, sense_untouched,
    sense_inputs, sensor_fields;
  intros; fields;
  first [ reflexivity | split; reflexivity | congruence | intuition congruence
        | unfold measurement_update;
          match goal with
          | |- context [if ?c then _ else _] => destruct c; reflexivity
          end ].

Lemma sense_inputs_dc_calib_valid (m m' : Motor) :
  sense_inputs m' = sense_inputs m -> dc_calib_valid m' = dc_calib_valid m.
Proof.
  unfold sense_inputs. intros H. injection H as H1 H2 H3 H4 _ _.
  unfold dc_calib_valid. rewrite H1, H2, H3, H4. reflexivity.
Qed.

Lemma sense_inputs_measurement_update (i : Iph_ABC_t) (v : bool) (m m' : Motor) :
  sense_inputs m' = sense_inputs m ->
  current_meas_ (measurement_update i v m') = current_meas_ (measurement_update i v m) /\
  I_leak_ (measurement_update i v m') = I_leak_ (measurement_update i v m).
Proof.
  intros H. unfold measurement_update.
  rewrite (sense_inputs_dc_calib_valid _ _ H).
  unfold sense_inputs in H. injection H as H1 _ _ _ _ _.
  destruct (v && dc_calib_valid m); fields; rewrite ?H1; split; reflexivity.
Qed.

Lemma counting_up_entry_untouched (w : World) :
  sense_untouched (counting_up_entry w) = sense_untouched w /\
  measurement (counting_up_entry w) = measurement w.
Proof.
  unfold counting_up_entry, log_timing. rewrite exec_emit.
  unfold sense_untouched, measurement, sense_inputs, sensor_fields. fields.
  split; reflexivity.
Qed.

(** The state in which a counting-up cycle runs its checks, and how the
    final state relates to the state at entry. *)
Lemma current_sense_cycle_states (w : World) (adc_a adc_b adc_c : Z) :
  counting_down_ (motor w) = true ->
  (Z.land (CR1 (tim w)) TIM_CR1_DIR =? 0) = true ->
  let i := measured_current (motor w) adc_a adc_b adc_c in
  exists w5,
    exec (tim_update_cb adc_a adc_b adc_c) w = exec current_sense_checks w5 /\
    sense_untouched w5 = sense_untouched w /\
    current_meas_ (motor w5)
      = current_meas_ (measurement_update i (current_is_valid i) (motor w)) /\
    I_leak_ (motor w5)
      = I_leak_ (measurement_update i (current_is_valid i) (motor w)).
Proof.
  intros Hprev Hdir i.
  rewrite (tim_update_cb_counting_up _ _ _ _ Hprev Hdir). cbv zeta.
  destruct (counting_up_entry_untouched w) as [H3 _].
  assert (Hi : measured_current (motor (counting_up_entry w)) adc_a adc_b adc_c = i).
  { apply measured_current_same. unfold same.
    unfold sense_untouched, sense_inputs in H3. congruence. }
  rewrite Hi.
  assert (H4 : sense_untouched_kept (counting_up_entry w)
                 (exec (sense_current adc_a adc_b adc_c) (counting_up_entry w))).
  { apply keeps_sense_current; sense_frame. }
  unfold sense_untouched_kept in H4. rewrite H3 in H4.
  set (w4 := exec (sense_current adc_a adc_b adc_c) (counting_up_entry w)) in *.
  rewrite current_sense_step_unfold, exec_bind, exec_modify_motor.
  exists (set_motor (measurement_update i (current_is_valid i) (motor w4)) w4).
  split; [reflexivity|].
  assert (Hin : sense_inputs (motor w4) = sense_inputs (motor w)).
  { unfold sense_untouched in H4. congruence. }
  destruct (sense_inputs_measurement_update i (current_is_valid i) _ _ Hin) as [Hm Hl].
  fields. split; [|split; assumption].
  rewrite <- H4. unfold sense_untouched, sense_inputs, sensor_fields, measurement_update.
  fields. destruct (_ && _); reflexivity.
Qed.

(** X9.  The current-sense half (the direction changed to counting up).
    When the sample is valid and the offset calibration is trusted, the
    handler ends with the offset-corrected currents, their sum in [I_leak_]
    and a third of the sum removed from each phase; otherwise the measurement
    and the leak are NaN.  In both cases the offsets, the calibration time,
    the bus-current estimate and the compare registers are as before. *)
Theorem current_sense_cycle_measurement (w : World) (adc_a adc_b adc_c : Z) :
  counting_down_ (motor w) = true ->
  (Z.land (CR1 (tim w)) TIM_CR1_DIR =? 0) = true ->
  let i := measured_current (motor w) adc_a adc_b adc_c in
  let dc := DC_calib_ (motor w) in
  let w' := exec (tim_update_cb adc_a adc_b adc_c) w in
  (current_is_valid i && dc_calib_valid (motor w) = true ->
   let a := phA i -! phA dc in
   let b := phB i -! phB dc in
   let c := phC i -! phC dc in
   let leak := a +! b +! c in
   I_leak_ (motor w') = leak /\
   current_meas_ (motor w') = {| phA := a -! leak /! F32.of_Z 3;
                                 phB := b -! leak /! F32.of_Z 3;
                                 phC := c -! leak /! F32.of_Z 3 |}) /\
  (current_is_valid i && dc_calib_valid (motor w) = false ->
   I_leak_ (motor w') = F32.NAN /\
   current_meas_ (motor w') = {| phA := F32.NAN; phB := F32.NAN; phC := F32.NAN |}) /\
  DC_calib_ (motor w') = dc /\
  dc_calib_running_since_ (motor w') = dc_calib_running_since_ (motor w) /\
  I_bus_ (motor w') = I_bus_ (motor w) /\
  (CCR1 (tim w'), CCR2 (tim w'), CCR3 (tim w'))
    = (CCR1 (tim w), CCR2 (tim w), CCR3 (tim w)).
Proof.
  intros Hprev Hdir i dc w'. subst w' dc.
  destruct (current_sense_cycle_states w adc_a adc_b adc_c Hprev Hdir)
    as [w5 [-> [Hu [Hm Hl]]]].
  fold i in Hm, Hl.
  destruct (keeps_current_sense_checks measurement_kept
              ltac:(sense_frame) ltac:(sense_frame) ltac:(sense_frame)
              ltac:(sense_frame) ltac:(sense_frame) ltac:(sense_frame) w5)
    as [Hu' Hm'].
  rewrite Hu in Hu'.
  unfold measurement in Hm'. injection Hm' as Hm' Hl'.
  rewrite Hm', Hl', Hm, Hl.
  unfold sense_untouched, sense_inputs in Hu'.
  unfold measurement_update.
  split; [intros ->; fields; split; reflexivity|].
  split; [intros ->; fields; split; reflexivity|].
  repeat split; congruence.
Qed.

(** X10.  The trips of the current-sense half.  When the handler ends a
    counting-up cycle with a leak current above [I_leak_max], or with a
    measured current whose squared norm is above the square of the effective
    limit plus the margin, the motor is disarmed and the corresponding error
    is recorded. *)
Theorem current_sense_cycle_trips (w : World) (adc_a adc_b adc_c : Z) :
  counting_down_ (motor w) = true ->
  (Z.land (CR1 (tim w)) TIM_CR1_DIR =? 0) = true ->
  let m' := motor (exec (tim_update_cb adc_a adc_b adc_c) w) in
  (F32.gtb (F32.abs (I_leak_ m')) (I_leak_max (config_ m')) = true ->
   is_armed_ m' = false /\ has_error (error_ m') ERROR_I_LEAK_OUT_OF_RANGE) /\
  (F32.gtb
     (F32.of_Z 2 /! F32.of_Z 3 *!
      (F32.SQ (phA (current_meas_ m')) +! F32.SQ (phB (current_meas_ m'))
       +! F32.SQ (phC (current_meas_ m'))))
     (F32.SQ (effective_current_lim_ m' +! current_lim_margin (config_ m'))) = true ->
   is_armed_ m' = false /\ has_error (error_ m') ERROR_CURRENT_LIMIT_VIOLATION).
Proof.
  intros Hprev Hdir m'. subst m'.
  destruct (current_sense_cycle_states w adc_a adc_b adc_c Hprev Hdir)
    as [w5 [-> _]].
  clear Hprev Hdir. revert w5.
  assert (Hlater : forall (w6 w9 : World) (e : Error),
            stays_off (faulted e w6) w9 -> errors_kept (faulted e w6) w9 ->
            is_armed_ (motor w9) = false /\ has_error (error_ (motor w9)) e).
  { intros w6 w9 e Hoff Herr. split.
    - apply Hoff. reflexivity.
    - unfold has_error. eapply land_superset_has; [apply Herr|].
      unfold faulted, disarmed. fields. apply land_lor_same. }
  assert (Hoff_trans : forall a b c, stays_off a b -> stays_off b c -> stays_off a c)
    by stays_off_frame.
  intros w5. unfold current_sense_checks.
  rewrite exec_bind, exec_bind, exec_bind.
  assert (H8 : forall w8, measurement_kept w8 (exec control_law_measurement w8)).
  { apply keeps_control_law_measurement; sense_frame. }
  assert (H7 : forall w7, measurement_kept w7 (exec current_limit_check w7)).
  { apply keeps_current_limit_check; sense_frame. }
  assert (H6 : forall w6, measurement_kept w6 (exec do_fast_checks w6)).
  { apply keeps_do_fast_checks; sense_frame. }
  assert (H5 : forall w5, measurement_kept w5 (exec leak_check w5)).
  { apply keeps_leak_check; sense_frame. }
  assert (Hoff8 : keeps stays_off control_law_measurement).
  { apply keeps_control_law_measurement; stays_off_frame. }
  assert (Herr8 : keeps errors_kept control_law_measurement).
  { apply keeps_control_law_measurement; errors_frame. }
  assert (Hoff7 : keeps stays_off current_limit_check).
  { apply keeps_current_limit_check; stays_off_frame. }
  assert (Herr7 : keeps errors_kept current_limit_check).
  { apply keeps_current_limit_check; errors_frame. }
  assert (Hoff6 : keeps stays_off do_fast_checks).
  { apply keeps_do_fast_checks; stays_off_frame. }
  assert (Herr6 : keeps errors_kept do_fast_checks).
  { apply keeps_do_fast_checks; errors_frame. }
  split.
  - intros Htrip.
    assert (Hw6 : exec leak_check w5 = faulted ERROR_I_LEAK_OUT_OF_RANGE w5).
    { unfold leak_check.
      rewrite exec_bind, retval_gets, exec_gets.
      replace (F32.gtb (F32.abs (I_leak_ (motor w5))) (I_leak_max (config_ (motor w5))))
        with true; [apply disarm_with_error_exec|].
      rewrite <- Htrip.
      destruct (H5 w5) as [U5 M5]. destruct (H6 (exec leak_check w5)) as [U6 M6].
      destruct (H7 (exec do_fast_checks (exec leak_check w5))) as [U7 M7].
      destruct (H8 (exec current_limit_check
                      (exec do_fast_checks (exec leak_check w5)))) as [U8 M8].
      unfold measurement, sense_untouched, sense_inputs in *.
      congruence. }
    rewrite Hw6 in *. apply (Hlater w5).
    + eapply Hoff_trans; [apply Hoff6|]. eapply Hoff_trans; [apply Hoff7|apply Hoff8].
    + eapply errors_kept_trans; [apply Herr6|].
      eapply errors_kept_trans; [apply Herr7|apply Herr8].
  - intros Htrip.
    set (w7 := exec do_fast_checks (exec leak_check w5)) in *.
    assert (Hw8 : exec current_limit_check w7
                  = faulted ERROR_CURRENT_LIMIT_VIOLATION w7).
    { unfold current_limit_check.
      rewrite exec_bind, retval_gets, exec_gets. cbv zeta.
      match goal with
      | |- exec (when ?c _) _ = _ => replace c with true; [apply disarm_with_error_exec|]
      end.
      rewrite <- Htrip.
      destruct (H7 w7) as [U7 M7]. destruct (H8 (exec current_limit_check w7)) as [U8 M8].
      unfold measurement, sense_untouched, sense_inputs in *.
      congruence. }
    rewrite Hw8 in *. apply (Hlater w7); [apply Hoff8|apply Herr8].
Qed.

(** *** The PWM half of the interrupt handler *)

Lemma apply_pwm_timings_compare (w : World) (t0 t1 t2 : Z) (tentative : bool) :
  let w' := exec (apply_pwm_timings (t0, t1, t2) tentative) w in
  (CCR1 (tim w'), CCR2 (tim w'), CCR3 (tim w')) = (t0, t1, t2).
Proof.
  destruct w as [m t l bra vbus rs flux ready fault tr].
  destruct m as [armed cl err cfg dc since meas leak ibus lim maxdc gain cond mask cd ts].
  destruct t as [cr1 sr bdtr c1 c2 c3].
  unfold apply_pwm_timings, disarm_with_error, disarm.
  unfold_m.
  cbv -[app clear_bits Z.land Z.lor Z.eqb Error_bit TIM_BDTR_AOE TIM_BDTR_MOE].
  repeat (case_if;
          cbv -[app clear_bits Z.land Z.lor Z.eqb Error_bit TIM_BDTR_AOE TIM_BDTR_MOE]);
    reflexivity.
Qed.

(** The compare registers are left alone. *)
Definition compare_kept (w w' : World) : Prop :=
  (CCR1 (tim w'), CCR2 (tim w'), CCR3 (tim w'))
  = (CCR1 (tim w), CCR2 (tim w), CCR3 (tim w)).

(** The motor object and the timer are left alone. *)
Definition motor_and_timer_kept (w w' : World) : Prop :=
  motor w' = motor w /\ tim w' = tim w.

Ltac compare_frame :=
  unfold compare_kept, motor_and_timer_kept; intros; fields;
  first [ reflexivity | split; reflexivity | congruence | intuition congruence ].

Lemma apply_control_law_result_disarmed (r : Result) (w : World) :
  is_armed_ (motor w) = false ->
  exec (apply_control_law_result r) w = w /\
  retval (apply_control_law_result r) w = F32.zero.
Proof.
  intros H. unfold apply_control_law_result.
  rewrite exec_bind, retval_bind, retval_gets, exec_gets, H.
  split; reflexivity.
Qed.

(** X11.  A disarmed motor in the PWM half (the direction changed to
    counting down): the handler ends with the three compare registers at
    half the period, the bus-current estimate at zero and the motor still
    disarmed, and it sets no bit of BDTR, whatever the samples, the control
    law and the flags are. *)
Theorem pwm_cycle_on_disarmed_motor (w : World) (adc_a adc_b adc_c : Z) :
  counting_down_ (motor w) = false ->
  (Z.land (CR1 (tim w)) TIM_CR1_DIR =? 0) = false ->
  is_armed_ (motor w) = false ->
  let w' := exec (tim_update_cb adc_a adc_b adc_c) w in
  let half := wrap16 (TIM_1_8_PERIOD_CLOCKS / 2) in
  (CCR1 (tim w'), CCR2 (tim w'), CCR3 (tim w')) = (half, half, half) /\
  I_bus_ (motor w') = F32.zero /\
  is_armed_ (motor w') = false /\
  Z.land (BDTR (tim w')) (BDTR (tim w)) = BDTR (tim w').
Proof.
  intros Hprev Hdir Harmed w' half. subst w' half.
  assert (Hoff : stays_off w (exec (tim_update_cb adc_a adc_b adc_c) w)).
  { apply keeps_tim_update_cb; stays_off_frame. }
  destruct (Hoff Harmed) as [Hoff1 Hoff2]. clear Hoff.
  cut ((CCR1 (tim (exec (tim_update_cb adc_a adc_b adc_c) w)),
        CCR2 (tim (exec (tim_update_cb adc_a adc_b adc_c) w)),
        CCR3 (tim (exec (tim_update_cb adc_a adc_b adc_c) w)))
       = (wrap16 (TIM_1_8_PERIOD_CLOCKS / 2), wrap16 (TIM_1_8_PERIOD_CLOCKS / 2),
          wrap16 (TIM_1_8_PERIOD_CLOCKS / 2)) /\
       I_bus_ (motor (exec (tim_update_cb adc_a adc_b adc_c) w)) = F32.zero);
    [tauto|].
  clear Hoff1 Hoff2.
  rewrite (tim_update_cb_counting_down _ _ _ _ Hprev Hdir). cbv zeta.
  unfold counting_down_entry.
  match goal with
  | |- context [exec (apply_pwm_timings (?a, ?b, ?c) true) ?w0] =>
      pose proof (apply_pwm_timings_compare w0 a b c true) as H3;
      assert (A3 : stays_off w (exec (apply_pwm_timings (a, b, c) true) w0));
      [|set (w3 := exec (apply_pwm_timings (a, b, c) true) w0) in *]
  end.
  { match goal with
    | |- stays_off _ (exec ?m ?w0) =>
        assert (A : stays_off w0 (exec m w0))
          by (apply keeps_apply_pwm_timings; stays_off_frame);
        intros Ha; apply A; unfold log_timing; rewrite exec_emit; fields; exact Ha
    end. }
  cbv zeta in H3.
  destruct (A3 Harmed) as [A3' _]. clear A3.
  generalize (measured_current (motor w3) adc_a adc_b adc_c). intros i.
  assert (H4 : compare_kept w3 (exec (sense_current adc_a adc_b adc_c) w3)).
  { apply keeps_sense_current; compare_frame. }
  assert (A4 : stays_off w3 (exec (sense_current adc_a adc_b adc_c) w3)).
  { apply keeps_sense_current; stays_off_frame. }
  destruct (A4 A3') as [A4' _]. clear A4.
  set (w4 := exec (sense_current adc_a adc_b adc_c) w3) in *.
  assert (H5 : compare_kept w4 (exec (dc_calib_step i (current_is_valid i)) w4)).
  { apply keeps_dc_calib_step; compare_frame. }
  assert (A5 : stays_off w4 (exec (dc_calib_step i (current_is_valid i)) w4)).
  { apply keeps_dc_calib_step; stays_off_frame. }
  destruct (A5 A4') as [A5' _]. clear A5.
  set (w5 := exec (dc_calib_step i (current_is_valid i)) w4) in *.
  rewrite pwm_update_step_unfold, exec_bind, exec_bind.
  assert (H6 : motor_and_timer_kept w5 (exec control_law_output w5)).
  { apply keeps_control_law_output; compare_frame. }
  destruct H6 as [H6m H6t].
  set (w6 := exec control_law_output w5) in *.
  assert (A6 : is_armed_ (motor w6) = false) by congruence.
  destruct (apply_control_law_result_disarmed (retval control_law_output w5) w6 A6)
    as [-> ->].
  split.
  - assert (H7 : compare_kept w6 (exec (bus_current_update F32.zero) w6)).
    { apply keeps_bus_current_update; compare_frame. }
    unfold compare_kept in *. congruence.
  - unfold bus_current_update.
    rewrite exec_bind, retval_gets, exec_gets, A6. cbn [negb]. cbv zeta.
    rewrite exec_bind, exec_modify_motor.
    match goal with
    | |- I_bus_ (motor (exec ?m ?w0)) = _ =>
        assert (H7 : I_bus_ (motor (exec m w0)) = I_bus_ (motor w0));
        [|rewrite H7; reflexivity]
    end.
    apply (keeps_bus_current_check (fun a b => I_bus_ (motor b) = I_bus_ (motor a)));
      intros; fields; congruence.
Qed.

Lemma bus_current_check_keeps_I_bus (i_bus : float) (w : World) :
  I_bus_ (motor (exec (bus_current_check i_bus) w)) = I_bus_ (motor w).
Proof.
  apply (keeps_bus_current_check (fun a b => I_bus_ (motor b) = I_bus_ (motor a)));
    intros; fields; congruence.
Qed.

Lemma bus_current_check_in_range (i_bus : float) (w : World) :
  F32.ltb i_bus (I_bus_hard_min (config_ (motor w)))
  || F32.gtb i_bus (I_bus_hard_max (config_ (motor w))) = false ->
  motor_and_timer_kept w (exec (bus_current_check i_bus) w).
Proof.
  intros H. unfold bus_current_check.
  rewrite exec_bind, retval_gets, exec_gets, H. cbn [when].
  rewrite exec_bind, exec_ret, exec_bind.
  unfold update_brake_current, log_timing. rewrite !exec_emit.
  split; reflexivity.
Qed.

Lemma bus_current_check_out_of_range (i_bus : float) (w : World) :
  F32.ltb i_bus (I_bus_hard_min (config_ (motor w)))
  || F32.gtb i_bus (I_bus_hard_max (config_ (motor w))) = true ->
  is_armed_ (motor (exec (bus_current_check i_bus) w)) = false /\
  has_error (error_ (motor (exec (bus_current_check i_bus) w))) ERROR_I_BUS_OUT_OF_RANGE.
Proof.
  intros H. unfold bus_current_check.
  rewrite exec_bind, retval_gets, exec_gets, H. cbn [when].
  rewrite exec_bind, disarm_with_error_exec, exec_bind.
  unfold update_brake_current, log_timing. rewrite !exec_emit.
  unfold faulted, disarmed, has_error. fields.
  split; [reflexivity|apply land_lor_same].
Qed.

Lemma control_law_output_kept (w : World) :
  motor_and_timer_kept w (exec control_law_output w) /\
  brake_resistor_armed (exec control_law_output w) = brake_resistor_armed w.
Proof.
  apply (keeps_control_law_output
           (fun a b => motor_and_timer_kept a b /\
                       brake_resistor_armed b = brake_resistor_armed a));
    unfold motor_and_timer_kept; intros; fields;
    first [ tauto | intuition congruence ].
Qed.

(** X12.  The start-up tolerance of the PWM half.  When the motor is armed
    and its control law answers that it is still initialising, the handler
    tolerates it as long as the master output enable is clear: the motor
    object changes only in [I_bus_], which becomes zero (provided zero lies
    within the hard bus-current bounds), and the timer is left alone.  Once
    the master output enable is set the same answer disarms the motor with
    the initialising error. *)
Theorem initializing_tolerated_until_outputs_enabled (w : World) :
  is_armed_ (motor w) = true ->
  retval control_law_output w = Failed ERROR_CONTROLLER_INITIALIZING ->
  let w' := exec pwm_update_step w in
  (Z.land (BDTR (tim w)) TIM_BDTR_MOE = 0 ->
   F32.ltb F32.zero (I_bus_hard_min (config_ (motor w)))
   || F32.gtb F32.zero (I_bus_hard_max (config_ (motor w))) = false ->
   motor w' = set_I_bus_ F32.zero (motor w) /\ tim w' = tim w) /\
  (Z.land (BDTR (tim w)) TIM_BDTR_MOE <> 0 ->
   is_armed_ (motor w') = false /\
   has_error (error_ (motor w')) ERROR_CONTROLLER_INITIALIZING /\
   I_bus_ (motor w') = F32.zero).
Proof.
  intros Harmed Hr w'. subst w'.
  rewrite pwm_update_step_unfold, exec_bind, exec_bind, Hr.
  destruct (control_law_output_kept w) as [[Hm Ht] _].
  set (w1 := exec control_law_output w) in *.
  unfold apply_control_law_result.
  rewrite exec_bind, retval_bind, retval_gets, exec_gets, Hm, Harmed.
  rewrite exec_bind, retval_bind, retval_tim_read, exec_tim_read. fields.
  rewrite Ht. change (Error_eqb ERROR_CONTROLLER_INITIALIZING
                        ERROR_CONTROLLER_INITIALIZING) with true.
  rewrite andb_true_r.
  split.
  - intros Hmoe Hbounds. apply Z.eqb_eq in Hmoe. rewrite Hmoe.
    rewrite exec_bind, retval_bind, exec_ret, exec_ret, retval_ret.
    unfold bus_current_update.
    rewrite exec_bind, retval_gets, exec_gets. fields. rewrite Hm, Harmed.
    cbn [negb]. cbv zeta. rewrite exec_bind, exec_modify_motor.
    match goal with
    | |- context [exec (bus_current_check F32.zero) ?w0] =>
        destruct (bus_current_check_in_range F32.zero w0) as [Hm' Ht']
    end.
    { fields. rewrite Hm. exact Hbounds. }
    rewrite Hm', Ht'. fields. rewrite Hm, Ht. split; reflexivity.
  - intros Hmoe. apply Z.eqb_neq in Hmoe. rewrite Hmoe.
    rewrite exec_bind, retval_bind, exec_ret, retval_ret, disarm_with_error_exec.
    unfold bus_current_update.
    rewrite exec_bind, retval_gets, exec_gets.
    change (is_armed_ (motor (faulted ERROR_CONTROLLER_INITIALIZING ?x))) with false.
    cbn [negb]. cbv zeta. rewrite exec_bind, exec_modify_motor.
    match goal with
    | |- context [exec (bus_current_check F32.zero) ?w0] =>
        assert (Hoff : stays_off w0 (exec (bus_current_check F32.zero) w0))
          by (apply keeps_bus_current_check; stays_off_frame);
        assert (Herr : errors_kept w0 (exec (bus_current_check F32.zero) w0))
          by (apply keeps_bus_current_check; errors_frame);
        pose proof (bus_current_check_keeps_I_bus F32.zero w0) as Hbus;
        set (w3 := exec (bus_current_check F32.zero) w0) in *
    end.
    split; [apply Hoff; reflexivity|].
    split; [|rewrite Hbus; reflexivity].
    unfold has_error. eapply land_superset_has; [exact Herr|].
    unfold faulted, disarmed. fields. apply land_lor_same.
Qed.

(** X13.  The nominal PWM update.  When the motor is armed, the brake
    resistor is armed, the update flag is clear and the control law returns
    timings, the handler's PWM step writes the timings scaled to the period
    into the compare registers and sets the automatic output enable; the
    bus-current estimate becomes the duty-weighted sum of the measured phase
    currents.  When that estimate lies within the hard bounds the motor
    object changes in nothing else; when it does not the motor is disarmed
    with the bus-current error and the estimate keeps the offending value. *)
Theorem pwm_update_commits_control_law_output (w : World) (t0 t1 t2 : float) :
  is_armed_ (motor w) = true ->
  brake_resistor_armed w = true ->
  Z.land (SR (tim w)) TIM_FLAG_UPDATE <> TIM_FLAG_UPDATE ->
  retval control_law_output w = Timings t0 t1 t2 ->
  let half := F32.lit 1 2 in
  let i_bus := (half -! t0) *! phA (current_meas_ (motor w))
               +! (half -! t1) *! phB (current_meas_ (motor w))
               +! (half -! t2) *! phC (current_meas_ (motor w)) in
  let out_of_range := F32.ltb i_bus (I_bus_hard_min (config_ (motor w)))
                      || F32.gtb i_bus (I_bus_hard_max (config_ (motor w))) in
  let w' := exec pwm_update_step w in
  (CCR1 (tim w'), CCR2 (tim w'), CCR3 (tim w'))
    = (duty_to_timing t0, duty_to_timing t1, duty_to_timing t2) /\
  I_bus_ (motor w') = i_bus /\
  (out_of_range = false ->
   motor w' = set_I_bus_ i_bus (motor w) /\
   BDTR (tim w') = Z.lor (BDTR (tim w)) TIM_BDTR_AOE) /\
  (out_of_range = true ->
   is_armed_ (motor w') = false /\
   has_error (error_ (motor w')) ERROR_I_BUS_OUT_OF_RANGE).
Proof.
  intros Harmed Hbra Hflag Hr half i_bus out_of_range w'.
  subst w' out_of_range.
  rewrite pwm_update_step_unfold, exec_bind, exec_bind, Hr.
  destruct (control_law_output_kept w) as [[Hm Ht] Hb].
  set (w1 := exec control_law_output w) in *.
  unfold apply_control_law_result.
  rewrite exec_bind, retval_bind, retval_gets, exec_gets, Hm, Harmed.
  cbv zeta. rewrite exec_bind, retval_bind, exec_ret, retval_ret.
  fold half. fold i_bus.
  destruct (apply_pwm_timings_commit_state w1
              (duty_to_timing t0) (duty_to_timing t1) (duty_to_timing t2) false)
    as [Hm2 [Hc2 [Hb2 _]]].
  { congruence. }
  { congruence. }
  set (w2 := exec (apply_pwm_timings
                     (duty_to_timing t0, duty_to_timing t1, duty_to_timing t2) false)
                  w1) in *.
  rewrite Hm, Harmed in Hb2. cbn [negb andb] in Hb2. rewrite Ht in Hb2.
  unfold bus_current_update.
  rewrite exec_bind, retval_gets, exec_gets, Hm2, Hm, Harmed.
  cbn [negb]. cbv zeta. rewrite exec_bind, exec_modify_motor.
  set (w3 := set_motor (set_I_bus_ i_bus (motor w2)) w2).
  assert (Hc3 : compare_kept w3 (exec (bus_current_check i_bus) w3)).
  { apply keeps_bus_current_check; compare_frame. }
  split; [unfold compare_kept in Hc3; rewrite Hc3; exact Hc2|].
  split; [rewrite bus_current_check_keeps_I_bus; reflexivity|].
  assert (Hcfg : config_ (motor w3) = config_ (motor w)).
  { unfold w3. fields. rewrite Hm2, Hm. reflexivity. }
  split.
  - intros Hin.
    destruct (bus_current_check_in_range i_bus w3) as [Hm3 Ht3].
    { rewrite Hcfg. exact Hin. }
    rewrite Hm3, Ht3. unfold w3. fields. rewrite Hm2, Hm, Hb2. split; reflexivity.
  - intros Hout. apply bus_current_check_out_of_range.
    rewrite Hcfg. exact Hout.
Qed.

(** *** The measurement control laws over a run of measurements *)

(** The measurements of a run: bus voltage, alpha and beta current and the
    timestamp of each. *)
Definition Measurement : Type := float * float * float * Z.

Definition resistance_law_run (ms : list Measurement) (s : RLaw.t) : RLaw.t :=
  fold_left (fun s '(vbus, Ialpha, Ibeta, ts) =>
               snd (RLaw.on_measurement board vbus Ialpha Ibeta ts s)) ms s.

Lemma resistance_law_nan_voltage_stays (m : Measurement) (s : RLaw.t) :
  F32.isnan (RLaw.test_voltage_ s) = true ->
  F32.isnan (RLaw.test_voltage_
               (snd (let '(vbus, Ialpha, Ibeta, ts) := m in
                     RLaw.on_measurement board vbus Ialpha Ibeta ts s))) = true.
Proof.
  destruct m as [[[vbus Ialpha] Ibeta] ts]. intros H.
  unfold RLaw.on_measurement.
  destruct (RLaw.test_voltage_ s); try discriminate H.
  cbn [RLaw.test_voltage_ RLaw.set_test_voltage_ RLaw.max_voltage_ RLaw.test_current_
       F32.add SFadd F32.abs SFabs F32.gtb SFltb SFcompare].
  destruct (RLaw.max_voltage_ s); cbn [SFltb SFcompare];
    destruct (F32.isnan vbus); reflexivity.
Qed.

(** X14.  An over-voltage verdict of the resistance law is final.  Once
    [on_measurement] has returned the phase-resistance error, the integrated
    test voltage is NaN and stays NaN over every further run of
    measurements, so [get_resistance] reports NaN until the law is reset. *)
Theorem resistance_law_failure_is_final
    (vbus Ialpha Ibeta : float) (ts : Z) (s : RLaw.t) (ms : list Measurement) :
  fst (RLaw.on_measurement board vbus Ialpha Ibeta ts s)
    = ERROR_PHASE_RESISTANCE_OUT_OF_RANGE ->
  let s' := resistance_law_run ms
              (snd (RLaw.on_measurement board vbus Ialpha Ibeta ts s)) in
  F32.isnan (RLaw.test_voltage_ s') = true /\
  F32.isnan (RLaw.get_resistance s') = true.
Proof.
  intros H s'.
  assert (H0 : F32.isnan (RLaw.test_voltage_
                            (snd (RLaw.on_measurement board vbus Ialpha Ibeta ts s)))
               = true).
  { revert H. unfold RLaw.on_measurement.
    destruct (F32.gtb _ _); [reflexivity|].
    destruct (F32.isnan vbus); discriminate. }
  assert (H1 : F32.isnan (RLaw.test_voltage_ s') = true).
  { subst s'. revert H0.
    generalize (snd (RLaw.on_measurement board vbus Ialpha Ibeta ts s)).
    induction ms as [|m ms IH]; intros s0 H0; [exact H0|].
    unfold resistance_law_run. cbn [fold_left]. apply IH.
    pose proof (resistance_law_nan_voltage_stays m s0 H0) as Hs.
    destruct m as [[[v a] b] t]. exact Hs. }
  split; [exact H1|].
  unfold RLaw.get_resistance.
  destruct (RLaw.test_voltage_ s'); try discriminate H1. reflexivity.
Qed.

(** X15.  The inductance law measures elapsed time modulo 2^32: when the
    last measurement came [d] timer clocks after the first, with [d] below
    2^32, [get_inductance] divides by [d] clocks also when the timestamp
    wrapped around in between. *)
Theorem inductance_law_time_survives_wrap_around (s : LLaw.t) (d : Z) :
  0 <= d < 2 ^ 32 ->
  LLaw.last_input_timestamp_ s = wrap32 (LLaw.start_timestamp_ s + d) ->
  LLaw.get_inductance board s
  = F32.abs (LLaw.test_voltage_ s)
    /! (LLaw.deltaI_ s /! (F32.of_Z d /! F32.of_Z TIM_1_8_CLOCK_HZ)).
Proof.
  intros Hd Hlast. unfold LLaw.get_inductance. rewrite Hlast.
  replace (wrap32 (wrap32 (LLaw.start_timestamp_ s + d) - LLaw.start_timestamp_ s))
    with d; [reflexivity|].
  unfold wrap32. rewrite Zminus_mod_idemp_l.
  replace (LLaw.start_timestamp_ s + d - LLaw.start_timestamp_ s) with d by lia.
  symmetry. apply Z.mod_small. exact Hd.
Qed.

(** *** Calibration on a motor that does not get armed *)

Lemma wait_while_armed_not_armed (background : M unit) (n : nat) (w : World) :
  is_armed_ (motor w) = false -> exec (wait_while_armed background n) w = w.
Proof.
  intros H. destruct n as [|n]; [reflexivity|].
  cbn [wait_while_armed].
  rewrite exec_bind, retval_gets, exec_gets, exec_bind, retval_gets, exec_gets, H.
  rewrite andb_false_r. reflexivity.
Qed.

Lemma arm_without_brake_resistor (l : ControlLaw) (w : World) :
  brake_resistor_armed w = false ->
  is_armed_ (motor w) = false ->
  is_armed_ (motor (exec (arm (Some law_cell)) (set_law l w))) = false /\
  error_ (motor (exec (arm (Some law_cell)) (set_law l w))) = error_ (motor w) /\
  law (exec (arm (Some law_cell)) (set_law l w))
  = match l with
    | ResistanceLaw s => ResistanceLaw (RLaw.reset s)
    | InductanceLaw s => InductanceLaw (LLaw.reset s)
    | OtherLaw s => OtherLaw (ext_reset s)
    end.
Proof.
  intros Hbra Harmed. rewrite motor_arm. fields. rewrite Hbra. fields.
  split; [exact Harmed|]. split; [reflexivity|].
  destruct w as [m t l0 bra vbus rs flux ready fault tr].
  cbv -[app RLaw.reset LLaw.reset]. destruct bra, l; reflexivity.
Qed.

Lemma never_attached_inductance_is_nan (test_voltage clock : float) :
  F32.isnan (F32.abs test_voltage /! (F32.zero /! (F32.of_Z 0 /! clock))) = true.
Proof.
  destruct test_voltage as [[]|[]| |[] ? ?], clock as [[]|[]| |[] ? ?]; reflexivity.
Qed.

(** X16.  Calibration without the brake resistor.  On a disarmed motor
    whose brake resistor is not armed, [arm] does not arm and the wait loop
    ends at once, so nothing that could run during a sleep has any
    influence, and the routines report failure:
    [measure_phase_resistance] returns false, stores [0 / test_current] and
    records no error unless that quotient is NaN;
    [measure_phase_inductance] stores NaN, records the inductance error and
    returns false. *)
Theorem calibration_without_brake_resistor
    (background : M unit) (test_current max_voltage test_voltage : float) (w : World) :
  is_armed_ (motor w) = false ->
  brake_resistor_armed w = false ->
  let mr := measure_phase_resistance background test_current max_voltage in
  let ml := measure_phase_inductance background test_voltage in
  retval mr w = false /\
  phase_resistance (config_ (motor (exec mr w))) = F32.zero /! test_current /\
  (F32.isnan (F32.zero /! test_current) = false ->
   error_ (motor (exec mr w)) = error_ (motor w)) /\
  retval ml w = false /\
  F32.isnan (phase_inductance (config_ (motor (exec ml w)))) = true /\
  has_error (error_ (motor (exec ml w))) ERROR_PHASE_INDUCTANCE_OUT_OF_RANGE /\
  exec mr w = exec (measure_phase_resistance (ret tt) test_current max_voltage) w /\
  exec ml w = exec (measure_phase_inductance (ret tt) test_voltage) w.
Proof.
  intros Harmed Hbra mr ml. subst mr ml.
  assert (HR : forall bg,
            resistance_loop_exit bg test_current max_voltage w
            = exec (arm (Some law_cell))
                (set_law (ResistanceLaw
                   {| RLaw.max_voltage_ := max_voltage;
                      RLaw.test_current_ := test_current;
                      RLaw.test_voltage_ := RLaw.test_voltage_ RLaw.init;
                      RLaw.test_mod_ := RLaw.test_mod_ RLaw.init |}) w)).
  { intros bg. unfold resistance_loop_exit.
    apply wait_while_armed_not_armed.
    apply (arm_without_brake_resistor _ w Hbra Harmed). }
  assert (HL : forall bg,
            inductance_loop_exit bg test_voltage w
            = exec (arm (Some law_cell))
                (set_law (InductanceLaw (LLaw.set_test_voltage_ test_voltage LLaw.init))
                   w)).
  { intros bg. unfold inductance_loop_exit.
    apply wait_while_armed_not_armed.
    apply (arm_without_brake_resistor _ w Hbra Harmed). }
  rewrite !exec_measure_phase_resistance, !exec_measure_phase_inductance,
    retval_measure_phase_resistance, retval_measure_phase_inductance.
  rewrite !HR, !HL.
  match goal with
  | |- context [resistance_finish ?x] =>
      destruct (arm_without_brake_resistor
                  (ResistanceLaw
                     {| RLaw.max_voltage_ := max_voltage;
                        RLaw.test_current_ := test_current;
                        RLaw.test_voltage_ := RLaw.test_voltage_ RLaw.init;
                        RLaw.test_mod_ := RLaw.test_mod_ RLaw.init |}) w Hbra Harmed)
        as [Ra [Re Rl]];
      set (wr := x) in *
  end.
  match goal with
  | |- context [inductance_finish ?x] =>
      destruct (arm_without_brake_resistor
                  (InductanceLaw (LLaw.set_test_voltage_ test_voltage LLaw.init))
                  w Hbra Harmed)
        as [La [Le Ll]];
      set (wl := x) in *
  end.
  assert (Rres : resistance_result wr = F32.zero /! test_current).
  { unfold resistance_result, local_resistance_law. rewrite retval_gets, Rl.
    reflexivity. }
  assert (Lres : F32.isnan (inductance_result wl) = true).
  { unfold inductance_result, local_inductance_law. rewrite retval_gets, Ll.
    apply never_attached_inductance_is_nan. }
  assert (Lband : negb (inductance_in_band (inductance_result wl)) = true).
  { unfold inductance_in_band. destruct (inductance_result wl); try discriminate Lres.
    reflexivity. }
  unfold resistance_finish, inductance_finish. rewrite Rres, Lband, Ra.
  cbn [fst snd].
  split; [destruct (F32.isnan (F32.zero /! test_current)); reflexivity|].
  split.
  { destruct (F32.isnan (F32.zero /! test_current)); cbn [snd];
      unfold faulted, resistance_stored, disarmed; fields; exact Rres. }
  split.
  { intros ->. cbn [snd]. unfold resistance_stored, disarmed. fields. exact Re. }
  split; [reflexivity|].
  split.
  { unfold inductance_stored, disarmed. fields. exact Lres. }
  split.
  { unfold has_error. fields. apply land_lor_same. }
  split; reflexivity.
Qed.


(** *** A saturated current sensor *)

(** A sample that is present but outside the window of the current
    sensor. *)
Definition saturated (adc : Z) : bool :=
  negb (adc =? ADC_UNAVAILABLE)
  && ((adc <? CURRENT_ADC_LOWER_BOUND) || (adc >? CURRENT_ADC_UPPER_BOUND)).

(** The motor is disarmed and the error kind is recorded. *)
Definition disarmed_with (e : Error) (w : World) : Prop :=
  is_armed_ (motor w) = false /\ has_error (error_ (motor w)) e.

Lemma disarmed_with_faulted (e : Error) (w : World) : disarmed_with e (faulted e w).
Proof.
  unfold disarmed_with, has_error, faulted, disarmed. fields.
  split; [reflexivity|apply land_lor_same].
Qed.

Lemma disarmed_with_later (e : Error) (w w' : World) :
  stays_off w w' -> errors_kept w w' -> disarmed_with e w -> disarmed_with e w'.
Proof.
  intros Hoff Herr [Ha He]. split; [apply Hoff; exact Ha|].
  unfold has_error. eapply land_superset_has; eassumption.
Qed.

Lemma sense_current_saturated (adc_a adc_b adc_c : Z) (w : World) :
  saturated adc_a || saturated adc_b || saturated adc_c = true ->
  disarmed_with ERROR_CURRENT_SENSE_SATURATION
    (exec (sense_current adc_a adc_b adc_c) w).
Proof.
  intros H.
  assert (Hcheck : forall adc w0,
            (saturated adc = true ->
             disarmed_with ERROR_CURRENT_SENSE_SATURATION
               (exec (check_adc_range adc) w0)) /\
            (disarmed_with ERROR_CURRENT_SENSE_SATURATION w0 ->
             disarmed_with ERROR_CURRENT_SENSE_SATURATION
               (exec (check_adc_range adc) w0))).
  { intros adc w0. split.
    - unfold saturated, check_adc_range. intros ->.
      rewrite exec_bind, exec_ret, disarm_with_error_exec.
      apply disarmed_with_faulted.
    - apply disarmed_with_later.
      + apply (keeps_check_adc_range stays_off); stays_off_frame.
      + apply (keeps_check_adc_range errors_kept); errors_frame. }
  unfold sense_current.
  rewrite exec_bind, exec_bind, exec_bind, exec_bind, exec_gets, exec_bind, exec_ret.
  unfold log_timing. rewrite exec_emit.
  match goal with
  | |- disarmed_with _ (set_trace _ ?x) =>
      assert (Hx : disarmed_with ERROR_CURRENT_SENSE_SATURATION x); [|exact Hx]
  end.
  destruct (saturated adc_a) eqn:Ea.
  - apply (proj2 (Hcheck _ _)), (proj2 (Hcheck _ _)), (proj1 (Hcheck _ _)). exact Ea.
  - destruct (saturated adc_b) eqn:Eb.
    + apply (proj2 (Hcheck _ _)), (proj1 (Hcheck _ _)). exact Eb.
    + cbn [orb] in H. apply (proj1 (Hcheck _ _)). exact H.
Qed.

(** X17.  A saturated current sensor disarms.  Whenever the handler does
    not return early for a missed update and one of the three samples is
    present but outside the window of the sensor, the handler ends with the
    motor disarmed and the current-sense-saturation error recorded,
    whichever half of the PWM period it serves. *)
Theorem saturated_sample_disarms (w : World) (adc_a adc_b adc_c : Z) :
  counting_down_ (motor w) <> negb (Z.land (CR1 (tim w)) TIM_CR1_DIR =? 0) ->
  saturated adc_a || saturated adc_b || saturated adc_c = true ->
  let w' := exec (tim_update_cb adc_a adc_b adc_c) w in
  is_armed_ (motor w') = false /\
  has_error (error_ (motor w')) ERROR_CURRENT_SENSE_SATURATION.
Proof.
  intros Hdir Hsat. cbv zeta.
  change (disarmed_with ERROR_CURRENT_SENSE_SATURATION
            (exec (tim_update_cb adc_a adc_b adc_c) w)).
  destruct (counting_down_ (motor w)) eqn:Hprev;
    destruct (Z.land (CR1 (tim w)) TIM_CR1_DIR =? 0) eqn:Hcr1;
    cbn [negb] in Hdir; try congruence.
  - rewrite (tim_update_cb_counting_up _ _ _ _ Hprev Hcr1). cbv zeta.
    eapply disarmed_with_later; [| |apply sense_current_saturated; exact Hsat].
    + apply (keeps_current_sense_step stays_off); stays_off_frame.
    + apply (keeps_current_sense_step errors_kept); errors_frame.
  - rewrite (tim_update_cb_counting_down _ _ _ _ Hprev Hcr1). cbv zeta.
    eapply disarmed_with_later;
      [| |eapply disarmed_with_later;
          [| |apply sense_current_saturated; exact Hsat]].
    + apply (keeps_pwm_update_step stays_off); stays_off_frame.
    + apply (keeps_pwm_update_step errors_kept); errors_frame.
    + apply (keeps_dc_calib_step stays_off); stays_off_frame.
    + apply (keeps_dc_calib_step errors_kept); errors_frame.
Qed.

(** *** What [disarm] does to the timer *)

Lemma outputs_off_idempotent (x : Z) : outputs_off (outputs_off x) = outputs_off x.
Proof.
  unfold outputs_off, clear_bits.
  apply Z.bits_inj'; intros n _. rewrite !Z.land_spec.
  destruct (Z.testbit x n),
           (Z.testbit (Z.lxor 4294967295 TIM_BDTR_AOE) n),
           (Z.testbit (Z.lxor 4294967295 TIM_BDTR_MOE) n); reflexivity.
Qed.

Lemma outputs_off_bits (x n : Z) :
  0 <= n < 32 ->
  Z.testbit (outputs_off x) n = Z.testbit x n && negb (n =? 14) && negb (n =? 15).
Proof.
  intros Hn. unfold outputs_off, clear_bits. rewrite !Z.land_spec, !Z.lxor_spec.
  change 4294967295 with (Z.ones 32).
  rewrite Z.ones_spec_low by exact Hn.
  change TIM_BDTR_AOE with (2 ^ 14). change TIM_BDTR_MOE with (2 ^ 15).
  rewrite !Z.pow2_bits_eqb by lia.
  rewrite (Z.eqb_sym 14 n), (Z.eqb_sym 15 n).
  destruct (Z.testbit x n), (n =? 14), (n =? 15); reflexivity.
Qed.

(** X18.  [disarm] and the timer.  [disarm] returns true and stores the
    previous armed flag in the caller's variable; of the motor object it
    changes only the armed flag and the control-law pointer; of the 32-bit
    BDTR register it clears bits 14 and 15, the automatic and the master
    output enable, and keeps every other bit; it leaves the other registers
    and the control-law object alone.  A second [disarm] changes neither the
    motor nor the timer. *)
Theorem disarm_clears_only_the_output_enables (w : World) (p : BoolPtr) :
  let w' := exec (disarm p) w in
  retval (disarm p) w
    = (true, match p with
             | addr_of_caller_var => Some (is_armed_ (motor w))
             | _ => None
             end) /\
  motor w' = set_control_law_ None (set_is_armed_ false (motor w)) /\
  (forall n, 0 <= n < 32 ->
     Z.testbit (BDTR (tim w')) n
     = Z.testbit (BDTR (tim w)) n && negb (n =? 14) && negb (n =? 15)) /\
  (CR1 (tim w'), SR (tim w'), CCR1 (tim w'), CCR2 (tim w'), CCR3 (tim w'))
    = (CR1 (tim w), SR (tim w), CCR1 (tim w), CCR2 (tim w), CCR3 (tim w)) /\
  law w' = law w /\
  motor (exec (disarm p) w') = motor w' /\
  tim (exec (disarm p) w') = tim w'.
Proof.
  intros w'. subst w'. rewrite disarm_retval, !disarm_exec.
  split; [reflexivity|].
  unfold disarmed. fields.
  split; [reflexivity|].
  split; [intros n Hn; apply (outputs_off_bits _ n Hn)|].
  split; [reflexivity|]. split; [reflexivity|]. split; [reflexivity|].
  fold (outputs_off (BDTR (tim w))).
  fold (outputs_off (outputs_off (BDTR (tim w)))).
  rewrite outputs_off_idempotent. reflexivity.
Qed.

(** *** What [arm] resets *)

(** X19.  [arm] and the control law.  [arm] zeroes the rotor flux of the
    estimator and, when it is given a control law, resets that law; it
    leaves the timer alone.  A resistance law that was just armed answers
    the first request for an output with the initialising error, which is
    the answer the PWM half tolerates until the outputs are enabled. *)
Theorem arm_resets_the_control_law (w : World) (p : option LawRef) :
  let w' := exec (arm p) w in
  rotor_flux_ w' = F32.zero /\
  tim w' = tim w /\
  law w' = match p with
           | Some _ =>
               match law w with
               | ResistanceLaw s => ResistanceLaw (RLaw.reset s)
               | InductanceLaw s => InductanceLaw (LLaw.reset s)
               | OtherLaw s => OtherLaw (ext_reset s)
               end
           | None => law w
           end /\
  trace w' = trace w ++ [EvCriticalEnter; EvControllerReset]
                     ++ match p with Some _ => [EvLawReset] | None => [] end
                     ++ [EvCriticalExit] /\
  (forall s, p = Some law_cell -> law w = ResistanceLaw s ->
     retval control_law_output w' = Failed ERROR_CONTROLLER_INITIALIZING).
Proof.
  intros w'. subst w'.
  destruct w as [m t l bra vbus rs flux ready fault tr].
  split; [destruct p, bra; reflexivity|].
  split; [destruct p, bra; reflexivity|].
  split; [destruct p, bra, l; reflexivity|].
  split.
  { cbv -[app]. destruct p, bra; repeat rewrite <- app_assoc; reflexivity. }
  intros s -> Hl. cbn in Hl. subst l.
  destruct bra; reflexivity.
Qed.

(** *** The wait loop of the calibration routines *)

Section WaitLoop.

Variable background : M unit.

(** The world after [k] sleeps of one millisecond. *)
Fixpoint after_sleeps (k : nat) (w : World) : World :=
  match k with
  | O => w
  | S k' => after_sleeps k' (exec (osDelay background 1) w)
  end.

(** The condition under which the loop goes on. *)
Definition keeps_waiting (w : World) : bool :=
  AxisState_is_undefined (requested_state_ w) && is_armed_ (motor w).

(** X20.  The wait loop polls a bounded number of times.
    [wait_while_armed n] sleeps [k] times for some [k] of at most [n]: before
    each of these sleeps another axis state was not requested and the motor
    was armed, and when the loop ends before the [n]-th sleep one of the two
    no longer holds.  With 3000 and 1250 for [n] these are the loops of the
    two measurement routines. *)
Theorem wait_while_armed_polls_at_most_n_times (n : nat) (w : World) :
  exists k, (k <= n)%nat /\
    exec (wait_while_armed background n) w = after_sleeps k w /\
    (forall j, (j < k)%nat -> keeps_waiting (after_sleeps j w) = true) /\
    ((k < n)%nat -> keeps_waiting (after_sleeps k w) = false).
Proof.
  revert w. induction n as [|n IH]; intros w.
  - exists O. split; [lia|]. split; [reflexivity|]. split; intros; lia.
  - cbn [wait_while_armed].
    rewrite exec_bind, retval_gets, exec_gets, exec_bind, retval_gets, exec_gets.
    fold (keeps_waiting w).
    destruct (keeps_waiting w) eqn:E; cbn [negb].
    + rewrite exec_bind.
      destruct (IH (exec (osDelay background 1) w)) as [k [Hk [He [Hj Hlt]]]].
      exists (S k). split; [lia|]. split; [exact He|].
      split.
      * intros [|j] Hlt'; [exact E|]. cbn [after_sleeps]. apply Hj. lia.
      * intros Hlt'. cbn [after_sleeps]. apply Hlt. lia.
    + exists O. split; [lia|]. split; [reflexivity|].
      split; [intros j Hj; lia|]. intros _. exact E.
Qed.

(** X21.  What the measurement routines return.  [measure_phase_resistance]
    returns true exactly when the motor was still armed when the wait loop
    ended and the resistance read back is not NaN; [measure_phase_inductance]
    returns true exactly when the motor was still armed when the wait loop
    ended and the inductance read back lies between 2 and 4000 microhenry.
    A loop that ends because another axis state was requested, with the motor
    still armed, counts like a loop that ran to its end. *)
Theorem measurement_success_criterion
    (test_current max_voltage test_voltage : float) (w : World) :
  let wr := resistance_loop_exit background test_current max_voltage w in
  let wl := inductance_loop_exit background test_voltage w in
  retval (measure_phase_resistance background test_current max_voltage) w
    = is_armed_ (motor wr) && negb (F32.isnan (resistance_result wr)) /\
  retval (measure_phase_inductance background test_voltage) w
    = is_armed_ (motor wl)
      && (F32.geb (inductance_result wl) (F32.lit 2 1000000)
          && F32.leb (inductance_result wl) (F32.lit 4000 1000000)).
Proof.
  cbv zeta.
  rewrite retval_measure_phase_resistance, retval_measure_phase_inductance.
  generalize (resistance_loop_exit background test_current max_voltage w).
  intros wr.
  generalize (inductance_loop_exit background test_voltage w).
  intros wl.
  unfold resistance_finish, inductance_finish, inductance_in_band.
  destruct (F32.isnan (resistance_result wr));
    destruct (F32.geb _ _ && F32.leb _ _); cbn [fst negb];
    rewrite ?andb_true_r, ?andb_false_r; split; reflexivity.
Qed.

End WaitLoop.

(** *** The conversion of a sample to a current *)

Lemma binary_round_aux_opp (s : bool) (m e : Z) (l : location) :
  binary_round_aux F32.prec F32.emax (negb s) m e l
  = SFopp (binary_round_aux F32.prec F32.emax s m e l).
Proof.
  unfold binary_round_aux.
  destruct (shr_fexp F32.prec F32.emax m e l) as [mrs e'].
  destruct (shr_fexp F32.prec F32.emax _ e' loc_Exact) as [mrs' e''].
  destruct (shr_m mrs'); [reflexivity| |reflexivity].
  destruct (e'' <=? F32.emax - F32.prec); reflexivity.
Qed.

Lemma mul_neg_r (x y : float) : x *! F32.neg y = F32.neg (x *! y).
Proof.
  unfold F32.mul, F32.neg.
  destruct x as [sx|sx| |sx mx ex], y as [sy|sy| |sy my ey];
    cbn [SFmul SFopp]; try reflexivity;
    try (destruct sx, sy; reflexivity).
  destruct sx, sy; cbn [xorb negb].
  - apply (binary_round_aux_opp false).
  - symmetry. rewrite <- (binary_round_aux_opp true). reflexivity.
  - symmetry. rewrite <- (binary_round_aux_opp true). reflexivity.
  - apply (binary_round_aux_opp false).
Qed.

Lemma mul_neg_l (x y : float) : F32.neg x *! y = F32.neg (x *! y).
Proof.
  unfold F32.mul, F32.neg.
  destruct x as [sx|sx| |sx mx ex], y as [sy|sy| |sy my ey];
    cbn [SFmul SFopp]; try reflexivity;
    try (destruct sx, sy; reflexivity).
  destruct sx, sy; cbn [xorb negb].
  - apply (binary_round_aux_opp false).
  - symmetry. rewrite <- (binary_round_aux_opp true). reflexivity.
  - symmetry. rewrite <- (binary_round_aux_opp true). reflexivity.
  - apply (binary_round_aux_opp false).
Qed.

Lemma of_Z_opp (d : Z) : d <> 0 -> F32.of_Z (- d) = F32.neg (F32.of_Z d).
Proof.
  intros Hd. unfold F32.of_Z, F32.neg, binary_normalize.
  destruct d as [|p|p]; [contradiction| |]; cbn [Z.opp]; unfold binary_round.
  - destruct (shl_align _ _ _) as [mz ez]. apply (binary_round_aux_opp false).
  - destruct (shl_align _ _ _) as [mz ez].
    rewrite <- (binary_round_aux_opp true). reflexivity.
Qed.

(** X22.  The conversion of a sample is odd around mid-scale.  The samples
    [2048 + d] and [2048 - d] of the 12-bit converter give currents of equal
    magnitude and opposite sign, for every reverse gain and shunt
    conductance. *)
Theorem phase_current_is_odd_around_mid_scale (m : Motor) (d : Z) :
  0 < d <= 2047 ->
  phase_current_from_adcval m (2048 + d)
  = F32.neg (phase_current_from_adcval m (2048 - d)).
Proof.
  intros Hd. unfold phase_current_from_adcval.
  assert (Hu : int_of_uint32 (2048 + d) - 2 ^ 11 = d).
  { unfold int_of_uint32.
    destruct (Z.ltb_spec (2048 + d) (2 ^ 31)); lia. }
  assert (Hl : int_of_uint32 (2048 - d) - 2 ^ 11 = - d).
  { unfold int_of_uint32.
    destruct (Z.ltb_spec (2048 - d) (2 ^ 31)); lia. }
  rewrite Hu, Hl, of_Z_opp by lia.
  rewrite mul_neg_r, mul_neg_l, mul_neg_l.
  unfold F32.neg. destruct (_ *! shunt_conductance_ m) as [[]|[]| |[] ? ?]; reflexivity.
Qed.

End MoreProperties.

(* ------------------------------------------------------------------ *)
(** ** Properties of the gains, the limits and the calibration sequence *)

(** *** The order of binary32 values *)

(** A key whose lexicographic order is the order of the values, for every
    value but NaN. *)
Definition float_key (x : float) : option (Z * Z * Z) :=
  match x with
  | S754_nan => None
  | S754_infinity true => Some (-2, 0, 0)
  | S754_finite true m e => Some (-1, - e, - Zpos m)
  | S754_zero _ => Some (0, 0, 0)
  | S754_finite false m e => Some (1, e, Zpos m)
  | S754_infinity false => Some (2, 0, 0)
  end.

Definition key_le (a b : Z * Z * Z) : Prop :=
  let '(a1, a2, a3) := a in
  let '(b1, b2, b3) := b in
  a1 < b1 \/ (a1 = b1 /\ (a2 < b2 \/ (a2 = b2 /\ a3 <= b3))).

Definition key_lt (a b : Z * Z * Z) : Prop :=
  let '(a1, a2, a3) := a in
  let '(b1, b2, b3) := b in
  a1 < b1 \/ (a1 = b1 /\ (a2 < b2 \/ (a2 = b2 /\ a3 < b3))).

Lemma SFcompare_finite (s1 s2 : bool) (m1 m2 : positive) (e1 e2 : Z) :
  SFcompare (S754_finite s1 m1 e1) (S754_finite s2 m2 e2) =
  Some match s1, s2 with
       | true, false => Lt
       | false, true => Gt
       | false, false =>
           match e1 ?= e2 with
           | Lt => Lt | Gt => Gt | Eq => (Zpos m1 ?= Zpos m2)
           end
       | true, true =>
           match e1 ?= e2 with
           | Lt => Gt | Gt => Lt | Eq => CompOpp (Zpos m1 ?= Zpos m2)
           end
       end.
Proof.
  unfold SFcompare. destruct s1, s2; try reflexivity;
    destruct (e1 ?= e2); reflexivity.
Qed.

Lemma leb_key (x y : float) (a b : Z * Z * Z) :
  float_key x = Some a -> float_key y = Some b ->
  (F32.leb x y = true <-> key_le a b).
Proof.
  unfold F32.leb, SFleb.
  destruct x as [sx|sx| |sx mx ex], y as [sy|sy| |sy my ey];
    try discriminate; try (rewrite SFcompare_finite);
    try destruct sx; try destruct sy; cbn -[Z.compare];
    intros Ha Hb; injection Ha as <-; injection Hb as <-; unfold key_le;
    try (split; [intros _; lia | reflexivity]);
    try (split; [discriminate | lia]).
  - destruct (Z.compare_spec ex ey); destruct (Z.compare_spec (Zpos mx) (Zpos my));
      cbn; split; try discriminate; try reflexivity; lia.
  - destruct (Z.compare_spec ex ey); destruct (Z.compare_spec (Zpos mx) (Zpos my));
      cbn; split; try discriminate; try reflexivity; lia.
Qed.

Lemma ltb_key (x y : float) (a b : Z * Z * Z) :
  float_key x = Some a -> float_key y = Some b ->
  (F32.ltb x y = true <-> key_lt a b).
Proof.
  unfold F32.ltb, SFltb.
  destruct x as [sx|sx| |sx mx ex], y as [sy|sy| |sy my ey];
    try discriminate; try (rewrite SFcompare_finite);
    try destruct sx; try destruct sy; cbn -[Z.compare];
    intros Ha Hb; injection Ha as <-; injection Hb as <-; unfold key_lt;
    try (split; [intros _; lia | reflexivity]);
    try (split; [discriminate | lia]).
  - destruct (Z.compare_spec ex ey); destruct (Z.compare_spec (Zpos mx) (Zpos my));
      cbn; split; try discriminate; try reflexivity; lia.
  - destruct (Z.compare_spec ex ey); destruct (Z.compare_spec (Zpos mx) (Zpos my));
      cbn; split; try discriminate; try reflexivity; lia.
Qed.

Lemma float_key_some (x : float) :
  F32.isnan x = false -> exists a, float_key x = Some a.
Proof. destruct x as [[]|[]| |[] ? ?]; cbn; try discriminate; eauto. Qed.

Lemma leb_not_nan (x y : float) :
  F32.leb x y = true -> F32.isnan x = false /\ F32.isnan y = false.
Proof.
  destruct x as [[]|[]| |[] ? ?], y as [[]|[]| |[] ? ?]; cbn; try discriminate; auto.
Qed.

Lemma ltb_not_nan (x y : float) :
  F32.ltb x y = true -> F32.isnan x = false /\ F32.isnan y = false.
Proof.
  destruct x as [[]|[]| |[] ? ?], y as [[]|[]| |[] ? ?]; cbn; try discriminate; auto.
Qed.

Lemma leb_refl (x : float) : F32.isnan x = false -> F32.leb x x = true.
Proof.
  intros H. destruct (float_key_some x H) as [[[a1 a2] a3] Ha].
  apply (leb_key x x _ _ Ha Ha). unfold key_le. lia.
Qed.

Lemma leb_trans (x y z : float) :
  F32.leb x y = true -> F32.leb y z = true -> F32.leb x z = true.
Proof.
  intros Hxy Hyz.
  destruct (leb_not_nan _ _ Hxy) as [Hx Hy]. destruct (leb_not_nan _ _ Hyz) as [_ Hz].
  destruct (float_key_some x Hx) as [[[a1 a2] a3] Ha].
  destruct (float_key_some y Hy) as [[[b1 b2] b3] Hb].
  destruct (float_key_some z Hz) as [[[c1 c2] c3] Hc].
  apply (leb_key _ _ _ _ Ha Hb) in Hxy. apply (leb_key _ _ _ _ Hb Hc) in Hyz.
  apply (leb_key _ _ _ _ Ha Hc). unfold key_le in *. lia.
Qed.

Lemma ltb_leb (x y : float) : F32.ltb x y = true -> F32.leb x y = true.
Proof.
  intros H. destruct (ltb_not_nan _ _ H) as [Hx Hy].
  destruct (float_key_some x Hx) as [[[a1 a2] a3] Ha].
  destruct (float_key_some y Hy) as [[[b1 b2] b3] Hb].
  apply (ltb_key _ _ _ _ Ha Hb) in H.
  apply (leb_key _ _ _ _ Ha Hb). unfold key_le, key_lt in *. lia.
Qed.

Lemma not_ltb_leb (x y : float) :
  F32.isnan x = false -> F32.isnan y = false ->
  F32.ltb x y = false -> F32.leb y x = true.
Proof.
  intros Hx Hy H.
  destruct (float_key_some x Hx) as [[[a1 a2] a3] Ha].
  destruct (float_key_some y Hy) as [[[b1 b2] b3] Hb].
  apply (leb_key _ _ _ _ Hb Ha).
  assert (Hn : ~ key_lt (a1, a2, a3) (b1, b2, b3)).
  { intros Hlt. apply (ltb_key _ _ _ _ Ha Hb) in Hlt. congruence. }
  unfold key_le, key_lt in *. lia.
Qed.

(** [std::min] on a value that is not NaN: the result is not NaN, it is at
    most the first argument, and at most the second unless that is NaN. *)
Lemma min_bounds (a b : float) :
  F32.isnan a = false ->
  F32.isnan (F32.min a b) = false /\
  F32.leb (F32.min a b) a = true /\
  (F32.isnan b = false -> F32.leb (F32.min a b) b = true).
Proof.
  intros Ha. unfold F32.min. destruct (F32.ltb b a) eqn:E.
  - destruct (ltb_not_nan _ _ E) as [Hb _].
    split; [exact Hb|]. split; [apply ltb_leb; exact E|].
    intros _. apply leb_refl. exact Hb.
  - split; [exact Ha|]. split; [apply leb_refl; exact Ha|].
    intros Hb. apply not_ltb_leb; assumption.
Qed.

Lemma clamp_bounds (v lo hi : float) :
  F32.leb lo hi = true ->
  F32.isnan (clamp v lo hi) = F32.isnan v /\
  (F32.isnan v = false ->
   F32.leb lo (clamp v lo hi) = true /\ F32.leb (clamp v lo hi) hi = true).
Proof.
  intros H. destruct (leb_not_nan _ _ H) as [Hlo Hhi].
  unfold clamp. destruct (F32.ltb v lo) eqn:E1.
  - destruct (ltb_not_nan _ _ E1) as [Hv _].
    split; [congruence|]. intros _. split; [apply leb_refl; exact Hlo|exact H].
  - destruct (F32.ltb hi v) eqn:E2.
    + destruct (ltb_not_nan _ _ E2) as [_ Hv].
      split; [congruence|]. intros _. split; [exact H|apply leb_refl; exact Hhi].
    + split; [reflexivity|]. intros Hv.
      split; apply not_ltb_leb; assumption.
Qed.

Section SetupProperties.

Context {board : Board} {ext : External} {limits : AxisLimits}.

(** *** The current-controller gains *)

Lemma quotient_by_zero_times_zero (R bw : float) (sign : bool) :
  F32.isnan ((R /! S754_zero sign) *! (bw *! S754_zero sign)) = true.
Proof.
  destruct R as [[]|[]| |[] ? ?], bw as [[]|[]| |[] ? ?], sign; reflexivity.
Qed.

(** X23.  Gains without a measured inductance.  When the configured phase
    inductance is zero, of either sign, [update_current_controller_gains]
    leaves a NaN integrator gain, whatever the resistance and the bandwidth
    are; so does [apply_config], which calls it. *)
Theorem gains_undefined_with_zero_inductance (s : MotorSetup) (w : World) (sign : bool) :
  phase_inductance (config_ (motor w)) = S754_zero sign ->
  F32.isnan (i_gain_ (retval (update_current_controller_gains s) w)) = true /\
  F32.isnan (i_gain_ (snd (retval (apply_config s) w))) = true.
Proof.
  intros H. unfold apply_config, update_current_controller_gains.
  rewrite !retval_bind, !retval_gets, !exec_gets, !retval_ret, H.
  cbn [i_gain_ p_gain_ set_i_gain_ set_p_gain_ set_is_calibrated_
       current_control_bandwidth snd].
  split; apply quotient_by_zero_times_zero.
Qed.

(** *** The limits *)

Lemma fold_min_bounds (bs : list float) (a : float) :
  F32.isnan a = false ->
  let r := fold_left F32.min bs a in
  F32.isnan r = false /\
  F32.leb r a = true /\
  (forall b, In b bs -> F32.isnan b = false -> F32.leb r b = true).
Proof.
  revert a. induction bs as [|b bs IH]; intros a Ha; cbn [fold_left].
  - split; [exact Ha|]. split; [apply leb_refl; exact Ha|]. intros b [].
  - destruct (min_bounds a b Ha) as [Hn [Hle Hb]].
    destruct (IH (F32.min a b) Hn) as [Hr [Hra Hrb]].
    split; [exact Hr|].
    split; [eapply leb_trans; eassumption|].
    intros b' [<-|Hin] Hb'.
    + eapply leb_trans; [exact Hra|apply Hb; exact Hb'].
    + apply Hrb; assumption.
Qed.

(** The hardware limit [effective_current_lim] applies before the limiters. *)
Definition hardware_current_limit (s : MotorSetup) (w : World) : float :=
  match motor_type s with
  | MOTOR_TYPE_GIMBAL => F32.lit 98 100 *! one_by_sqrt3 *! vbus_voltage w
  | _ => max_allowed_current_ s
  end.

(** X24.  The effective current limit.  With a configured limit that is
    not NaN, [effective_current_lim] returns a value that is not NaN, that is
    at most the configured limit, at most the hardware limit and at most the
    answer of every limiter of the axis, NaN answers being ignored; it
    stores that value in [effective_current_lim_] and changes nothing else
    of the motor. *)
Theorem effective_current_lim_is_the_tightest (s : MotorSetup) (w : World) :
  F32.isnan (current_lim s) = false ->
  let r := retval (effective_current_lim s) w in
  let w' := exec (effective_current_lim s) w in
  F32.isnan r = false /\
  F32.leb r (current_lim s) = true /\
  (F32.isnan (hardware_current_limit s w) = false ->
   F32.leb r (hardware_current_limit s w) = true) /\
  (forall limiter, In limiter current_limiters_ ->
     F32.isnan (limiter (current_lim s)) = false ->
     F32.leb r (limiter (current_lim s)) = true) /\
  motor w' = set_effective_current_lim_ r (motor w).
Proof.
  intros Hlim r w'. subst r w'. unfold effective_current_lim.
  rewrite !retval_bind, !exec_bind, !retval_gets, !exec_gets, !exec_modify_motor.
  cbv zeta. fields.
  cbn [effective_current_lim_ set_effective_current_lim_].
  set (a1 := match motor_type s with
             | MOTOR_TYPE_GIMBAL =>
                 F32.min (current_lim s) (F32.lit 98 100 *! one_by_sqrt3 *! vbus_voltage w)
             | _ => F32.min (current_lim s) (max_allowed_current_ s)
             end).
  assert (Ha1 : a1 = F32.min (current_lim s) (hardware_current_limit s w)).
  { unfold a1, hardware_current_limit. destruct (motor_type s); reflexivity. }
  destruct (min_bounds (current_lim s) (hardware_current_limit s w) Hlim)
    as [Hn [Hle Hhw]].
  rewrite <- Ha1 in Hn, Hle, Hhw.
  assert (Hfold : forall (gs : list (float -> float)) (a : float),
            fold_left (fun acc get_current_limit =>
                         F32.min acc (get_current_limit (current_lim s))) gs a
            = fold_left F32.min (map (fun g => g (current_lim s)) gs) a).
  { induction gs as [|g gs IH]; intros a; [reflexivity|]. cbn [fold_left map].
    apply IH. }
  rewrite Hfold.
  destruct (fold_min_bounds (map (fun g => g (current_lim s)) current_limiters_) a1 Hn)
    as [Hr [Hra Hrb]].
  split; [exact Hr|].
  split; [eapply leb_trans; eassumption|].
  split; [intros Hh; eapply leb_trans; [exact Hra|apply Hhw; exact Hh]|].
  split; [|reflexivity].
  intros limiter Hin Hl. apply Hrb; [|exact Hl].
  apply (in_map (fun g => g (current_lim s))). exact Hin.
Qed.

(** X25.  The available torque.  With a torque limit that is at least
    zero, [max_available_torque] returns NaN exactly when the product of the
    effective current limit, the torque constant and, for an induction
    motor, the rotor flux is NaN; every other result lies between zero and
    the torque limit.  The call changes nothing. *)
Theorem max_available_torque_is_clamped (s : MotorSetup) (w : World) :
  F32.leb F32.zero (torque_lim s) = true ->
  let torque :=
    match motor_type s with
    | MOTOR_TYPE_ACIM =>
        effective_current_lim_ (motor w) *! torque_constant s *! rotor_flux_ w
    | _ => effective_current_lim_ (motor w) *! torque_constant s
    end in
  let r := retval (max_available_torque s) w in
  F32.isnan r = F32.isnan torque /\
  (F32.isnan torque = false ->
   F32.leb F32.zero r = true /\ F32.leb r (torque_lim s) = true) /\
  exec (max_available_torque s) w = w.
Proof.
  intros Hlim torque r.
  assert (Hr : r = clamp torque F32.zero (torque_lim s)).
  { subst r torque. unfold max_available_torque.
    rewrite retval_bind, retval_gets, exec_gets.
    destruct (motor_type s); reflexivity. }
  rewrite Hr.
  destruct (clamp_bounds torque F32.zero (torque_lim s) Hlim) as [H1 H2].
  split; [exact H1|]. split; [exact H2|].
  unfold max_available_torque. rewrite exec_bind, exec_gets.
  destruct (motor_type s); reflexivity.
Qed.

Lemma clamp_zero (lim : float) (sign : bool) :
  F32.leb F32.zero lim = true -> clamp (S754_zero sign) F32.zero lim = S754_zero sign.
Proof.
  destruct lim as [[]|[]| |[] ? ?], sign; try discriminate; reflexivity.
Qed.

Lemma finite_times_zero (x : float) :
  F32.isfinite x = true -> exists sign, x *! F32.zero = S754_zero sign.
Proof.
  destruct x as [sx|sx| |sx mx ex]; try discriminate; intros _; eexists; reflexivity.
Qed.

(** X28.  An induction motor right after [arm].  [arm] zeroes the rotor
    flux, so for an induction motor with a finite product of effective
    current limit and torque constant and a torque limit of at least zero,
    [max_available_torque] called right after [arm] returns zero, of
    either sign. *)
Theorem induction_motor_has_no_torque_after_arm
    (s : MotorSetup) (w : World) (p : option LawRef) :
  motor_type s = MOTOR_TYPE_ACIM ->
  F32.isfinite (effective_current_lim_ (motor w) *! torque_constant s) = true ->
  F32.leb F32.zero (torque_lim s) = true ->
  exists sign, retval (max_available_torque s) (exec (arm p) w) = S754_zero sign.
Proof.
  intros Htype Hfin Hlim. unfold max_available_torque.
  rewrite retval_bind, retval_gets, exec_gets, Htype.
  rewrite retval_bind, retval_gets, exec_gets, retval_ret.
  assert (Hflux : rotor_flux_ (exec (arm p) w) = F32.zero).
  { destruct w as [m t l bra vbus rs flux ready fault tr].
    destruct p, bra; reflexivity. }
  assert (Hl : effective_current_lim_ (motor (exec (arm p) w))
               = effective_current_lim_ (motor w)).
  { rewrite motor_arm. destruct (brake_resistor_armed w); reflexivity. }
  rewrite Hflux, Hl.
  destruct (finite_times_zero _ Hfin) as [sign ->].
  exists sign. apply clamp_zero. exact Hlim.
Qed.

(** *** The calibration sequence *)

Section CalibrationSequenceProperties.

Variable background : M unit.

(** The sequence [run_calibration] runs for the motor types it measures:
    two measurements, each stopping the sequence when it fails, then the
    gains and the calibrated flag. *)
Definition measure_then_finish (mr ml : M bool) (s : MotorSetup)
    : M (bool * MotorSetup) :=
  bind mr (fun measured =>
  if negb measured then ret (false, s)
  else
    bind ml (fun measured =>
    if negb measured then ret (false, s)
    else bind (update_current_controller_gains s)
           (fun s0 => ret (true, set_is_calibrated_ true s0)))).

Lemma run_calibration_measured (s : MotorSetup) :
  motor_type s = MOTOR_TYPE_HIGH_CURRENT \/ motor_type s = MOTOR_TYPE_ACIM ->
  run_calibration background s =
  measure_then_finish
    (measure_phase_resistance background (calibration_current s)
       (resistance_calib_max_voltage s))
    (measure_phase_inductance background (resistance_calib_max_voltage s)) s.
Proof.
  intros [H|H]; unfold run_calibration, measure_then_finish; rewrite H; reflexivity.
Qed.

Lemma finish_calibration (s : MotorSetup) (w : World) :
  retval (bind (update_current_controller_gains s)
            (fun s0 => ret (true, set_is_calibrated_ true s0))) w
  = (true, set_is_calibrated_ true (retval (update_current_controller_gains s) w)) /\
  exec (bind (update_current_controller_gains s)
          (fun s0 => ret (true, set_is_calibrated_ true s0))) w = w.
Proof.
  rewrite retval_bind, exec_bind, retval_ret, exec_ret.
  unfold update_current_controller_gains.
  rewrite exec_bind, exec_gets, exec_ret. split; reflexivity.
Qed.

Lemma measure_then_finish_outcome (mr ml : M bool) (s : MotorSetup) (w : World) :
  let r := retval (measure_then_finish mr ml s) w in
  let w' := exec (measure_then_finish mr ml s) w in
  (fst r = true ->
   snd r = set_is_calibrated_ true (retval (update_current_controller_gains s) w')) /\
  (fst r = false -> snd r = s) /\
  (retval mr w = false -> fst r = false /\ w' = exec mr w) /\
  (retval mr w = true -> w' = exec ml (exec mr w)) /\
  (fst r = true <-> retval mr w = true /\ retval ml (exec mr w) = true).
Proof.
  cbv zeta. unfold measure_then_finish.
  rewrite retval_bind, exec_bind.
  destruct (retval mr w); cbn [negb].
  - rewrite retval_bind, exec_bind.
    destruct (retval ml (exec mr w)); cbn [negb].
    + destruct (finish_calibration s (exec ml (exec mr w))) as [-> ->]. cbn [fst snd].
      split; [reflexivity|]. split; [discriminate|]. split; [discriminate|].
      split; [reflexivity|]. tauto.
    + rewrite retval_ret, exec_ret. cbn [fst snd].
      split; [discriminate|]. split; [reflexivity|]. split; [discriminate|].
      split; [reflexivity|]. split; [discriminate|intros [_ H]; discriminate H].
  - rewrite retval_ret, exec_ret. cbn [fst snd].
    split; [discriminate|]. split; [reflexivity|]. split; [split; reflexivity|].
    split; [discriminate|]. split; [discriminate|intros [H _]; discriminate H].
Qed.

(** X26.  The outcome of [run_calibration].  When it returns true the
    motor is marked calibrated and the gains are the ones
    [update_current_controller_gains] computes from the configuration the
    run ends with; when it returns false neither the calibrated flag nor the
    gains change.  For a gimbal motor and for an unknown motor type nothing
    is measured: the world is left as it is, with true returned for the
    gimbal motor and false for the unknown type. *)
Theorem run_calibration_outcome (s : MotorSetup) (w : World) :
  let r := retval (run_calibration background s) w in
  let w' := exec (run_calibration background s) w in
  (fst r = true ->
   snd r = set_is_calibrated_ true (retval (update_current_controller_gains s) w')) /\
  (fst r = false -> snd r = s) /\
  (motor_type s = MOTOR_TYPE_GIMBAL -> fst r = true /\ w' = w) /\
  (forall k, motor_type s = MOTOR_TYPE_OTHER k -> fst r = false /\ w' = w).
Proof.
  cbv zeta. destruct (motor_type s) eqn:E.
  - rewrite run_calibration_measured by (left; exact E).
    destruct (measure_then_finish_outcome
                (measure_phase_resistance background (calibration_current s)
                   (resistance_calib_max_voltage s))
                (measure_phase_inductance background (resistance_calib_max_voltage s))
                s w) as [H1 [H2 _]].
    split; [exact H1|]. split; [exact H2|].
    split; [discriminate|intros k; discriminate].
  - assert (Hrun : run_calibration background s =
                   bind (update_current_controller_gains s)
                     (fun s0 => ret (true, set_is_calibrated_ true s0))).
    { unfold run_calibration. rewrite E. reflexivity. }
    rewrite Hrun. destruct (finish_calibration s w) as [-> ->]. cbn [fst snd].
    split; [reflexivity|]. split; [discriminate|].
    split; [split; reflexivity|intros k; discriminate].
  - rewrite run_calibration_measured by (right; exact E).
    destruct (measure_then_finish_outcome
                (measure_phase_resistance background (calibration_current s)
                   (resistance_calib_max_voltage s))
                (measure_phase_inductance background (resistance_calib_max_voltage s))
                s w) as [H1 [H2 _]].
    split; [exact H1|]. split; [exact H2|].
    split; [discriminate|intros k0; discriminate].
  - assert (Hrun : run_calibration background s = ret (false, s)).
    { unfold run_calibration. rewrite E. reflexivity. }
    rewrite Hrun, retval_ret, exec_ret. cbn [fst snd].
    split; [discriminate|]. split; [reflexivity|].
    split; [discriminate|]. intros _ _. split; reflexivity.
Qed.

(** X27.  The measurements of [run_calibration].  For a high-current or an
    induction motor the call always ends with the motor disarmed.  When the
    resistance measurement fails the inductance is not measured: the world is
    the one the resistance measurement left.  A run that returns true went
    through both measurements and both returned true. *)
Theorem run_calibration_measurements (s : MotorSetup) (w : World) :
  motor_type s = MOTOR_TYPE_HIGH_CURRENT \/ motor_type s = MOTOR_TYPE_ACIM ->
  let mr := measure_phase_resistance background (calibration_current s)
              (resistance_calib_max_voltage s) in
  let ml := measure_phase_inductance background (resistance_calib_max_voltage s) in
  let r := retval (run_calibration background s) w in
  let w' := exec (run_calibration background s) w in
  is_armed_ (motor w') = false /\
  (retval mr w = false -> fst r = false /\ w' = exec mr w) /\
  (retval mr w = true -> w' = exec ml (exec mr w)) /\
  (fst r = true <-> retval mr w = true /\ retval ml (exec mr w) = true).
Proof.
  intros Htype. cbv zeta. rewrite (run_calibration_measured s Htype).
  destruct (measure_then_finish_outcome
              (measure_phase_resistance background (calibration_current s)
                 (resistance_calib_max_voltage s))
              (measure_phase_inductance background (resistance_calib_max_voltage s))
              s w) as [_ [_ [H3 [H4 H5]]]].
  split; [|split; [exact H3|split; [exact H4|exact H5]]].
  destruct (retval (measure_phase_resistance background (calibration_current s)
                      (resistance_calib_max_voltage s)) w) eqn:E.
  - rewrite (H4 eq_refl). rewrite exec_measure_phase_inductance.
    match goal with
    | |- context [inductance_finish ?x] => generalize x
    end.
    intros w3. unfold inductance_finish. destruct (negb _); reflexivity.
  - rewrite (proj2 (H3 eq_refl)). rewrite exec_measure_phase_resistance.
    match goal with
    | |- context [resistance_finish ?x] => generalize x
    end.
    intros w3. unfold resistance_finish. destruct (F32.isnan _); reflexivity.
Qed.

End CalibrationSequenceProperties.

End SetupProperties.

(* ------------------------------------------------------------------ *)
(** ** The further properties on concrete runs *)

(** The example background clears no error flag. *)
Lemma example_background_keeps_errors :
  keeps (ext := example_ext) errors_kept example_background.
Proof.
  assert (Hcb : forall a b c,
            keeps (ext := example_ext) errors_kept
              (tim_update_cb (board := example_board) a b c)).
  { intros a b c. apply keeps_tim_update_cb;
      first [ exact errors_kept_trans
            | unfold errors_kept; intros; fields;
              first [apply Z.land_diag | apply land_lor_superset] ]. }
  assert (Hhw : keeps (ext := example_ext) errors_kept hw_update_event).
  { intros w. unfold hw_update_event. rewrite exec_modify.
    unfold errors_kept. fields. apply Z.land_diag. }
  unfold example_background, pwm_period.
  apply keeps_bind; [exact errors_kept_trans| |intros _].
  - apply keeps_bind; [exact errors_kept_trans|exact Hhw|intros _].
    apply keeps_bind; [exact errors_kept_trans|apply Hcb|intros _].
    apply keeps_bind; [exact errors_kept_trans|exact Hhw|intros _].
    apply Hcb.
  - intros w. rewrite exec_modify. unfold errors_kept. fields. apply Z.land_diag.
Defined.

(** X1 on a resistance measurement that starts with the driver fault
    recorded: the fault is still recorded when the measurement returns. *)
Lemma error_flags_are_sticky_witness :
  let w := exec (do_checks 0) gate_fault_world in
  let c := CallMeasurePhaseResistance example_background (F32.of_Z 10) (F32.of_Z 2) in
  has_error (error_ (motor w)) ERROR_DRV_FAULT /\
  has_error (error_ (motor (exec (run_call (board := example_board) c) w)))
    ERROR_DRV_FAULT.
Proof.
  cbv zeta.
  assert (H : has_error (error_ (motor (exec (do_checks 0) gate_fault_world)))
                ERROR_DRV_FAULT) by (vm_compute; reflexivity).
  split; [exact H|].
  apply (error_flags_are_sticky (board := example_board)); [|exact H].
  intros bg Hbg. injection Hbg as <-. exact example_background_keeps_errors.
Defined.

(** X2 on a current-sense half of an armed motor: the handler leaves it
    armed, and it was armed before. *)
Lemma only_arm_arms_witness :
  let c := CallTimUpdateCb 2048 2048 2048 in
  is_armed_ (motor (exec (run_call (board := example_board) c)
                      calibrated_sense_world)) = true /\
  is_armed_ (motor calibrated_sense_world) = true /\
  control_law_ (motor (exec (run_call (board := example_board) c)
                         calibrated_sense_world))
    = control_law_ (motor calibrated_sense_world).
Proof.
  cbv zeta.
  assert (H : is_armed_
                (motor (exec (run_call (board := example_board)
                                (CallTimUpdateCb 2048 2048 2048))
                          calibrated_sense_world)) = true)
    by (vm_compute; reflexivity).
  split; [exact H|].
  apply (only_arm_arms (board := example_board)); [|exact H].
  intros p. discriminate.
Defined.

(** X3 on a disarm followed by a PWM commit, an interrupt and a
    gate-driver check. *)
Lemma disarm_holds_until_arm_witness :
  outputs_are_off
    (run_calls (board := example_board)
       [CallApplyPwmTimings (1000, 1750, 2500) false;
        CallTimUpdateCb 2048 2048 2048;
        CallDoChecks 0]
       (exec (disarm nullptr) latched_world)).
Proof.
  apply (disarm_holds_until_arm (board := example_board)). reflexivity.
Defined.

(** X4 on an interrupt. *)
Lemma settings_untouched_by_control_path_witness :
  settings (motor (exec (run_call (board := example_board)
                           (CallTimUpdateCb 2048 2048 2048)) sense_half_world))
  = settings (motor sense_half_world).
Proof.
  apply (settings_untouched_by_control_path (board := example_board)). reflexivity.
Defined.

(** X6 on a non-tentative commit on an armed motor. *)
Lemma apply_pwm_timings_commit_witness :
  let w := running_world in
  let w' := exec (apply_pwm_timings (1000, 1750, 2500) false) w in
  brake_resistor_armed w = true /\
  Z.land (SR (tim w)) TIM_FLAG_UPDATE <> TIM_FLAG_UPDATE /\
  motor w' = motor w /\
  (CCR1 (tim w'), CCR2 (tim w'), CCR3 (tim w')) = (1000, 1750, 2500) /\
  BDTR (tim w') = TIM_BDTR_AOE.
Proof.
  cbv zeta.
  assert (H1 : brake_resistor_armed running_world = true) by reflexivity.
  assert (H2 : Z.land (SR (tim running_world)) TIM_FLAG_UPDATE <> TIM_FLAG_UPDATE)
    by (vm_compute; discriminate).
  split; [exact H1|]. split; [exact H2|].
  destruct (apply_pwm_timings_commit running_world 1000 1750 2500 false H1 H2)
    as [H3 [H4 [H5 _]]].
  split; [exact H3|]. split; [exact H4|]. rewrite H5. reflexivity.
Defined.

(** X7 on an armed motor whose brake resistor was disarmed. *)
Lemma apply_pwm_timings_without_brake_resistor_witness :
  let w' := exec (apply_pwm_timings (1000, 1750, 2500) false) brake_off_world in
  is_armed_ (motor brake_off_world) = true /\
  is_armed_ (motor w') = false /\
  has_error (error_ (motor w')) ERROR_BRAKE_RESISTOR_DISARMED /\
  (CCR1 (tim w'), CCR2 (tim w'), CCR3 (tim w')) = (1000, 1750, 2500).
Proof.
  cbv zeta. split; [reflexivity|].
  destruct (apply_pwm_timings_without_brake_resistor brake_off_world 1000 1750 2500
              false eq_refl) as [H1 [_ [H2 [H3 _]]]].
  split; [exact H1|]. split; [exact H2|exact H3].
Defined.

(** X9 on a current-sense half with trusted offsets: 2.01 A in phase A
    returning through B and C. *)
Lemma current_sense_cycle_measurement_witness :
  let w := calibrated_sense_world in
  let w' := exec (tim_update_cb (board := example_board) 2098 2023 2023) w in
  current_is_valid (measured_current (board := example_board) (motor w) 2098 2023 2023)
  && dc_calib_valid (motor w) = true /\
  F32.isnan (I_leak_ (motor w')) = false /\
  DC_calib_ (motor w') = DC_calib_ (motor w).
Proof.
  cbv zeta.
  assert (H : current_is_valid
                (measured_current (board := example_board)
                   (motor calibrated_sense_world) 2098 2023 2023)
              && dc_calib_valid (motor calibrated_sense_world) = true)
    by (vm_compute; reflexivity).
  split; [exact H|].
  destruct (current_sense_cycle_measurement (board := example_board)
              calibrated_sense_world 2098 2023 2023 eq_refl eq_refl)
    as [H1 [_ [H3 _]]].
  split; [|exact H3].
  destruct (H1 H) as [Hl _]. rewrite Hl. vm_compute. reflexivity.
Defined.

(** X10 on a current-sense half that measures about 38 A against a trip
    level of 18 A. *)
Lemma current_sense_cycle_trips_witness :
  let w := calibrated_sense_world in
  let m' := motor (exec (tim_update_cb (board := example_board) 3000 1572 1572) w) in
  is_armed_ (motor w) = true /\
  is_armed_ m' = false /\
  has_error (error_ m') ERROR_CURRENT_LIMIT_VIOLATION.
Proof.
  cbv zeta. split; [reflexivity|].
  apply (proj2 (current_sense_cycle_trips (board := example_board)
                  calibrated_sense_world 3000 1572 1572 eq_refl eq_refl)).
  vm_compute. reflexivity.
Defined.

(** X11 on the PWM half of a disarmed motor. *)
Lemma pwm_cycle_on_disarmed_motor_witness :
  let w' := exec (tim_update_cb (board := example_board) 2048 2048 2048)
              calibration_half_world in
  (CCR1 (tim w'), CCR2 (tim w'), CCR3 (tim w')) = (1750, 1750, 1750) /\
  I_bus_ (motor w') = F32.zero /\
  is_armed_ (motor w') = false.
Proof.
  destruct (pwm_cycle_on_disarmed_motor (board := example_board)
              calibration_half_world 2048 2048 2048 eq_refl eq_refl eq_refl)
    as [H1 [H2 [H3 _]]].
  cbv zeta. split; [exact H1|]. split; [exact H2|exact H3].
Defined.

(** X12 on a motor that was just armed with a resistance law: the PWM
    step leaves it armed. *)
Lemma initializing_tolerated_until_outputs_enabled_witness :
  let w' := exec (pwm_update_step (board := example_board)) startup_world in
  retval (control_law_output (board := example_board)) startup_world
    = Failed ERROR_CONTROLLER_INITIALIZING /\
  is_armed_ (motor w') = true /\
  error_ (motor w') = 0 /\
  tim w' = tim startup_world.
Proof.
  cbv zeta.
  assert (H : retval (control_law_output (board := example_board)) startup_world
              = Failed ERROR_CONTROLLER_INITIALIZING) by (vm_compute; reflexivity).
  split; [exact H|].
  destruct (proj1 (initializing_tolerated_until_outputs_enabled
                     (board := example_board) startup_world eq_refl H)
              eq_refl eq_refl) as [Hm Ht].
  rewrite Hm, Ht. repeat split; reflexivity.
Defined.

(** X13 on a motor that runs the production law of [example_ext]. *)
Lemma pwm_update_commits_control_law_output_witness :
  let w' := exec (pwm_update_step (board := example_board)) running_world in
  (CCR1 (tim w'), CCR2 (tim w'), CCR3 (tim w')) = (1750, 1750, 1750) /\
  I_bus_ (motor w') = F32.zero /\
  is_armed_ (motor w') = true /\
  BDTR (tim w') = TIM_BDTR_AOE.
Proof.
  cbv zeta.
  assert (H2 : Z.land (SR (tim running_world)) TIM_FLAG_UPDATE <> TIM_FLAG_UPDATE)
    by (vm_compute; discriminate).
  assert (H3 : retval (control_law_output (board := example_board)) running_world
               = Timings (F32.lit 1 2) (F32.lit 1 2) (F32.lit 1 2))
    by (vm_compute; reflexivity).
  destruct (pwm_update_commits_control_law_output (board := example_board)
              running_world (F32.lit 1 2) (F32.lit 1 2) (F32.lit 1 2)
              eq_refl eq_refl H2 H3) as [Hc [Hi [Hin _]]].
  destruct (Hin ltac:(vm_compute; reflexivity)) as [Hm Hb].
  rewrite Hc, Hi, Hm, Hb. vm_compute. repeat split; reflexivity.
Defined.

(** X14 on a law with a cap of 1 mV: the first measurement exceeds it, and
    the verdict survives two good measurements. *)
Lemma resistance_law_failure_is_final_witness :
  let s := {| RLaw.max_voltage_ := F32.lit 1 1000; RLaw.test_current_ := F32.of_Z 10;
              RLaw.test_voltage_ := F32.zero; RLaw.test_mod_ := F32.NAN |} in
  let good := (F32.of_Z 24, F32.of_Z 10, F32.zero, 0) in
  fst (RLaw.on_measurement example_board (F32.of_Z 24) F32.zero F32.zero 0 s)
    = ERROR_PHASE_RESISTANCE_OUT_OF_RANGE /\
  F32.isnan (RLaw.get_resistance
               (resistance_law_run (board := example_board) [good; good]
                  (snd (RLaw.on_measurement example_board (F32.of_Z 24) F32.zero
                          F32.zero 0 s)))) = true.
Proof.
  cbv zeta.
  assert (H : fst (RLaw.on_measurement example_board (F32.of_Z 24) F32.zero F32.zero 0
                     {| RLaw.max_voltage_ := F32.lit 1 1000;
                        RLaw.test_current_ := F32.of_Z 10;
                        RLaw.test_voltage_ := F32.zero; RLaw.test_mod_ := F32.NAN |})
              = ERROR_PHASE_RESISTANCE_OUT_OF_RANGE) by (vm_compute; reflexivity).
  split; [exact H|].
  exact (proj2 (resistance_law_failure_is_final (board := example_board) _ _ _ _ _
                  [(F32.of_Z 24, F32.of_Z 10, F32.zero, 0);
                   (F32.of_Z 24, F32.of_Z 10, F32.zero, 0)] H)).
Defined.

(** X15 on a measurement that starts 1000 clocks before the timestamp
    wraps and ends 20000 clocks after. *)
Lemma inductance_law_time_survives_wrap_around_witness :
  let s := LLaw.set_last_input_timestamp_ 20000
             (LLaw.set_start_timestamp_ (2 ^ 32 - 1000)
                (LLaw.set_deltaI_ (F32.of_Z 1)
                   (LLaw.set_test_voltage_ (F32.of_Z 2) LLaw.init))) in
  LLaw.get_inductance example_board s
  = F32.of_Z 2 /! (F32.of_Z 1 /! (F32.of_Z 21000 /! F32.of_Z 168000000)).
Proof.
  cbv zeta.
  rewrite (inductance_law_time_survives_wrap_around (board := example_board) _ 21000);
    [reflexivity|lia|reflexivity].
Defined.

(** X16 on a disarmed motor without brake resistor. *)
Lemma calibration_without_brake_resistor_witness :
  retval (measure_phase_resistance example_background (F32.of_Z 10) (F32.of_Z 2))
    no_brake_world = false /\
  error_ (motor (exec (measure_phase_resistance example_background (F32.of_Z 10)
                         (F32.of_Z 2)) no_brake_world)) = 0 /\
  retval (measure_phase_inductance (board := example_board) example_background
            (F32.of_Z 2)) no_brake_world = false.
Proof.
  destruct (calibration_without_brake_resistor (board := example_board)
              example_background (F32.of_Z 10) (F32.of_Z 2) (F32.of_Z 2)
              no_brake_world eq_refl eq_refl) as [H1 [_ [H3 [H4 _]]]].
  split; [exact H1|]. split; [|exact H4].
  rewrite (H3 ltac:(vm_compute; reflexivity)). reflexivity.
Defined.

(** X23 on the configuration before calibration, whose inductance is
    zero. *)
Lemma gains_undefined_with_zero_inductance_witness :
  phase_inductance (config_ (motor example_world)) = S754_zero false /\
  F32.isnan (i_gain_ (retval (update_current_controller_gains example_setup)
                        example_world)) = true.
Proof.
  split; [reflexivity|].
  exact (proj1 (gains_undefined_with_zero_inductance example_setup example_world false
                  eq_refl)).
Defined.

(** X24 with a configured limit of 10 A, a hardware limit of 60.75 A and a
    limiter that allows 7.5 A. *)
Lemma effective_current_lim_is_the_tightest_witness :
  let r := retval (effective_current_lim (limits := example_limits) example_setup)
             example_world in
  F32.isnan (current_lim example_setup) = false /\
  r = F32.lit 15 2 /\
  F32.leb r (current_lim example_setup) = true.
Proof.
  cbv zeta. split; [reflexivity|]. split; [vm_compute; reflexivity|].
  exact (proj1 (proj2 (effective_current_lim_is_the_tightest
                         (limits := example_limits) example_setup example_world
                         eq_refl))).
Defined.

(** X25 with an effective limit of 10 A and a torque constant of
    0.04 Nm/A. *)
Lemma max_available_torque_is_clamped_witness :
  let r := retval (max_available_torque example_setup) example_world in
  F32.leb F32.zero (torque_lim example_setup) = true /\
  F32.isnan r = false /\
  F32.leb F32.zero r = true.
Proof.
  cbv zeta. split; [reflexivity|].
  destruct (max_available_torque_is_clamped example_setup example_world eq_refl)
    as [H1 [H2 _]].
  split; [rewrite H1; vm_compute; reflexivity|].
  apply H2. vm_compute. reflexivity.
Defined.

(** X27 on a calibration run whose resistance measurement succeeds and
    whose inductance measurement fails. *)
Lemma run_calibration_measurements_witness :
  let r := retval (run_calibration (board := example_board) example_background
                     example_setup) calibrated_world in
  let w' := exec (run_calibration (board := example_board) example_background
                    example_setup) calibrated_world in
  motor_type example_setup = MOTOR_TYPE_HIGH_CURRENT /\
  is_armed_ (motor w') = false /\
  fst r = false.
Proof.
  cbv zeta. split; [reflexivity|].
  split; [|vm_compute; reflexivity].
  exact (proj1 (run_calibration_measurements (board := example_board)
                  example_background example_setup calibrated_world
                  (or_introl eq_refl))).
Defined.

(** X17 on a phase A sample above the window of the sensor. *)
Lemma saturated_sample_disarms_witness :
  let w' := exec (tim_update_cb (board := example_board) 4000 2048 2048)
              calibrated_sense_world in
  saturated (board := example_board) 4000 = true /\
  is_armed_ (motor calibrated_sense_world) = true /\
  is_armed_ (motor w') = false /\
  has_error (error_ (motor w')) ERROR_CURRENT_SENSE_SATURATION.
Proof.
  cbv zeta. split; [vm_compute; reflexivity|]. split; [reflexivity|].
  apply (saturated_sample_disarms (board := example_board) calibrated_sense_world
           4000 2048 2048).
  - vm_compute. discriminate.
  - vm_compute. reflexivity.
Defined.

(** X22 on the samples 2098 and 1998. *)
Lemma phase_current_is_odd_around_mid_scale_witness :
  phase_current_from_adcval example_motor 2098
  = F32.neg (phase_current_from_adcval example_motor 1998) /\
  F32.isnan (phase_current_from_adcval example_motor 2098) = false.
Proof.
  split; [|vm_compute; reflexivity].
  apply (phase_current_is_odd_around_mid_scale example_motor 50). lia.
Defined.

(** X28 on the example world, whose rotor flux is set to one before the
    call: after [arm] the available torque is zero. *)
Lemma induction_motor_has_no_torque_after_arm_witness :
  let w := set_rotor_flux_ (F32.of_Z 1) example_world in
  F32.isnan (retval (max_available_torque example_acim_setup) w) = false /\
  retval (max_available_torque example_acim_setup) w <> F32.zero /\
  retval (max_available_torque example_acim_setup) (exec (arm (Some law_cell)) w)
    = F32.zero.
Proof.
  cbv zeta. split; [vm_compute; reflexivity|]. split; [vm_compute; discriminate|].
  destruct (induction_motor_has_no_torque_after_arm example_acim_setup
              (set_rotor_flux_ (F32.of_Z 1) example_world) (Some law_cell)
              eq_refl eq_refl eq_refl) as [sign H].
  rewrite H. revert H. vm_compute. intros H. injection H as <-. reflexivity.
Defined.

(** X8 on a gate driver that reports a fault. *)
Lemma do_checks_reports_gate_driver_witness :
  let w' := exec (do_checks 0) gate_fault_world in
  retval (do_checks 0) gate_fault_world = false /\
  is_armed_ (motor w') = false /\
  has_error (error_ (motor w')) ERROR_DRV_FAULT.
Proof.
  destruct (do_checks_reports_gate_driver gate_fault_world 0) as [H1 [_ H3]].
  destruct (H3 eq_refl) as [H4 [H5 _]].
  cbv zeta. split; [exact H1|]. split; [exact H4|exact H5].
Defined.

(** X26 on a gimbal motor: nothing is measured, the motor is marked
    calibrated, and the gains come from the stored configuration. *)
Lemma run_calibration_outcome_witness :
  let s := {| pre_calibrated := false; motor_type := MOTOR_TYPE_GIMBAL;
              current_control_bandwidth := F32.of_Z 1000;
              current_lim := F32.of_Z 10; torque_constant := F32.lit 4 100;
              torque_lim := S754_infinity false;
              calibration_current := F32.of_Z 10;
              resistance_calib_max_voltage := F32.of_Z 2;
              is_calibrated_ := false; p_gain_ := F32.zero; i_gain_ := F32.zero;
              max_allowed_current_ := F32.lit 6075 100 |} in
  let r := retval (run_calibration (board := example_board) example_background s)
             example_world in
  fst r = true /\
  is_calibrated_ (snd r) = true /\
  exec (run_calibration (board := example_board) example_background s) example_world
    = example_world.
Proof.
  cbv zeta.
  match goal with
  | |- fst (retval (run_calibration _ ?s) _) = _ /\ _ =>
      destruct (run_calibration_outcome (board := example_board) example_background
                  s example_world) as [H1 [_ [H3 _]]];
      destruct (H3 eq_refl) as [H4 H5]
  end.
  split; [exact H4|]. split; [|exact H5].
  rewrite (H1 H4). reflexivity.
Defined.
